(** * Workflow orchestration engine of the self-healing incident pipeline

    A shallow embedding of [src/agents/orchestrator_agent.py] (class
    [OrchestratorAgent]) and of the workflow actions of
    [src/agents/orchestrator_a2a_service.py] (class
    [OrchestratorAgentExecutor]), followed by the properties of the
    workflow state machine, the record store, the timeout supervisor, the
    fallback policy and the ingress handler.

    Conventions of the embedding.
    - Python values that travel through the orchestrator as [Any] or
      [Dict[str, Any]] are values of [PyVal]; a Python [dict] is an
      association list in insertion order.
    - A [datetime] is an integer number of microseconds, a [timedelta] a
      difference of two of them.
    - The code is a coroutine that reads a clock, draws UUIDs and awaits
      replies of remote agents.  These are the environment ([World]): the
      n-th clock reading, the n-th UUID, the reply to the n-th remote call.
      A handler is traced as one uninterrupted run under a given world.
    - Effects are a state-and-exception monad [M]; [try ... except] is
      [try_except].
    - [logger.info/warning/error] lines are not part of the state; the
      audit events of [_log_mcp_event] are. *)

From Stdlib Require Import ZArith List String Ascii Bool Lia.
Import ListNotations.
Open Scope string_scope.
Open Scope Z_scope.

Set Implicit Arguments.

(** ** Python values *)

#[local] Unset Elimination Schemes.
Inductive PyVal : Type :=
| PNone
| PBool (b : bool)
| PInt (z : Z)
| PFloat (m e : Z)            (* the float nearest to m * 10^e *)
| PStr (s : string)
| PList (l : list PyVal)
| PDict (d : list (string * PyVal)).
#[local] Set Elimination Schemes.

Definition Dict := list (string * PyVal).

(** [bool(v)] *)
Definition truthy (v : PyVal) : bool :=
  match v with
  | PNone => false
  | PBool b => b
  | PInt z => negb (z =? 0)
  | PFloat m _ => negb (m =? 0)
  | PStr s => negb (s =? "")%string
  | PList l => match l with [] => false | _ => true end
  | PDict d => match d with [] => false | _ => true end
  end.

(** [type(v).__name__] *)
Definition type_name (v : PyVal) : string :=
  match v with
  | PNone => "NoneType"
  | PBool _ => "bool"
  | PInt _ => "int"
  | PFloat _ _ => "float"
  | PStr _ => "str"
  | PList _ => "list"
  | PDict _ => "dict"
  end.

Definition is_dict (v : PyVal) : bool :=
  match v with PDict _ => true | _ => false end.

(** [v == s] for a string literal [s] *)
Definition eq_str (v : PyVal) (s : string) : bool :=
  match v with PStr s' => (s' =? s)%string | _ => false end.

(** ** Dictionaries in insertion order *)

Section AssocList.
Variable V : Type.

Fixpoint dict_get (k : string) (d : list (string * V)) : option V :=
  match d with
  | [] => None
  | (k', v) :: r => if (k' =? k)%string then Some v else dict_get k r
  end.

Definition dict_mem (k : string) (d : list (string * V)) : bool :=
  match dict_get k d with Some _ => true | None => false end.

(** [d[k] = v]: an existing key keeps its place, a new key goes last. *)
Fixpoint dict_set (k : string) (v : V) (d : list (string * V)) : list (string * V) :=
  match d with
  | [] => [(k, v)]
  | (k', v') :: r =>
      if (k' =? k)%string then (k', v) :: r else (k', v') :: dict_set k v r
  end.

(** [del d[k]] *)
Fixpoint dict_del (k : string) (d : list (string * V)) : list (string * V) :=
  match d with
  | [] => []
  | (k', v') :: r =>
      if (k' =? k)%string then r else (k', v') :: dict_del k r
  end.

Definition dict_keys (d : list (string * V)) : list string := map fst d.
End AssocList.

(** ** Exceptions *)

Record Exn := mkExn { exn_type : string; exn_msg : string }.

Definition AttributeError (v : PyVal) (attr : string) : Exn :=
  mkExn "AttributeError"
        ("'" ++ type_name v ++ "' object has no attribute '" ++ attr ++ "'").

Definition RuntimeError (msg : string) : Exn := mkExn "RuntimeError" msg.
Definition ValueError (msg : string) : Exn := mkExn "ValueError" msg.

Inductive Res (A : Type) : Type :=
| Ok (a : A)
| Raise (e : Exn).
Arguments Ok {A} a.
Arguments Raise {A} e.

(** [v.get(k, default)]: a method of dictionaries only. *)
Definition py_get (v : PyVal) (k : string) (default : PyVal) : Res PyVal :=
  match v with
  | PDict d => Ok (match dict_get k d with Some x => x | None => default end)
  | _ => Raise (AttributeError v "get")
  end.

(** ** Data model: [FailurePayload], [WorkflowState] *)

Record FailurePayload := mkFailurePayload {
  test_title : PyVal;
  fp_status : PyVal;
  error : PyVal;
  retries : PyVal;
  trace_id : PyVal;
  video_url : PyVal;
  trace_url : PyVal;
  timestamp : PyVal
}.

(** [dataclasses.asdict] *)
Definition asdict (p : FailurePayload) : PyVal :=
  PDict [("test_title", test_title p); ("status", fp_status p);
         ("error", error p); ("retries", retries p);
         ("trace_id", trace_id p); ("video_url", video_url p);
         ("trace_url", trace_url p); ("timestamp", timestamp p)].

Record WorkflowState := mkWorkflowState {
  workflow_id : string;
  incident_id : string;
  failure_payload : FailurePayload;
  status : string;
  created_at : Z;
  updated_at : Z;
  analysis_result : PyVal;
  remediation_action : PyVal;
  approval_response : PyVal;
  execution_result : PyVal;
  topology_data : PyVal;
  error_message : PyVal
}.

Definition with_status (x : string) (w : WorkflowState) : WorkflowState :=
  mkWorkflowState (workflow_id w) (incident_id w) (failure_payload w) x
    (created_at w) (updated_at w) (analysis_result w) (remediation_action w)
    (approval_response w) (execution_result w) (topology_data w) (error_message w).

Definition with_updated_at (t : Z) (w : WorkflowState) : WorkflowState :=
  mkWorkflowState (workflow_id w) (incident_id w) (failure_payload w) (status w)
    (created_at w) t (analysis_result w) (remediation_action w)
    (approval_response w) (execution_result w) (topology_data w) (error_message w).

Definition with_analysis_result (v : PyVal) (w : WorkflowState) : WorkflowState :=
  mkWorkflowState (workflow_id w) (incident_id w) (failure_payload w) (status w)
    (created_at w) (updated_at w) v (remediation_action w)
    (approval_response w) (execution_result w) (topology_data w) (error_message w).

Definition with_remediation_action (v : PyVal) (w : WorkflowState) : WorkflowState :=
  mkWorkflowState (workflow_id w) (incident_id w) (failure_payload w) (status w)
    (created_at w) (updated_at w) (analysis_result w) v
    (approval_response w) (execution_result w) (topology_data w) (error_message w).

Definition with_approval_response (v : PyVal) (w : WorkflowState) : WorkflowState :=
  mkWorkflowState (workflow_id w) (incident_id w) (failure_payload w) (status w)
    (created_at w) (updated_at w) (analysis_result w) (remediation_action w)
    v (execution_result w) (topology_data w) (error_message w).

Definition with_execution_result (v : PyVal) (w : WorkflowState) : WorkflowState :=
  mkWorkflowState (workflow_id w) (incident_id w) (failure_payload w) (status w)
    (created_at w) (updated_at w) (analysis_result w) (remediation_action w)
    (approval_response w) v (topology_data w) (error_message w).

Definition with_error_message (m : PyVal) (w : WorkflowState) : WorkflowState :=
  mkWorkflowState (workflow_id w) (incident_id w) (failure_payload w) (status w)
    (created_at w) (updated_at w) (analysis_result w) (remediation_action w)
    (approval_response w) (execution_result w) (topology_data w) m.

(** ** The agent's state *)

(** An audit event of [_log_mcp_event]. *)
Record Event := mkEvent {
  ev_timestamp : Z;
  ev_type : string;
  ev_data : PyVal
}.

(** What [hasattr(client, "invoke")] and [hasattr(client, "call")] answer. *)
Record A2AClient := mkA2AClient { has_invoke : bool; has_call : bool }.

(** [self.services[..]["a2a"]]: the skill configured for each call kind. *)
Record Services := mkServices {
  rca_skill : string;
  approval_skill : string;
  propose_skill : string;
  execute_skill : string
}.

(** [self.server]; [stop_raises] is what [await self.server.stop()] raises. *)
Record TCPSite := mkTCPSite { stop_raises : option Exn }.

(** One entry per assignment to [workflow_state.status]: the workflow, the
    stage it had and the stage it gets.  This trace is an observation of
    the run; no function reads it. *)
Definition Transition := (string * string * string)%type.

Record State := mkState {
  agent_id : string;
  start_time : Z;
  active_workflows : list (string * WorkflowState);
  rca_agents : list string;
  remediation_agents : list string;
  approval_agents : list string;
  a2a_clients : list (string * A2AClient);
  services : Services;
  server : option TCPSite;
  last_heartbeat : option Z;
  events : list Event;
  cleanup_tasks : list string;   (* scheduled [_cleanup_completed_workflow] *)
  clock_reads : nat;
  uuid_reads : nat;
  a2a_calls : nat;
  transitions : list Transition
}.

Definition set_active (a : list (string * WorkflowState)) (s : State) : State :=
  mkState (agent_id s) (start_time s) a (rca_agents s) (remediation_agents s) (approval_agents s)
    (a2a_clients s) (services s) (server s) (last_heartbeat s) (events s)
    (cleanup_tasks s) (clock_reads s) (uuid_reads s) (a2a_calls s) (transitions s).

Definition set_last_heartbeat (t : Z) (s : State) : State :=
  mkState (agent_id s) (start_time s) (active_workflows s) (rca_agents s) (remediation_agents s)
    (approval_agents s) (a2a_clients s) (services s) (server s) (Some t)
    (events s) (cleanup_tasks s) (clock_reads s) (uuid_reads s) (a2a_calls s)
    (transitions s).

Definition set_events (e : list Event) (s : State) : State :=
  mkState (agent_id s) (start_time s) (active_workflows s) (rca_agents s) (remediation_agents s)
    (approval_agents s) (a2a_clients s) (services s) (server s)
    (last_heartbeat s) e (cleanup_tasks s) (clock_reads s) (uuid_reads s)
    (a2a_calls s) (transitions s).

Definition set_cleanup_tasks (c : list string) (s : State) : State :=
  mkState (agent_id s) (start_time s) (active_workflows s) (rca_agents s) (remediation_agents s)
    (approval_agents s) (a2a_clients s) (services s) (server s)
    (last_heartbeat s) (events s) c (clock_reads s) (uuid_reads s)
    (a2a_calls s) (transitions s).

Definition set_clock_reads (n : nat) (s : State) : State :=
  mkState (agent_id s) (start_time s) (active_workflows s) (rca_agents s) (remediation_agents s)
    (approval_agents s) (a2a_clients s) (services s) (server s)
    (last_heartbeat s) (events s) (cleanup_tasks s) n (uuid_reads s)
    (a2a_calls s) (transitions s).

Definition set_uuid_reads (n : nat) (s : State) : State :=
  mkState (agent_id s) (start_time s) (active_workflows s) (rca_agents s) (remediation_agents s)
    (approval_agents s) (a2a_clients s) (services s) (server s)
    (last_heartbeat s) (events s) (cleanup_tasks s) (clock_reads s) n
    (a2a_calls s) (transitions s).

Definition set_a2a_calls (n : nat) (s : State) : State :=
  mkState (agent_id s) (start_time s) (active_workflows s) (rca_agents s) (remediation_agents s)
    (approval_agents s) (a2a_clients s) (services s) (server s)
    (last_heartbeat s) (events s) (cleanup_tasks s) (clock_reads s)
    (uuid_reads s) n (transitions s).

Definition set_transitions (t : list Transition) (s : State) : State :=
  mkState (agent_id s) (start_time s) (active_workflows s) (rca_agents s) (remediation_agents s)
    (approval_agents s) (a2a_clients s) (services s) (server s)
    (last_heartbeat s) (events s) (cleanup_tasks s) (clock_reads s)
    (uuid_reads s) (a2a_calls s) t.

(** ** The environment *)

(** What a remote call gives back: a value, or an exception (a timeout of
    [asyncio.wait_for], a transport or protocol error). *)
Inductive Reply : Type :=
| Returned (v : PyVal)
| Raised (e : Exn).

Record World := mkWorld {
  clock : nat -> Z;                 (* n-th [datetime.now()], microseconds *)
  uuid4 : nat -> string;            (* n-th [str(uuid.uuid4())] *)
  a2a_reply : nat -> string -> string -> PyVal -> Z -> Reply;
                                    (* n-th remote call: service, skill,
                                       payload, timeout in seconds *)
  strftime : Z -> string;           (* [.strftime('%Y%m%d-%H%M%S')] *)
  isoformat : Z -> string;          (* [.isoformat()] *)
  py_str : PyVal -> string          (* [str(v)] *)
}.

(** [timedelta(minutes=30)] *)
Definition workflow_timeout : Z := 30 * 60 * 1000000.

(** [timedelta.total_seconds()] *)
Definition total_seconds (d : Z) : PyVal := PFloat d (-6).

(** ** The monad of handlers *)

Definition M (A : Type) : Type := State -> Res A * State.

Definition ret {A} (a : A) : M A := fun s => (Ok a, s).

Definition bind {A B} (m : M A) (k : A -> M B) : M B :=
  fun s => match m s with
           | (Ok a, s') => k a s'
           | (Raise e, s') => (Raise e, s')
           end.

Definition raise {A} (e : Exn) : M A := fun s => (Raise e, s).

Definition try_except {A} (m : M A) (h : Exn -> M A) : M A :=
  fun s => match m s with
           | (Ok a, s') => (Ok a, s')
           | (Raise e, s') => h e s'
           end.

Definition lift {A} (r : Res A) : M A := fun s => (r, s).

Definition get_state : M State := fun s => (Ok s, s).

Definition modify (f : State -> State) : M unit := fun s => (Ok tt, f s).

Declare Scope monad_scope.
Delimit Scope monad_scope with monad.
Notation "x <- m ;; k" := (bind m (fun x => k))
  (at level 61, m at next level, right associativity) : monad_scope.
Notation "m ;; k" := (bind m (fun _ => k))
  (at level 61, right associativity) : monad_scope.
Open Scope monad_scope.

(** The state a computation ends in, and what it returns. *)
Definition exec {A} (m : M A) (s : State) : State := snd (m s).
Definition result {A} (m : M A) (s : State) : Res A := fst (m s).

Fixpoint for_each {A} (l : list A) (body : A -> M unit) : M unit :=
  match l with
  | [] => ret tt
  | x :: r => body x ;; for_each r body
  end.

(** ** Primitive effects *)

Definition lookup (k : string) (s : State) : option WorkflowState :=
  dict_get k (active_workflows s).

(** [k in self.active_workflows] *)
Definition contains (k : string) : M bool :=
  fun s => (Ok (dict_mem k (active_workflows s)), s).

(** The object stored under [k].  A [WorkflowState] object is stored under
    its own [workflow_id] and the handlers pass it on only while it is
    stored, so a reference to it is its key; the other case does not
    arise from the callers in this file. *)
Definition obj (k : string) : M WorkflowState :=
  fun s => match lookup k s with
           | Some w => (Ok w, s)
           | None => (Raise (mkExn "ReferenceError" k), s)
           end.

(** Attribute assignment on the object stored under [k] (other than
    [status]). *)
Definition assign (k : string) (f : WorkflowState -> WorkflowState) : M unit :=
  fun s => match lookup k s with
           | Some w => (Ok tt, set_active (dict_set k (f w) (active_workflows s)) s)
           | None => (Ok tt, s)
           end.

(** [workflow_state.status = x] *)
Definition set_status (k x : string) : M unit :=
  fun s => match lookup k s with
           | Some w =>
               (Ok tt,
                set_transitions (transitions s ++ [(k, status w, x)])%list
                  (set_active (dict_set k (with_status x w) (active_workflows s)) s))
           | None => (Ok tt, s)
           end.

(** [asyncio.create_task(self._cleanup_completed_workflow(k))] *)
Definition create_cleanup_task (k : string) : M unit :=
  modify (fun s => set_cleanup_tasks (cleanup_tasks s ++ [k])%list s).

Section Orchestrator.
Variable W : World.

(** [datetime.now()] *)
Definition now : M Z :=
  fun s => (Ok (clock W (clock_reads s)), set_clock_reads (S (clock_reads s)) s).

(** [str(uuid.uuid4())] *)
Definition new_uuid : M string :=
  fun s => (Ok (uuid4 W (uuid_reads s)), set_uuid_reads (S (uuid_reads s)) s).

(** [workflow_state.updated_at = datetime.now()] *)
Definition touch_updated_at (k : string) : M unit :=
  t <- now ;;
  assign k (with_updated_at t).

(** The two lines [workflow_state.status = x] and
    [workflow_state.updated_at = datetime.now()]. *)
Definition enter_stage (k x : string) : M unit :=
  set_status k x ;;
  touch_updated_at k.

(** [_log_mcp_event]: one entry of the audit trail. *)
Definition _log_mcp_event (event_type : string) (event_data : PyVal) : M unit :=
  t <- now ;;
  modify (fun s => set_events (events s ++ [mkEvent t event_type event_data])%list s).

(** [start_workflow] and [complete_workflow] hand the workflow to the ADK
    agent when there is one and write a log line otherwise; they catch
    every error and touch nothing of the state. *)
Definition start_workflow (workflow_type : string) (context : PyVal) : M unit :=
  ret tt.

Definition complete_workflow (k : string) (r : PyVal) : M unit :=
  ret tt.

(** [_a2a_call] *)
Definition remote (service skill : string) (payload : PyVal) (timeout : Z) : M PyVal :=
  fun s => (match a2a_reply W (a2a_calls s) service skill payload timeout with
            | Returned v => Ok v
            | Raised e => Raise e
            end, set_a2a_calls (S (a2a_calls s)) s).

Definition _a2a_call (service skill : string) (payload : PyVal)
           (timeout : Z) (correlation_id : string) : M PyVal :=
  s <- get_state ;;
  match dict_get service (a2a_clients s) with
  | Some client =>
      try_except
        (if has_invoke client then remote service skill payload timeout
         else if has_call client then remote service skill payload timeout
         else raise (RuntimeError
                       ("A2A client for " ++ service ++ " has no invoke/call method")))
        (fun e =>
           _log_mcp_event "a2a_call_failed"
             (PDict [("service", PStr service); ("skill", PStr skill);
                     ("error", PStr (exn_msg e));
                     ("correlation_id", PStr correlation_id)]) ;;
           raise (RuntimeError
                    ("A2A call failed for " ++ service ++ "." ++ skill ++ ": "
                     ++ exn_msg e)))
  | None =>
      raise (RuntimeError ("No A2A client available for service '" ++ service ++ "'"))
  end.

(** [_fail_workflow] *)
Definition _fail_workflow (k : string) (msg : PyVal) : M unit :=
  try_except
    (present <- contains k ;;
     if negb present then ret tt
     else
       enter_stage k "failed" ;;
       assign k (with_error_message msg) ;;
       w <- obj k ;;
       _log_mcp_event "workflow_failed"
         (PDict [("workflow_id", PStr k);
                 ("incident_id", PStr (incident_id w));
                 ("error_message", msg);
                 ("duration_seconds", total_seconds (updated_at w - created_at w))]) ;;
       create_cleanup_task k)
    (fun _ => ret tt).

(** [_complete_workflow] *)
Definition _complete_workflow (k : string) (r : PyVal) : M unit :=
  try_except
    (present <- contains k ;;
     if negb present then ret tt
     else
       enter_stage k "completed" ;;
       assign k (with_execution_result r) ;;
       complete_workflow k r ;;
       w <- obj k ;;
       _log_mcp_event "workflow_completed"
         (PDict [("workflow_id", PStr k);
                 ("incident_id", PStr (incident_id w));
                 ("duration_seconds", total_seconds (updated_at w - created_at w));
                 ("result", r)]) ;;
       create_cleanup_task k)
    (fun _ => ret tt).

(** [_cleanup_completed_workflow], once its five minutes have passed. *)
Definition _cleanup_completed_workflow (k : string) : M unit :=
  modify (fun s => set_active (dict_del k (active_workflows s)) s).

(** [_handle_execution_complete] *)
Definition _handle_execution_complete (k : string) (execution_result : PyVal) : M unit :=
  try_except
    (present <- contains k ;;
     if negb present then ret tt
     else
       assign k (with_execution_result execution_result) ;;
       touch_updated_at k ;;
       success <- lift (py_get execution_result "success" PNone) ;;
       duration <- lift (py_get execution_result "duration_seconds" PNone) ;;
       _log_mcp_event "execution_complete"
         (PDict [("workflow_id", PStr k); ("success", success);
                 ("duration", duration)]) ;;
       _complete_workflow k execution_result)
    (fun e => _fail_workflow k (PStr ("Execution handling error: " ++ exn_msg e))).

Definition mock_execution : PyVal :=
  PDict [("success", PBool true);
         ("duration_seconds", PInt 30);
         ("actions_taken", PList [PStr "A2A communication failed, mock service restart"]);
         ("verification_status", PStr "passed")].

(** [_trigger_remediation_execution] *)
Definition _trigger_remediation_execution (k : string) : M unit :=
  try_except
    (s <- get_state ;;
     match remediation_agents s with
     | [] => _fail_workflow k (PStr "No remediation agents available")
     | _ =>
       enter_stage k "executing" ;;
       w <- obj k ;;
       _log_mcp_event "remediation_execution_triggered"
         (PDict [("workflow_id", PStr k); ("incident_id", PStr (incident_id w))]) ;;
       let correlation_id := "wf-" ++ k in
       try_except
         (w <- obj k ;;
          r <- _a2a_call "remediation" (execute_skill (services s))
                 (PDict [("workflow_id", PStr k);
                         ("incident_id", PStr (incident_id w));
                         ("remediation_action", remediation_action w);
                         ("approval_response", approval_response w)])
                 90 correlation_id ;;
          _handle_execution_complete k r)
         (fun e =>
            _log_mcp_event "remediation_a2a_failed_mock_fallback"
              (PDict [("workflow_id", PStr k); ("stage", PStr "execute");
                      ("error", PStr (exn_msg e))]) ;;
            _handle_execution_complete k mock_execution)
     end)
    (fun e => _fail_workflow k (PStr ("Execution trigger error: " ++ exn_msg e))).

(** [_handle_approval_received] *)
Definition _handle_approval_received (k : string) (approval : PyVal) : M unit :=
  try_except
    (present <- contains k ;;
     if negb present then ret tt
     else
       assign k (with_approval_response approval) ;;
       touch_updated_at k ;;
       decision <- lift (py_get approval "decision" PNone) ;;
       user_id <- lift (py_get approval "user_id" PNone) ;;
       _log_mcp_event "approval_received"
         (PDict [("workflow_id", PStr k); ("decision", decision);
                 ("user_id", user_id)]) ;;
       decision <- lift (py_get approval "decision" PNone) ;;
       if eq_str decision "approve" then _trigger_remediation_execution k
       else
         reason <- lift (py_get approval "reason" (PStr "Rejected by approver")) ;;
         _complete_workflow k
           (PDict [("status", PStr "rejected"); ("reason", reason)]))
    (fun e => _fail_workflow k (PStr ("Approval handling error: " ++ exn_msg e))).

Definition mock_approval : PyVal :=
  PDict [("decision", PStr "approve");
         ("user_id", PStr "system");
         ("reason", PStr "A2A communication failed, auto-approved for testing")].

(** [_trigger_approval_request] *)
Definition _trigger_approval_request (k : string) : M unit :=
  try_except
    (s <- get_state ;;
     match approval_agents s with
     | [] => _fail_workflow k (PStr "No approval agents available")
     | _ =>
       enter_stage k "awaiting_approval" ;;
       w <- obj k ;;
       let approval_request :=
         PDict [("workflow_id", PStr k);
                ("incident_id", PStr (incident_id w));
                ("analysis_result", analysis_result w);
                ("remediation_action", remediation_action w);
                ("failure_payload", asdict (failure_payload w))] in
       _log_mcp_event "approval_request_triggered"
         (PDict [("workflow_id", PStr k); ("incident_id", PStr (incident_id w))]) ;;
       let correlation_id := "wf-" ++ k in
       try_except
         (r <- _a2a_call "approval" (approval_skill (services s))
                 approval_request 45 correlation_id ;;
          _handle_approval_received k r)
         (fun e =>
            _log_mcp_event "approval_a2a_failed_mock_fallback"
              (PDict [("workflow_id", PStr k); ("error", PStr (exn_msg e))]) ;;
            _handle_approval_received k mock_approval)
     end)
    (fun e => _fail_workflow k (PStr ("Approval trigger error: " ++ exn_msg e))).

(** [_handle_remediation_proposed] *)
Definition _handle_remediation_proposed (k : string) (action : PyVal) : M unit :=
  try_except
    (present <- contains k ;;
     if negb present then ret tt
     else
       assign k (with_remediation_action action) ;;
       touch_updated_at k ;;
       action_type <- lift (py_get action "type" PNone) ;;
       risk_level <- lift (py_get action "risk_level" PNone) ;;
       _log_mcp_event "remediation_proposed"
         (PDict [("workflow_id", PStr k); ("action_type", action_type);
                 ("risk_level", risk_level)]) ;;
       _trigger_approval_request k)
    (fun e => _fail_workflow k (PStr ("Remediation handling error: " ++ exn_msg e))).

(** [x or {}] *)
Definition or_empty_dict (v : PyVal) : PyVal :=
  if truthy v then v else PDict [].

(** [_trigger_remediation_proposal] *)
Definition _trigger_remediation_proposal (k : string) : M unit :=
  try_except
    (s <- get_state ;;
     match remediation_agents s with
     | [] => _fail_workflow k (PStr "No remediation agents available")
     | _ =>
       enter_stage k "proposing" ;;
       w <- obj k ;;
       _log_mcp_event "remediation_proposal_triggered"
         (PDict [("workflow_id", PStr k); ("incident_id", PStr (incident_id w))]) ;;
       let correlation_id := "wf-" ++ k in
       try_except
         (w <- obj k ;;
          r <- _a2a_call "remediation" (propose_skill (services s))
                 (PDict [("workflow_id", PStr k);
                         ("incident_id", PStr (incident_id w));
                         ("analysis_result", analysis_result w);
                         ("topology_data", topology_data w)])
                 60 correlation_id ;;
          _handle_remediation_proposed k r)
         (fun e =>
            _log_mcp_event "remediation_a2a_failed_mock_fallback"
              (PDict [("workflow_id", PStr k); ("stage", PStr "propose");
                      ("error", PStr (exn_msg e))]) ;;
            w <- obj k ;;
            service <- lift (py_get (or_empty_dict (analysis_result w))
                               "failing_service" (PStr "unknown-service")) ;;
            _handle_remediation_proposed k
              (PDict [("type", PStr "restart_service");
                      ("service", service);
                      ("risk_level", PStr "medium");
                      ("description",
                       PStr "A2A communication failed, using mock remediation proposal")]))
     end)
    (fun e => _fail_workflow k (PStr ("Remediation trigger error: " ++ exn_msg e))).

(** [_handle_analysis_complete] *)
Definition _handle_analysis_complete (k : string) (analysis : PyVal) : M unit :=
  try_except
    (present <- contains k ;;
     if negb present then ret tt
     else
       assign k (with_analysis_result analysis) ;;
       touch_updated_at k ;;
       classification <- lift (py_get analysis "classification" PNone) ;;
       confidence <- lift (py_get analysis "confidence_score" PNone) ;;
       _log_mcp_event "analysis_complete"
         (PDict [("workflow_id", PStr k); ("classification", classification);
                 ("confidence_score", confidence)]) ;;
       _trigger_remediation_proposal k)
    (fun e => _fail_workflow k (PStr ("Analysis handling error: " ++ exn_msg e))).

Definition mock_analysis : PyVal :=
  PDict [("classification", PStr "Backend Error");
         ("failing_service", PStr "unknown-service");
         ("summary", PStr "A2A communication failed, using mock analysis");
         ("confidence_score", PFloat 8 (-1));
         ("evidence_count", PInt 1)].

(** [_trigger_rca_analysis] *)
Definition _trigger_rca_analysis (k : string) : M unit :=
  try_except
    (s <- get_state ;;
     match rca_agents s with
     | [] => _fail_workflow k (PStr "No RCA agents available")
     | _ =>
       enter_stage k "analyzing" ;;
       w <- obj k ;;
       let p := failure_payload w in
       error_message <- lift (py_get (error p) "message" (PStr (py_str W (error p)))) ;;
       error_stack <- lift (py_get (error p) "stack" (PStr "")) ;;
       error_type <- lift (py_get (error p) "type" (PStr "Error")) ;;
       let analysis_request :=
         PDict [("failure_payload",
                 PDict [("test_title", test_title p);
                        ("status", fp_status p);
                        ("error_message", error_message);
                        ("error_stack", error_stack);
                        ("error_type", error_type);
                        ("retries", retries p);
                        ("trace_id", trace_id p);
                        ("timestamp", timestamp p)])] in
       _log_mcp_event "rca_analysis_triggered"
         (PDict [("workflow_id", PStr k);
                 ("incident_id", PStr (incident_id w));
                 ("trace_id", trace_id p)]) ;;
       let correlation_id := "wf-" ++ k in
       try_except
         (r <- _a2a_call "rca" (rca_skill (services s))
                 analysis_request 45 correlation_id ;;
          _handle_analysis_complete k r)
         (fun e =>
            _log_mcp_event "rca_a2a_failed_mock_fallback"
              (PDict [("workflow_id", PStr k); ("error", PStr (exn_msg e))]) ;;
            _handle_analysis_complete k mock_analysis)
     end)
    (fun e => _fail_workflow k (PStr ("RCA trigger error: " ++ exn_msg e))).
End Orchestrator.

(** ** Ingress, supervisor and shutdown *)

(** An HTTP response: [web.Response(status, text)] has a [PStr] body,
    [web.json_response] a [PDict] body. *)
Record Response := mkResponse { resp_status : Z; resp_body : PyVal }.

(** What [await request.json()] does: it raises [json.JSONDecodeError]
    ([BadJSON]), it raises another exception, as [UnicodeDecodeError] for
    a body that is not valid UTF-8 ([Unreadable]), or it returns the
    decoded value. *)
Inductive Body : Type :=
| BadJSON
| Unreadable
| Json (v : PyVal).

(** [_validate_failure_payload] *)
Definition required_fields : list string :=
  ["test_title"; "status"; "error"; "retries"; "trace_id"].

Definition _validate_failure_payload (payload : Dict) : bool :=
  if forallb (fun field => dict_mem field payload) required_fields
  then match dict_get "error" payload with
       | Some e => is_dict e
       | None => false
       end
  else false.

(** [d.get(k, default)] on a dictionary *)
Definition get_or (d : Dict) (k : string) (default : PyVal) : PyVal :=
  match dict_get k d with Some x => x | None => default end.

Section Ingress.
Variable W : World.

(** [_start_incident_workflow] *)
Definition _start_incident_workflow (p : FailurePayload) : M (option string) :=
  try_except
    (workflow_id <- new_uuid W ;;
     t <- now W ;;
     let incident_id :=
       "inc-" ++ strftime W t ++ "-" ++ substring 0 8 workflow_id in
     created <- now W ;;
     updated <- now W ;;
     let workflow_state :=
       mkWorkflowState workflow_id incident_id p "started" created updated
         PNone PNone PNone PNone PNone PNone in
     modify (fun s => set_active
                        (dict_set workflow_id workflow_state (active_workflows s)) s) ;;
     _log_mcp_event W "workflow_started"
       (PDict [("workflow_id", PStr workflow_id);
               ("incident_id", PStr incident_id);
               ("test_title", test_title p);
               ("trace_id", trace_id p);
               ("failure_status", fp_status p)]) ;;
     start_workflow "incident_response"
       (PDict [("incident_id", PStr incident_id);
               ("failure_payload", asdict p);
               ("trace_id", trace_id p);
               ("test_title", test_title p)]) ;;
     _trigger_rca_analysis W workflow_id ;;
     ret (Some workflow_id))
    (fun e =>
       _log_mcp_event W "workflow_start_failed"
         (PDict [("error", PStr (exn_msg e));
                 ("test_title", test_title p);
                 ("trace_id", trace_id p)]) ;;
       ret None).

(** [_handle_failure_webhook] *)
Definition _handle_failure_webhook (p : FailurePayload) : M (option string) :=
  _start_incident_workflow p.

(** The [FailurePayload(...)] built from a request dictionary; the
    defaults of [trace_id] and [timestamp] are evaluated whether or not
    they are used.  [default_trace_id] is [str(uuid.uuid4())] in the
    webhook handler and the task id in the A2A service. *)
Definition make_failure_payload (d : Dict) (default_trace_id : string) : M FailurePayload :=
  t <- now W ;;
  ret (mkFailurePayload
         (get_or d "test_title" (PStr "Unknown Test"))
         (get_or d "status" (PStr "failed"))
         (get_or d "error" (PDict []))
         (get_or d "retries" (PInt 0))
         (get_or d "trace_id" (PStr default_trace_id))
         (get_or d "video_url" PNone)
         (get_or d "trace_url" PNone)
         (get_or d "timestamp" (PStr (isoformat W t)))).

(** [_handle_playwright_webhook] *)
Definition _handle_playwright_webhook (body : Body) : M Response :=
  match body with
  | BadJSON => ret (mkResponse 400 (PStr "Invalid JSON"))
  | Unreadable => ret (mkResponse 500 (PStr "Internal server error"))
  | Json payload_data =>
      try_except
        (match payload_data with
         | PDict d =>
             if negb (_validate_failure_payload d)
             then ret (mkResponse 400 (PStr "Invalid payload"))
             else
               u <- new_uuid W ;;
               p <- make_failure_payload d u ;;
               workflow_id <- _start_incident_workflow p ;;
               match workflow_id with
               | Some id =>
                   if truthy (PStr id)
                   then ret (mkResponse 200
                               (PDict [("status", PStr "success");
                                       ("workflow_id", PStr id);
                                       ("message",
                                        PStr "Incident response workflow started")]))
                   else ret (mkResponse 500 (PStr "Failed to start workflow"))
               | None => ret (mkResponse 500 (PStr "Failed to start workflow"))
               end
         | _ => raise (AttributeError payload_data "get")
         end)
        (fun _ => ret (mkResponse 500 (PStr "Internal server error")))
  end.

(** The list comprehension of [health_check]: the clock is read once per
    workflow. *)
Fixpoint stuck_workflows (l : list (string * WorkflowState)) : M (list string) :=
  match l with
  | [] => ret []
  | (k, w) :: r =>
      t <- now W ;;
      rest <- stuck_workflows r ;;
      ret (if t - updated_at w >? workflow_timeout then k :: rest else rest)
  end.

(** [health_check] *)
Definition health_check : M bool :=
  try_except
    (s <- get_state ;;
     match server s with
     | None => ret false
     | Some _ =>
         stuck <- stuck_workflows (active_workflows s) ;;
         for_each stuck (fun k => _fail_workflow W k (PStr "Workflow timeout")) ;;
         ret true
     end)
    (fun _ => ret false).

Definition len {A} (l : list A) : PyVal := PInt (Z.of_nat (List.length l)).

(** [_handle_health_check], the handler of [GET /health] *)
Definition _handle_health_check : M Response :=
  is_healthy <- health_check ;;
  s <- get_state ;;
  ret (mkResponse (if is_healthy then 200 else 503)
         (PDict [("status", PStr (if is_healthy then "healthy" else "unhealthy"));
                 ("agent_id", PStr (agent_id s));
                 ("active_workflows", len (active_workflows s));
                 ("available_agents",
                  PDict [("rca", len (rca_agents s));
                         ("remediation", len (remediation_agents s));
                         ("approval", len (approval_agents s))])])).

(** The live state of an object of a snapshot of the dictionary. *)
Definition deref (kw : string * WorkflowState) : M WorkflowState :=
  fun s => (Ok (match lookup (fst kw) s with Some w => w | None => snd kw end), s).

(** One round of the loop of [_monitor_workflows], up to its
    [asyncio.sleep(30)]. *)
Definition monitor_tick : M unit :=
  try_except
    (current_time <- now W ;;
     s <- get_state ;;
     for_each (active_workflows s)
       (fun kw =>
          w <- deref kw ;;
          if current_time - updated_at w >? workflow_timeout
          then _fail_workflow W (fst kw) (PStr "Workflow timeout")
          else ret tt) ;;
     modify (set_last_heartbeat current_time))
    (fun _ => ret tt).

(** [cleanup] *)
Definition cleanup : M unit :=
  try_except
    (s <- get_state ;;
     match server s with
     | Some site =>
         match stop_raises site with
         | Some e => raise e
         | None => ret tt
         end
     | None => ret tt
     end ;;
     s <- get_state ;;
     for_each (dict_keys (active_workflows s))
       (fun k => _fail_workflow W k (PStr "System shutdown")) ;;
     s <- get_state ;;
     _log_mcp_event W "orchestrator_shutdown"
       (PDict [("agent_id", PStr (agent_id s));
               ("active_workflows_count", len (active_workflows s))]))
    (fun _ => ret tt).
End Ingress.

(** ** The workflow actions of the A2A service ([OrchestratorAgentExecutor]) *)

Section Service.
Variable W : World.

(** A workflow id of a request is any JSON value.  The store has string
    keys only: a handler called with another hashable value finds no
    workflow, and with an unhashable one fails in its membership test,
    which it catches; neither changes the state. *)
Definition with_id (workflow_id : PyVal) (h : string -> M unit) : M unit :=
  match workflow_id with
  | PStr k => h k
  | _ => ret tt
  end.

(** [_handle_update_workflow_status] *)
Definition _handle_update_workflow_status (task_id : string) (request : Dict) : M PyVal :=
  let workflow_id := get_or request "workflow_id" PNone in
  let status := get_or request "status" PNone in
  let result_data := get_or request "result_data" (PDict []) in
  if negb (truthy workflow_id) || negb (truthy status)
  then raise (ValueError "Missing workflow_id or status in request")
  else
    (if eq_str status "analysis_complete" then
       with_id workflow_id (fun k => _handle_analysis_complete W k result_data)
     else if eq_str status "remediation_proposed" then
       with_id workflow_id (fun k => _handle_remediation_proposed W k result_data)
     else if eq_str status "approval_received" then
       with_id workflow_id (fun k => _handle_approval_received W k result_data)
     else if eq_str status "execution_complete" then
       with_id workflow_id (fun k => _handle_execution_complete W k result_data)
     else if eq_str status "failed" then
       msg <- lift (py_get result_data "error_message" (PStr "Unknown error")) ;;
       with_id workflow_id (fun k => _fail_workflow W k msg)
     else raise (ValueError ("Unknown status: " ++ py_str W status))) ;;
    ret (PDict [("task_id", PStr task_id);
                ("workflow_id", workflow_id);
                ("status", PStr "updated");
                ("message", PStr ("Workflow " ++ py_str W workflow_id
                                  ++ " status updated to " ++ py_str W status))]).

(** [_handle_cancel_workflow] *)
Definition _handle_cancel_workflow (task_id : string) (request : Dict) : M PyVal :=
  let workflow_id := get_or request "workflow_id" PNone in
  let reason := get_or request "reason" (PStr "Cancelled by user") in
  if negb (truthy workflow_id)
  then raise (ValueError "Missing workflow_id in request")
  else
    with_id workflow_id
      (fun k => _fail_workflow W k (PStr ("Cancelled: " ++ py_str W reason))) ;;
    ret (PDict [("task_id", PStr task_id);
                ("workflow_id", workflow_id);
                ("status", PStr "cancelled");
                ("message", PStr ("Workflow " ++ py_str W workflow_id
                                  ++ " cancelled: " ++ py_str W reason))]).

(** [_handle_start_incident_workflow] *)
Definition _handle_start_incident_workflow (task_id : string) (request : Dict) : M PyVal :=
  let failure_data := get_or request "failure_payload" (PDict []) in
  if negb (truthy failure_data)
  then raise (ValueError "Missing failure_payload in request")
  else
    match failure_data with
    | PDict d =>
        p <- make_failure_payload W d task_id ;;
        workflow_id <- _handle_failure_webhook W p ;;
        started_at <- now W ;;
        let id := match workflow_id with Some k => PStr k | None => PNone end in
        ret (PDict [("task_id", PStr task_id);
                    ("workflow_id", id);
                    ("status", PStr "started");
                    ("message", PStr ("Incident workflow " ++ py_str W id
                                      ++ " started successfully"));
                    ("incident_id", trace_id p);
                    ("started_at", PStr (isoformat W started_at))])
    | _ => raise (AttributeError failure_data "get")
    end.

(** [_handle_get_workflow_status] *)
Definition _handle_get_workflow_status (task_id : string) (request : Dict) : M PyVal :=
  let workflow_id := get_or request "workflow_id" PNone in
  if negb (truthy workflow_id)
  then raise (ValueError "Missing workflow_id in request")
  else
    s <- get_state ;;
    found <- match workflow_id with
             | PStr k => ret (lookup k s)
             | PList _ | PDict _ =>
                 raise (mkExn "TypeError"
                          ("unhashable type: '" ++ type_name workflow_id ++ "'"))
             | _ => ret None
             end ;;
    match found with
    | None =>
        ret (PDict [("task_id", PStr task_id);
                    ("workflow_id", workflow_id);
                    ("status", PStr "not_found");
                    ("message", PStr ("Workflow " ++ py_str W workflow_id
                                      ++ " not found"))])
    | Some w =>
        ret (PDict [("task_id", PStr task_id);
                    ("workflow_id", workflow_id);
                    ("status", PStr (status w));
                    ("incident_id", PStr (incident_id w));
                    ("created_at", PStr (isoformat W (created_at w)));
                    ("updated_at", PStr (isoformat W (updated_at w)));
                    ("analysis_result", analysis_result w);
                    ("remediation_action", remediation_action w);
                    ("approval_response", approval_response w);
                    ("execution_result", execution_result w);
                    ("error_message", error_message w)])
    end.

(** [_handle_get_active_workflows] *)
Definition _handle_get_active_workflows (task_id : string) (request : Dict) : M PyVal :=
  s <- get_state ;;
  let active :=
    map (fun kw : string * WorkflowState =>
           let (k, w) := kw in
           PDict [("workflow_id", PStr k);
                  ("incident_id", PStr (incident_id w));
                  ("status", PStr (status w));
                  ("created_at", PStr (isoformat W (created_at w)));
                  ("updated_at", PStr (isoformat W (updated_at w)));
                  ("test_title", test_title (failure_payload w))])
        (active_workflows s) in
  ret (PDict [("task_id", PStr task_id);
              ("status", PStr "success");
              ("active_workflows", PList active);
              ("total_count", len active)]).

(** [_handle_health_check] of the service; [webhook_server] is never set. *)
Definition _handle_service_health_check (task_id : string) (request : Dict) : M PyVal :=
  health_status <- health_check W ;;
  t <- now W ;;
  s <- get_state ;;
  ret (PDict [("task_id", PStr task_id);
              ("status", PStr (if health_status then "healthy" else "unhealthy"));
              ("uptime_seconds", total_seconds (t - start_time s));
              ("active_workflows", len (active_workflows s));
              ("discovered_agents",
               PDict [("rca_agents", len (rca_agents s));
                      ("remediation_agents", len (remediation_agents s));
                      ("approval_agents", len (approval_agents s))]);
              ("webhook_server_running", PBool false)]).

(** [execute] *)
Definition execute (task_id : string) (request : Dict) : M PyVal :=
  try_except
    (let action := get_or request "action" PNone in
     if eq_str action "start_incident_workflow" then
       _handle_start_incident_workflow task_id request
     else if eq_str action "update_workflow_status" then
       _handle_update_workflow_status task_id request
     else if eq_str action "get_workflow_status" then
       _handle_get_workflow_status task_id request
     else if eq_str action "cancel_workflow" then
       _handle_cancel_workflow task_id request
     else if eq_str action "get_active_workflows" then
       _handle_get_active_workflows task_id request
     else if eq_str action "health_check" then
       _handle_service_health_check task_id request
     else raise (ValueError ("Unknown action: " ++ py_str W action)))
    (fun e =>
       ret (PDict [("task_id", PStr task_id);
                   ("error", PStr (exn_msg e));
                   ("status", PStr "failed");
                   ("message", PStr ("Orchestration task failed: " ++ exn_msg e))])).
End Service.

(** ** Concrete worlds and states, for the examples below *)

Definition second : Z := 1000000.

Definition ex_py_str (v : PyVal) : string :=
  match v with PStr s => s | _ => "<value>" end.

Definition ex_uuid (n : nat) : string :=
  match n with
  | O => "0a1b2c3d-0000-4000-8000-000000000000"
  | S O => "1a1b2c3d-0000-4000-8000-000000000001"
  | _ => "2a1b2c3d-0000-4000-8000-000000000002"
  end.

(** A world whose clock advances by one second per reading and whose
    remote agents never answer in time. *)
Definition ex_world_timeout : World :=
  mkWorld (fun n => Z.of_nat n * second) ex_uuid
          (fun _ _ _ _ _ => Raised (mkExn "TimeoutError" ""))
          (fun _ => "20240101-000000") (fun _ => "2024-01-01T00:00:00")
          ex_py_str.

(** A world whose remote agents echo an empty dictionary. *)
Definition ex_world_ok : World :=
  mkWorld (fun n => Z.of_nat n * second) ex_uuid
          (fun _ _ _ _ _ => Returned (PDict []))
          (fun _ => "20240101-000000") (fun _ => "2024-01-01T00:00:00")
          ex_py_str.

Definition ex_services : Services :=
  mkServices "analyze_failure" "request_approval" "propose_remediation"
             "execute_remediation".

Definition ex_payload : FailurePayload :=
  mkFailurePayload (PStr "checkout test") (PStr "failed")
    (PDict [("message", PStr "timeout"); ("stack", PStr "");
            ("type", PStr "TimeoutError")])
    (PInt 2) (PStr "t-1") PNone PNone (PStr "2024-01-01T00:00:00").

Definition ex_workflow (id stage : string) (created updated : Z) : WorkflowState :=
  mkWorkflowState id ("inc-20240101-000000-" ++ substring 0 8 id) ex_payload
    stage created updated PNone PNone PNone PNone PNone PNone.

(** The agent after [initialize]: all agent lists discovered, a running
    webhook server, and the given A2A clients and workflows. *)
Definition ex_state (clients : list (string * A2AClient))
           (store : list (string * WorkflowState)) (reads : nat) : State :=
  mkState "orchestrator-1" 0 store
    ["rca-agent-localhost:8000"] ["remediation-agent-localhost:8001"]
    ["approval-agent-localhost:8002"]
    clients ex_services (Some (mkTCPSite None)) None [] [] reads 0 0 [].

Definition ex_clients : list (string * A2AClient) :=
  [("rca", mkA2AClient true false);
   ("approval", mkA2AClient true false);
   ("remediation", mkA2AClient true false)].


Definition event_types (s : State) : list string := map ev_type (events s).

(** * Properties *)

Unset Implicit Arguments.

(** ** Dictionaries *)

Section AssocListFacts.
Variable V : Type.
Implicit Types (d : list (string * V)) (k : string) (v : V).

Lemma dict_get_set_same k v d : dict_get k (dict_set k v d) = Some v.
Proof.
  induction d as [|[k' v'] r IH]; simpl.
  - now rewrite String.eqb_refl.
  - destruct (k' =? k)%string eqn:E; simpl; rewrite E; auto.
Qed.

Lemma dict_get_set_other k k' v d :
  k' <> k -> dict_get k' (dict_set k v d) = dict_get k' d.
Proof.
  intros Hne. induction d as [|[k0 v0] r IH]; simpl.
  - destruct (k =? k')%string eqn:E; auto.
    apply String.eqb_eq in E. congruence.
  - destruct (k0 =? k)%string eqn:E; simpl.
    + apply String.eqb_eq in E. subst k0.
      destruct (k =? k')%string eqn:E'; auto.
      apply String.eqb_eq in E'. congruence.
    + now rewrite IH.
Qed.

Lemma dict_keys_set_present k v w d :
  dict_get k d = Some w -> dict_keys (dict_set k v d) = dict_keys d.
Proof.
  unfold dict_keys. induction d as [|[k0 v0] r IH]; simpl; [discriminate|].
  destruct (k0 =? k)%string eqn:E; simpl; intros H; auto.
  now rewrite IH.
Qed.

Lemma dict_get_in_keys k d :
  dict_get k d <> None <-> In k (dict_keys d).
Proof.
  unfold dict_keys. induction d as [|[k0 v0] r IH]; simpl.
  - split; [congruence | tauto].
  - destruct (k0 =? k)%string eqn:E.
    + apply String.eqb_eq in E. split; [auto | congruence].
    + apply String.eqb_neq in E. rewrite IH. split; [auto | intros [H|H]; congruence || auto].
Qed.

Lemma dict_mem_true k d : dict_mem k d = true <-> dict_get k d <> None.
Proof.
  unfold dict_mem. destruct (dict_get k d); split; congruence.
Qed.

Lemma dict_mem_false k d : dict_mem k d = false <-> dict_get k d = None.
Proof.
  unfold dict_mem. destruct (dict_get k d); split; congruence.
Qed.
End AssocListFacts.

Lemma dict_keys_same_get (V V' : Type) (d : list (string * V))
      (d' : list (string * V')) k w :
  dict_keys d' = dict_keys d -> dict_get k d = Some w ->
  exists w', dict_get k d' = Some w'.
Proof.
  intros Hk Hg.
  assert (Hin : In k (dict_keys d)) by (apply dict_get_in_keys; congruence).
  rewrite <- Hk in Hin. apply dict_get_in_keys in Hin.
  destruct (dict_get k d') as [w'|]; [eauto | congruence].
Qed.

(** ** A program logic for the monad of handlers

    [hoare P m Q E]: from a state in [P], [m] ends in [Q] when it returns
    and in [E] when it raises. *)

Definition hoare {A} (P : State -> Prop) (m : M A)
           (Q : A -> State -> Prop) (E : Exn -> State -> Prop) : Prop :=
  forall s, P s ->
    match m s with
    | (Ok a, s') => Q a s'
    | (Raise e, s') => E e s'
    end.

Lemma hoare_ret {A} (P : State -> Prop) (a : A) (Q : A -> State -> Prop) E :
  (forall s, P s -> Q a s) -> hoare P (ret a) Q E.
Proof. intros H s Hs. simpl. auto. Qed.

Lemma hoare_raise {A} (P : State -> Prop) e (Q : A -> State -> Prop)
      (E : Exn -> State -> Prop) :
  (forall s, P s -> E e s) -> hoare P (raise e) Q E.
Proof. intros H s Hs. simpl. auto. Qed.

Lemma hoare_bind {A B} (P : State -> Prop) (m : M A) (k : A -> M B)
      (R : A -> State -> Prop) Q E :
  hoare P m R E -> (forall a, hoare (R a) (k a) Q E) -> hoare P (bind m k) Q E.
Proof.
  intros Hm Hk s Hs. unfold bind. specialize (Hm s Hs).
  destruct (m s) as [[a|e] s']; auto. now apply Hk.
Qed.

Lemma hoare_try {A} (P : State -> Prop) (m : M A) h Q E' E :
  hoare P m Q E' -> (forall e, hoare (E' e) (h e) Q E) ->
  hoare P (try_except m h) Q E.
Proof.
  intros Hm Hh s Hs. unfold try_except. specialize (Hm s Hs).
  destruct (m s) as [[a|e] s']; auto. now apply Hh.
Qed.

Lemma hoare_conseq {A} (P P' : State -> Prop) (m : M A)
      (Q Q' : A -> State -> Prop) (E E' : Exn -> State -> Prop) :
  hoare P' m Q' E' ->
  (forall s, P s -> P' s) ->
  (forall a s, Q' a s -> Q a s) ->
  (forall e s, E' e s -> E e s) ->
  hoare P m Q E.
Proof.
  intros H HP HQ HE s Hs. specialize (H s (HP s Hs)).
  destruct (m s) as [[a|e] s']; auto.
Qed.

Lemma hoare_pre {A} (P P' : State -> Prop) (m : M A) Q E :
  hoare P' m Q E -> (forall s, P s -> P' s) -> hoare P m Q E.
Proof. intros H HP. eapply hoare_conseq; eauto. Qed.

Lemma hoare_false {A} (m : M A) Q E : hoare (fun _ => False) m Q E.
Proof. intros s []. Qed.

(** A pure fact carried by a precondition. *)
Lemma hoare_pure {A} (phi : Prop) (P : State -> Prop) (m : M A) Q E :
  (phi -> hoare P m Q E) -> hoare (fun s => phi /\ P s) m Q E.
Proof. intros H s [Hphi Hs]. now apply H. Qed.

(** Reading the whole state: the continuation may use what the
    precondition says of it. *)
Lemma hoare_get_state {B} (P : State -> Prop) (k : State -> M B) Q E :
  (forall s0, P s0 -> hoare (fun s => s = s0) (k s0) Q E) ->
  hoare P (bind get_state k) Q E.
Proof.
  intros H s Hs. unfold bind, get_state. exact (H s Hs s eq_refl).
Qed.

Lemma hoare_lift_ok {A} (P : State -> Prop) (a : A) (Q : A -> State -> Prop) E :
  (forall s, P s -> Q a s) -> hoare P (lift (Ok a)) Q E.
Proof. intros H s Hs. simpl. auto. Qed.

Lemma hoare_lift {A} (P : State -> Prop) (r : Res A) (E : Exn -> State -> Prop) :
  (forall e s, P s -> E e s) -> hoare P (lift r) (fun _ => P) E.
Proof. intros H s Hs. unfold lift. destruct r; auto. Qed.

Lemma hoare_for_each {A} (I : State -> Prop) (l : list A) (body : A -> M unit) E :
  (forall x, In x l -> hoare I (body x) (fun _ => I) E) ->
  hoare I (for_each l body) (fun _ => I) E.
Proof.
  induction l as [|x r IH]; intros H; simpl.
  - now apply hoare_ret.
  - eapply hoare_bind; [apply H; now left|].
    intros a. apply IH. intros y Hy. apply H. now right.
Qed.

(** [m] relates every state to the state it ends in, whether it returns
    or raises. *)
Definition sat {A} (R : State -> State -> Prop) (m : M A) : Prop :=
  forall s, R s (exec m s).

Lemma sat_hoare {A} (R : State -> State -> Prop) (m : M A)
      (I : State -> Prop) (E : Exn -> State -> Prop) :
  sat R m ->
  (forall s s', I s -> R s s' -> I s') ->
  (forall e s, I s -> E e s) ->
  hoare I m (fun _ => I) E.
Proof.
  intros Hm Hcl HE s Hs. specialize (Hm s). unfold exec in Hm.
  destruct (m s) as [[a|e] s']; simpl in Hm; eauto.
Qed.

Lemma sat_intro {A} (R : State -> State -> Prop) (m : M A) :
  (forall s, R s s) ->
  (forall s0, hoare (R s0) m (fun _ => R s0) (fun _ => R s0)) ->
  sat R m.
Proof.
  intros Hrefl H s. specialize (H s s (Hrefl s)). unfold exec.
  destruct (m s) as [[a|e] s']; auto.
Qed.

Lemma sat_weaken {A} (R R' : State -> State -> Prop) (m : M A) :
  sat R m -> (forall s s', R s s' -> R' s s') -> sat R' m.
Proof. intros H HR s. auto. Qed.

(** A triple read at one state, in terms of [result] and [exec]. *)
Lemma hoare_run {A} (P : State -> Prop) (m : M A) Q E s :
  hoare P m Q E -> P s ->
  match result m s with
  | Ok a => Q a (exec m s)
  | Raise e => E e (exec m s)
  end.
Proof.
  intros H Hs. specialize (H s Hs). unfold result, exec.
  destruct (m s) as [[a|e] s']; assumption.
Qed.

Lemma hoare_of_run {A} (P : State -> Prop) (m : M A)
      (Q : A -> State -> Prop) (E : Exn -> State -> Prop) :
  (forall s, P s ->
     match result m s with
     | Ok a => Q a (exec m s)
     | Raise e => E e (exec m s)
     end) ->
  hoare P m Q E.
Proof.
  intros H s Hs. specialize (H s Hs). unfold result, exec in H.
  destruct (m s) as [[a|e] s']; assumption.
Qed.

(** ** What a run may change *)

(** The kind of an audit event: its type and, when its data carry one,
    the [stage] they name. *)
Definition Kind := (string * option string)%type.

Definition ev_kind (e : Event) : Kind :=
  (ev_type e,
   match ev_data e with
   | PDict d => match dict_get "stage" d with
                | Some (PStr x) => Some x
                | _ => None
                end
   | _ => None
   end).

Definition kind_eqb (a b : Kind) : bool :=
  (fst a =? fst b)%string &&
  match snd a, snd b with
  | Some x, Some y => (x =? y)%string
  | None, None => true
  | _, _ => false
  end.

Lemma kind_eqb_eq a b : kind_eqb a b = true <-> a = b.
Proof.
  destruct a as [a1 [a2|]], b as [b1 [b2|]]; unfold kind_eqb; simpl;
    rewrite andb_true_iff, ?String.eqb_eq; split;
    try (intros [-> H]; try apply String.eqb_eq in H; congruence);
    intros H; inversion H; subst; split; auto; apply String.eqb_refl.
Qed.

Definition kind_mem (k : Kind) (l : list Kind) : bool := existsb (kind_eqb k) l.

Definition kinds_subset (l l' : list Kind) : bool :=
  forallb (fun k => kind_mem k l') l.

Lemma forallb_kind_mem (P : Kind -> bool) l k :
  forallb P l = true -> kind_mem k l = true -> P k = true.
Proof.
  intros HP Hk. unfold kind_mem in Hk. apply existsb_exists in Hk.
  destruct Hk as [x [Hin Hx]]. apply kind_eqb_eq in Hx. subst x.
  rewrite forallb_forall in HP. auto.
Qed.

Lemma forallb_kinds_subset (P : Kind -> bool) l l' :
  forallb P l' = true -> kinds_subset l l' = true -> forallb P l = true.
Proof.
  intros HP Hs. apply forallb_forall. intros x Hx.
  unfold kinds_subset in Hs. rewrite forallb_forall in Hs.
  eapply forallb_kind_mem; eauto.
Qed.

(** The configuration of the agent: no handler assigns it. *)
Definition config (s : State) :=
  (rca_agents s, remediation_agents s, approval_agents s, a2a_clients s,
   services s, server s).

(** The fields of a workflow record that are set when it is created. *)
Definition identity_of (w : WorkflowState) :=
  (workflow_id w, incident_id w, failure_payload w, created_at w).

(** A run that only reads the store: it may read the clock, call remote
    agents and write audit events of the kinds in [P]. *)
Record read_rel (P : Kind -> bool) (s s' : State) : Prop := mk_read_rel {
  rr_store : active_workflows s' = active_workflows s;
  rr_config : config s' = config s;
  rr_trans : transitions s' = transitions s;
  rr_events : exists l, events s' = (events s ++ l)%list /\
                        Forall (fun e => P (ev_kind e) = true) l;
  rr_reads : (clock_reads s <= clock_reads s')%nat
}.

(** A run of handlers: it keeps the keys of the store and the
    configuration, changes only the workflows in [touch], writes audit
    events of the kinds in [P] only, never assigns the identity of a
    record, and whenever it changes the stage or the time stamp of a
    record, the new [updated_at] is a clock reading taken during the run. *)
Record step_rel (W : World) (touch : string -> Prop) (P : Kind -> bool)
       (s s' : State) : Prop := mk_step_rel {
  sr_config : config s' = config s;
  sr_keys : dict_keys (active_workflows s') = dict_keys (active_workflows s);
  sr_frame : forall k, ~ touch k -> lookup k s' = lookup k s;
  sr_trans : exists l, transitions s' = (transitions s ++ l)%list /\
                       Forall (fun t : Transition => touch (fst (fst t))) l;
  sr_events : exists l, events s' = (events s ++ l)%list /\
                        Forall (fun e => P (ev_kind e) = true) l;
  sr_reads : (clock_reads s <= clock_reads s')%nat;
  sr_time : forall k w w', lookup k s = Some w -> lookup k s' = Some w' ->
              identity_of w' = identity_of w /\
              ((status w' = status w /\ updated_at w' = updated_at w) \/
               exists n, (clock_reads s <= n < clock_reads s')%nat /\
                         updated_at w' = clock W n)
}.

Lemma read_rel_refl P s : read_rel P s s.
Proof.
  constructor; auto; exists []; rewrite app_nil_r; auto.
Qed.

Lemma read_rel_trans P s1 s2 s3 :
  read_rel P s1 s2 -> read_rel P s2 s3 -> read_rel P s1 s3.
Proof.
  intros [A1 B1 C1 [l1 [D1 F1]] G1] [A2 B2 C2 [l2 [D2 F2]] G2].
  constructor; try congruence; try lia.
  exists (l1 ++ l2)%list. split.
  - rewrite D2, D1. now rewrite app_assoc.
  - apply Forall_app. auto.
Qed.

Lemma step_rel_refl W touch P s : step_rel W touch P s s.
Proof.
  constructor; auto; try (exists []; rewrite app_nil_r; auto).
  intros k w w' H1 H2. rewrite H1 in H2. inversion H2; subst. auto.
Qed.

Lemma step_rel_trans W touch P s1 s2 s3 :
  step_rel W touch P s1 s2 -> step_rel W touch P s2 s3 ->
  step_rel W touch P s1 s3.
Proof.
  intros [A1 B1 C1 [l1 [D1 F1]] [m1 [G1 H1]] I1 J1]
         [A2 B2 C2 [l2 [D2 F2]] [m2 [G2 H2]] I2 J2].
  constructor; try congruence; try lia.
  - intros k Hk. rewrite C2, C1; auto.
  - exists (l1 ++ l2)%list. split.
    + rewrite D2, D1. now rewrite app_assoc.
    + apply Forall_app. auto.
  - exists (m1 ++ m2)%list. split.
    + rewrite G2, G1. now rewrite app_assoc.
    + apply Forall_app. auto.
  - intros k w w'' Hw Hw''.
    destruct (@dict_keys_same_get _ _ (active_workflows s1) (active_workflows s2)
                k w B1 Hw) as [w' Hw'].
    destruct (J1 k w w' Hw Hw') as [Ha Hb].
    destruct (J2 k w' w'' Hw' Hw'') as [Hc Hd].
    split; [congruence|].
    destruct Hd as [[Hd1 Hd2]|[n [Hn Hd]]].
    + destruct Hb as [[Hb1 Hb2]|[n [Hn Hb]]].
      * left. split; congruence.
      * right. exists n. split; [lia | congruence].
    + right. exists n. split; [lia | congruence].
Qed.

Lemma read_step_rel W touch P s s' : read_rel P s s' -> step_rel W touch P s s'.
Proof.
  intros [A B C D G]. unfold lookup.
  constructor.
  - exact B.
  - now rewrite A.
  - intros k _. unfold lookup. now rewrite A.
  - exists []. rewrite app_nil_r. auto.
  - exact D.
  - exact G.
  - unfold lookup. intros k w w' H1 H2. rewrite A, H1 in H2.
    inversion H2; subst. auto.
Qed.

Lemma step_rel_weaken W (touch touch' : string -> Prop) (P P' : Kind -> bool) s s' :
  (forall k, touch k -> touch' k) ->
  (forall k, P k = true -> P' k = true) ->
  step_rel W touch P s s' -> step_rel W touch' P' s s'.
Proof.
  intros Ht HP [A B C [l [D F]] [m [G H]] I J].
  constructor; auto.
  - exists l. split; auto. eapply Forall_impl; [|exact F]. simpl. auto.
  - exists m. split; auto. eapply Forall_impl; [|exact H]. simpl. auto.
Qed.

(** [keeps I m]: [m] keeps the assertion [I], whether it returns or
    raises. *)
Definition keeps {A} (I : State -> Prop) (m : M A) : Prop :=
  hoare I m (fun _ => I) (fun _ => I).

Lemma keeps_ret {A} I (a : A) : keeps I (ret a).
Proof. apply hoare_ret. auto. Qed.

Lemma keeps_raise {A} I e : keeps I (@raise A e).
Proof. apply hoare_raise. auto. Qed.

Lemma keeps_lift {A} I (r : Res A) : keeps I (lift r).
Proof. apply hoare_lift. auto. Qed.

Lemma keeps_get_state I : keeps I get_state.
Proof. intros s Hs. simpl. auto. Qed.

Lemma keeps_bind {A B} I (m : M A) (k : A -> M B) :
  keeps I m -> (forall a, keeps I (k a)) -> keeps I (bind m k).
Proof. intros Hm Hk. eapply hoare_bind; eauto. Qed.

Lemma keeps_try {A} I (m : M A) h :
  keeps I m -> (forall e, keeps I (h e)) -> keeps I (try_except m h).
Proof. intros Hm Hh. eapply hoare_try; eauto. Qed.

Lemma keeps_for_each {A} I (l : list A) (body : A -> M unit) :
  (forall x, keeps I (body x)) -> keeps I (for_each l body).
Proof.
  intros H. induction l as [|x r IH]; simpl.
  - apply keeps_ret.
  - apply keeps_bind; auto.
Qed.

Lemma keeps_sat {A} (R : State -> State -> Prop) (m : M A) I :
  sat R m -> (forall s s', I s -> R s s' -> I s') -> keeps I m.
Proof. intros Hm Hcl. eapply sat_hoare; eauto. Qed.

Lemma sat_keeps {A} (R : State -> State -> Prop) (m : M A) :
  (forall s, R s s) -> (forall s0, keeps (R s0) m) -> sat R m.
Proof. intros Hrefl H. apply sat_intro; auto. Qed.

Lemma keeps_hoare {A} I (m : M A) (E : Exn -> State -> Prop) :
  keeps I m -> (forall e s, I s -> E e s) -> hoare I m (fun _ => I) E.
Proof. intros H HE. eapply hoare_conseq; eauto. Qed.

(** ** The primitive effects *)

Lemma sat_same {A} (R : State -> State -> Prop) (m : M A) :
  (forall s, R s s) -> (forall s, exec m s = s) -> sat R m.
Proof. intros Hr He s. rewrite He. apply Hr. Qed.

Lemma dict_set_set (V : Type) k (v v' : V) d :
  dict_set k v (dict_set k v' d) = dict_set k v d.
Proof.
  induction d as [|[k0 v0] r IH]; simpl.
  - now rewrite String.eqb_refl.
  - destruct (k0 =? k)%string eqn:E; simpl; rewrite E; auto. now rewrite IH.
Qed.

Section PrimitiveFacts.
Variable W : World.
Variable P : Kind -> bool.

Lemma sat_now : sat (read_rel P) (now W).
Proof.
  intros s. unfold exec, now. simpl. constructor; simpl; auto.
  exists []. rewrite app_nil_r. auto.
Qed.

Lemma sat_new_uuid : sat (read_rel P) (new_uuid W).
Proof.
  intros s. unfold exec, new_uuid. simpl. constructor; simpl; auto.
  exists []. rewrite app_nil_r. auto.
Qed.

Lemma sat_remote service skill payload timeout :
  sat (read_rel P) (remote W service skill payload timeout).
Proof.
  intros s. unfold exec, remote. simpl. constructor; simpl; auto.
  exists []. rewrite app_nil_r. auto.
Qed.

Lemma sat_create_cleanup_task k : sat (read_rel P) (create_cleanup_task k).
Proof.
  intros s. unfold exec, create_cleanup_task, modify. simpl.
  constructor; simpl; auto.
  exists []. rewrite app_nil_r. auto.
Qed.

Lemma sat_set_last_heartbeat t : sat (read_rel P) (modify (set_last_heartbeat t)).
Proof.
  intros s. unfold exec, modify. simpl. constructor; simpl; auto.
  exists []. rewrite app_nil_r. auto.
Qed.

Lemma sat_log ty d :
  P (ev_kind (mkEvent 0 ty d)) = true ->
  sat (read_rel P) (_log_mcp_event W ty d).
Proof.
  intros HP s. unfold exec, _log_mcp_event, bind, now, modify. simpl.
  constructor; simpl; auto.
  eexists. split; [reflexivity|]. constructor; auto.
Qed.

Lemma sat_contains k : sat (read_rel P) (contains k).
Proof. apply sat_same; [apply read_rel_refl | reflexivity]. Qed.

Lemma sat_obj k : sat (read_rel P) (obj k).
Proof.
  apply sat_same; [apply read_rel_refl |].
  intros s. unfold exec, obj. now destruct (lookup k s).
Qed.

Lemma sat_assign k f :
  (forall w, identity_of (f w) = identity_of w /\ status (f w) = status w /\
             updated_at (f w) = updated_at w) ->
  sat (step_rel W (eq k) P) (assign k f).
Proof.
  intros Hf s. unfold exec, assign.
  destruct (lookup k s) as [w|] eqn:Hw; simpl; [|apply step_rel_refl].
  unfold lookup in *. constructor; simpl; auto.
  - eapply dict_keys_set_present; eauto.
  - intros k' Hk'. unfold lookup. simpl. apply dict_get_set_other. congruence.
  - exists []. rewrite app_nil_r. auto.
  - exists []. rewrite app_nil_r. auto.
  - unfold lookup. simpl. intros k' w1 w2 H1 H2.
    destruct (String.string_dec k' k) as [->|Hne].
    + rewrite dict_get_set_same in H2. rewrite Hw in H1.
      inversion H1; inversion H2; subst.
      destruct (Hf w1) as [Ha [Hb Hc]]. auto.
    + rewrite dict_get_set_other in H2 by auto.
      rewrite H1 in H2. inversion H2; subst. auto.
Qed.

Lemma sat_touch_updated_at k : sat (step_rel W (eq k) P) (touch_updated_at W k).
Proof.
  intros s. unfold exec, touch_updated_at, bind, now, assign, lookup. simpl.
  destruct (dict_get k (active_workflows s)) as [w|] eqn:Hw; simpl.
  - constructor; simpl; auto.
    + eapply dict_keys_set_present; eauto.
    + intros k' Hk'. unfold lookup. simpl. apply dict_get_set_other. congruence.
    + exists []. rewrite app_nil_r. auto.
    + exists []. rewrite app_nil_r. auto.
    + unfold lookup. simpl. intros k' w1 w2 H1 H2.
      destruct (String.string_dec k' k) as [->|Hne].
      * rewrite dict_get_set_same in H2. rewrite Hw in H1.
        inversion H1; inversion H2; subst. split; auto.
        right. exists (clock_reads s). simpl. split; [lia | reflexivity].
      * rewrite dict_get_set_other in H2 by auto.
        rewrite H1 in H2. inversion H2; subst. auto.
  - apply read_step_rel. constructor; simpl; auto.
    exists []. rewrite app_nil_r. auto.
Qed.

Lemma sat_enter_stage k x : sat (step_rel W (eq k) P) (enter_stage W k x).
Proof.
  intros s.
  unfold exec, enter_stage, touch_updated_at, bind, set_status, now, assign, lookup.
  destruct (dict_get k (active_workflows s)) as [w|] eqn:Hw; simpl.
  - rewrite dict_get_set_same. simpl. rewrite dict_set_set.
    constructor; simpl; auto.
    + eapply dict_keys_set_present; eauto.
    + intros k' Hk'. unfold lookup. simpl. apply dict_get_set_other. congruence.
    + eexists. split; [reflexivity|]. constructor; simpl; auto.
    + exists []. rewrite app_nil_r. auto.
    + unfold lookup. simpl. intros k' w1 w2 H1 H2.
      destruct (String.string_dec k' k) as [->|Hne].
      * rewrite dict_get_set_same in H2. rewrite Hw in H1.
        inversion H1; inversion H2; subst. split; auto.
        right. exists (clock_reads s). simpl. split; [lia | reflexivity].
      * rewrite dict_get_set_other in H2 by auto.
        rewrite H1 in H2. inversion H2; subst. auto.
  - rewrite Hw. simpl. apply read_step_rel. constructor; simpl; auto.
    exists []. rewrite app_nil_r. auto.
Qed.

(** How a run that satisfies one of the relations extends a run. *)
Lemma keeps_step {A} (m : M A) (touch touch' : string -> Prop) s0 :
  sat (step_rel W touch P) m ->
  (forall k, touch k -> touch' k) ->
  keeps (step_rel W touch' P s0) m.
Proof.
  intros Hm Ht. eapply keeps_sat; [exact Hm|].
  intros s s' H1 H2. eapply step_rel_trans; [exact H1|].
  eapply step_rel_weaken; [exact Ht | | exact H2]. auto.
Qed.

Lemma keeps_read {A} (m : M A) (touch : string -> Prop) s0 :
  sat (read_rel P) m -> keeps (step_rel W touch P s0) m.
Proof.
  intros Hm. eapply keeps_sat; [exact Hm|].
  intros s s' H1 H2. eapply step_rel_trans; [exact H1|].
  now apply read_step_rel.
Qed.

Lemma keeps_read_read {A} (m : M A) s0 :
  sat (read_rel P) m -> keeps (read_rel P s0) m.
Proof.
  intros Hm. eapply keeps_sat; [exact Hm|].
  intros s s' H1 H2. eapply read_rel_trans; eauto.
Qed.
End PrimitiveFacts.

(** ** The handlers of the pipeline *)

(** The kinds of audit events each handler may write. *)
Definition kinds_a2a : list Kind := [("a2a_call_failed", None)].
Definition kinds_fail : list Kind := [("workflow_failed", None)].
Definition kinds_complete : list Kind := [("workflow_completed", None)].
Definition kinds_handle_execution : list Kind :=
  ("execution_complete", None) :: (kinds_complete ++ kinds_fail)%list.
Definition kinds_trigger_execution : list Kind :=
  ("remediation_execution_triggered", None) :: ("a2a_call_failed", None)
  :: ("remediation_a2a_failed_mock_fallback", Some "execute")
  :: kinds_handle_execution.
Definition kinds_handle_approval : list Kind :=
  ("approval_received", None) :: kinds_trigger_execution.
Definition kinds_trigger_approval : list Kind :=
  ("approval_request_triggered", None) :: ("a2a_call_failed", None)
  :: ("approval_a2a_failed_mock_fallback", None) :: kinds_handle_approval.
Definition kinds_handle_proposal : list Kind :=
  ("remediation_proposed", None) :: kinds_trigger_approval.
Definition kinds_trigger_proposal : list Kind :=
  ("remediation_proposal_triggered", None) :: ("a2a_call_failed", None)
  :: ("remediation_a2a_failed_mock_fallback", Some "propose")
  :: kinds_handle_proposal.
Definition kinds_handle_analysis : list Kind :=
  ("analysis_complete", None) :: kinds_trigger_proposal.
Definition kinds_trigger_rca : list Kind :=
  ("rca_analysis_triggered", None) :: ("a2a_call_failed", None)
  :: ("rca_a2a_failed_mock_fallback", None) :: kinds_handle_analysis.

Ltac kinds_side HP :=
  first [ eapply forallb_kind_mem; [exact HP | reflexivity]
        | eapply forallb_kinds_subset; [exact HP | reflexivity] ].

(** Decomposition of a [keeps] goal along the structure of the code. *)
Ltac keeps_struct :=
  repeat match goal with
  | |- keeps _ (bind _ _) => apply keeps_bind; [|intro]
  | |- keeps _ (try_except _ _) => apply keeps_try; [|intro]
  | |- keeps _ (ret _) => apply keeps_ret
  | |- keeps _ (raise _) => apply keeps_raise
  | |- keeps _ (lift _) => apply keeps_lift
  | |- keeps _ get_state => apply keeps_get_state
  | |- keeps _ (for_each _ _) => apply keeps_for_each; intro
  | |- keeps _ (if ?c then _ else _) => destruct c
  | |- keeps _ (match ?x with _ => _ end) => destruct x
  | |- keeps _ (let _ := _ in _) => cbv zeta
  end.

Ltac keeps_prim HP :=
  match goal with
  | |- keeps (step_rel _ _ _ _) ?m =>
      first
        [ apply keeps_read;
          first [ apply sat_now | apply sat_new_uuid | apply sat_remote
                | apply sat_create_cleanup_task | apply sat_contains
                | apply sat_obj | apply sat_set_last_heartbeat
                | apply sat_log; kinds_side HP ]
        | eapply keeps_step;
          [ first [ apply sat_touch_updated_at | apply sat_enter_stage
                  | apply sat_assign; intro; simpl; auto ]
          | auto ] ]
  | |- keeps (read_rel _ _) ?m =>
      apply keeps_read_read;
      first [ apply sat_now | apply sat_new_uuid | apply sat_remote
            | apply sat_create_cleanup_task | apply sat_contains
            | apply sat_obj | apply sat_set_last_heartbeat
            | apply sat_log; kinds_side HP ]
  end.

Ltac keeps_call HP lem :=
  first [ eapply keeps_step; [ apply lem; kinds_side HP | auto ]
        | apply keeps_read; apply lem; kinds_side HP ].

Section HandlerFacts.
Variable W : World.
Variable P : Kind -> bool.

Lemma sat_a2a_call service skill payload timeout corr :
  forallb P kinds_a2a = true ->
  sat (read_rel P) (_a2a_call W service skill payload timeout corr).
Proof.
  intros HP. apply sat_keeps; [apply read_rel_refl|]. intros s0.
  unfold _a2a_call. keeps_struct; keeps_prim HP.
Qed.

Lemma sat_fail_workflow k msg :
  forallb P kinds_fail = true ->
  sat (step_rel W (eq k) P) (_fail_workflow W k msg).
Proof.
  intros HP. apply sat_keeps; [apply step_rel_refl|]. intros s0.
  unfold _fail_workflow. keeps_struct; keeps_prim HP.
Qed.

Lemma sat_complete_workflow k r :
  forallb P kinds_complete = true ->
  sat (step_rel W (eq k) P) (_complete_workflow W k r).
Proof.
  intros HP. apply sat_keeps; [apply step_rel_refl|]. intros s0.
  unfold _complete_workflow, complete_workflow. keeps_struct; keeps_prim HP.
Qed.

Lemma sat_handle_execution_complete k r :
  forallb P kinds_handle_execution = true ->
  sat (step_rel W (eq k) P) (_handle_execution_complete W k r).
Proof.
  intros HP. apply sat_keeps; [apply step_rel_refl|]. intros s0.
  unfold _handle_execution_complete. keeps_struct; try keeps_prim HP.
  - keeps_call HP sat_complete_workflow.
  - keeps_call HP sat_fail_workflow.
Qed.

Lemma sat_trigger_remediation_execution k :
  forallb P kinds_trigger_execution = true ->
  sat (step_rel W (eq k) P) (_trigger_remediation_execution W k).
Proof.
  intros HP. apply sat_keeps; [apply step_rel_refl|]. intros s0.
  unfold _trigger_remediation_execution. keeps_struct; try keeps_prim HP;
    first [ keeps_call HP sat_fail_workflow
          | keeps_call HP sat_a2a_call
          | keeps_call HP sat_handle_execution_complete ].
Qed.

Lemma sat_handle_approval_received k a :
  forallb P kinds_handle_approval = true ->
  sat (step_rel W (eq k) P) (_handle_approval_received W k a).
Proof.
  intros HP. apply sat_keeps; [apply step_rel_refl|]. intros s0.
  unfold _handle_approval_received. keeps_struct; try keeps_prim HP;
    first [ keeps_call HP sat_fail_workflow
          | keeps_call HP sat_complete_workflow
          | keeps_call HP sat_trigger_remediation_execution ].
Qed.

Lemma sat_trigger_approval_request k :
  forallb P kinds_trigger_approval = true ->
  sat (step_rel W (eq k) P) (_trigger_approval_request W k).
Proof.
  intros HP. apply sat_keeps; [apply step_rel_refl|]. intros s0.
  unfold _trigger_approval_request. keeps_struct; try keeps_prim HP;
    first [ keeps_call HP sat_fail_workflow
          | keeps_call HP sat_a2a_call
          | keeps_call HP sat_handle_approval_received ].
Qed.

Lemma sat_handle_remediation_proposed k a :
  forallb P kinds_handle_proposal = true ->
  sat (step_rel W (eq k) P) (_handle_remediation_proposed W k a).
Proof.
  intros HP. apply sat_keeps; [apply step_rel_refl|]. intros s0.
  unfold _handle_remediation_proposed. keeps_struct; try keeps_prim HP;
    first [ keeps_call HP sat_fail_workflow
          | keeps_call HP sat_trigger_approval_request ].
Qed.

Lemma sat_trigger_remediation_proposal k :
  forallb P kinds_trigger_proposal = true ->
  sat (step_rel W (eq k) P) (_trigger_remediation_proposal W k).
Proof.
  intros HP. apply sat_keeps; [apply step_rel_refl|]. intros s0.
  unfold _trigger_remediation_proposal. keeps_struct; try keeps_prim HP;
    first [ keeps_call HP sat_fail_workflow
          | keeps_call HP sat_a2a_call
          | keeps_call HP sat_handle_remediation_proposed ].
Qed.

Lemma sat_handle_analysis_complete k a :
  forallb P kinds_handle_analysis = true ->
  sat (step_rel W (eq k) P) (_handle_analysis_complete W k a).
Proof.
  intros HP. apply sat_keeps; [apply step_rel_refl|]. intros s0.
  unfold _handle_analysis_complete. keeps_struct; try keeps_prim HP;
    first [ keeps_call HP sat_fail_workflow
          | keeps_call HP sat_trigger_remediation_proposal ].
Qed.

Lemma sat_trigger_rca_analysis k :
  forallb P kinds_trigger_rca = true ->
  sat (step_rel W (eq k) P) (_trigger_rca_analysis W k).
Proof.
  intros HP. apply sat_keeps; [apply step_rel_refl|]. intros s0.
  unfold _trigger_rca_analysis. keeps_struct; try keeps_prim HP;
    first [ keeps_call HP sat_fail_workflow
          | keeps_call HP sat_a2a_call
          | keeps_call HP sat_handle_analysis_complete ].
Qed.
End HandlerFacts.

(** ** What [_fail_workflow] does *)

Definition fail_record (W : World) (s : State) (msg : PyVal) (w : WorkflowState)
  : WorkflowState :=
  with_error_message msg
    (with_updated_at (clock W (clock_reads s)) (with_status "failed" w)).

Definition fail_event (W : World) (s : State) (k : string) (msg : PyVal)
           (w : WorkflowState) : Event :=
  mkEvent (clock W (S (clock_reads s))) "workflow_failed"
    (PDict [("workflow_id", PStr k);
            ("incident_id", PStr (incident_id w));
            ("error_message", msg);
            ("duration_seconds",
             total_seconds (clock W (clock_reads s) - created_at w))]).

Definition fail_state (W : World) (k : string) (msg : PyVal)
           (w : WorkflowState) (s : State) : State :=
  mkState (agent_id s) (start_time s)
    (dict_set k (fail_record W s msg w) (active_workflows s))
    (rca_agents s) (remediation_agents s) (approval_agents s)
    (a2a_clients s) (services s) (server s) (last_heartbeat s)
    (events s ++ [fail_event W s k msg w])%list
    (cleanup_tasks s ++ [k])%list
    (S (S (clock_reads s))) (uuid_reads s) (a2a_calls s)
    (transitions s ++ [(k, status w, "failed")])%list.

Lemma fail_workflow_present W k msg s w :
  lookup k s = Some w ->
  _fail_workflow W k msg s = (Ok tt, fail_state W k msg w s).
Proof.
  intros Hw. destruct s.
  unfold _fail_workflow, try_except, bind, contains, enter_stage,
    touch_updated_at, bind, set_status, now, assign, obj, _log_mcp_event,
    bind, now, modify, create_cleanup_task, modify, ret, dict_mem, lookup,
    fail_state, fail_record, fail_event in *.
  simpl in *. rewrite Hw. simpl. rewrite Hw. simpl.
  repeat (progress (rewrite ?dict_set_set, ?dict_get_set_same; simpl)).
  reflexivity.
Qed.

Lemma fail_workflow_absent W k msg s :
  lookup k s = None -> _fail_workflow W k msg s = (Ok tt, s).
Proof.
  intros Hw.
  unfold _fail_workflow, try_except, bind, contains, dict_mem, lookup in *.
  now rewrite Hw.
Qed.

Lemma lookup_fail_state_same W k msg w s :
  lookup k (fail_state W k msg w s) = Some (fail_record W s msg w).
Proof. unfold lookup, fail_state. simpl. apply dict_get_set_same. Qed.

Lemma lookup_fail_state_other W k k' msg w s :
  k' <> k -> lookup k' (fail_state W k msg w s) = lookup k' s.
Proof. intros H. unfold lookup, fail_state. simpl. now apply dict_get_set_other. Qed.

(** ** C2: a collaborator that is not configured *)






(** C2, as stated, fails: with discovered agents but no A2A client for the
    analysis service, the call raises "No A2A client available" and the
    mock analysis is substituted; the workflow is not Failed. *)
Definition ex_state_no_client : State :=
  ex_state [] [("w1", ex_workflow "w1" "started" 0 0)] 3.


(** ** C10: stage updates for a workflow that is not in the store *)

Section UnknownWorkflow.
Variable W : World.
Variables (s : State) (k : string).
Hypothesis Habsent : lookup k s = None.

Lemma handle_analysis_complete_absent a :
  _handle_analysis_complete W k a s = (Ok tt, s).
Proof.
  unfold _handle_analysis_complete, try_except, bind, contains, dict_mem, lookup in *.
  now rewrite Habsent.
Qed.

Lemma handle_remediation_proposed_absent a :
  _handle_remediation_proposed W k a s = (Ok tt, s).
Proof.
  unfold _handle_remediation_proposed, try_except, bind, contains, dict_mem, lookup in *.
  now rewrite Habsent.
Qed.

Lemma handle_approval_received_absent a :
  _handle_approval_received W k a s = (Ok tt, s).
Proof.
  unfold _handle_approval_received, try_except, bind, contains, dict_mem, lookup in *.
  now rewrite Habsent.
Qed.

Lemma handle_execution_complete_absent a :
  _handle_execution_complete W k a s = (Ok tt, s).
Proof.
  unfold _handle_execution_complete, try_except, bind, contains, dict_mem, lookup in *.
  now rewrite Habsent.
Qed.
End UnknownWorkflow.

Definition stage_updates : list string :=
  ["analysis_complete"; "remediation_proposed"; "approval_received";
   "execution_complete"; "failed"].

#[local] Arguments String.append : simpl never.

(** C10.  For a workflow id that is not in the store, each stage-update
    handler returns normally and leaves the whole state as it was, and the
    [update_workflow_status] action answers with status "updated".  The
    request carries a non-empty string id, one of the five stage updates and,
    as its schema says, a JSON object as [result_data]. *)
Theorem update_of_unknown_workflow_reports_updated
        (W : World) (s : State) (k task_id upd : string) (request : Dict) :
  lookup k s = None ->
  k <> "" ->
  In upd stage_updates ->
  dict_get "action" request = Some (PStr "update_workflow_status") ->
  dict_get "workflow_id" request = Some (PStr k) ->
  dict_get "status" request = Some (PStr upd) ->
  is_dict (get_or request "result_data" (PDict [])) = true ->
  (forall data, _handle_analysis_complete W k data s = (Ok tt, s)) /\
  (forall data, _handle_remediation_proposed W k data s = (Ok tt, s)) /\
  (forall data, _handle_approval_received W k data s = (Ok tt, s)) /\
  (forall data, _handle_execution_complete W k data s = (Ok tt, s)) /\
  (forall msg, _fail_workflow W k msg s = (Ok tt, s)) /\
  exec (execute W task_id request) s = s /\
  exists message,
    result (execute W task_id request) s =
    Ok (PDict [("task_id", PStr task_id); ("workflow_id", PStr k);
               ("status", PStr "updated"); ("message", PStr message)]).
Proof.
  intros Habs Hk Hupd Hact Hid Hst Hdata.
  repeat (split; [intros; first
    [ now apply handle_analysis_complete_absent
    | now apply handle_remediation_proposed_absent
    | now apply handle_approval_received_absent
    | now apply handle_execution_complete_absent
    | now apply fail_workflow_absent ] |]).
  unfold exec, result, execute, try_except, get_or. rewrite Hact. simpl.
  unfold _handle_update_workflow_status, get_or in *. rewrite Hid, Hst.
  apply String.eqb_neq in Hk. simpl. rewrite Hk. simpl.
  unfold stage_updates in Hupd. simpl in Hupd.
  destruct (dict_get "result_data" request) as [data|]; simpl in Hdata;
    [destruct data; try discriminate|];
    destruct Hupd as [<-|[<-|[<-|[<-|[<-|[]]]]]]; simpl; unfold bind, with_id, lift;
      simpl;
      rewrite ?handle_analysis_complete_absent, ?handle_remediation_proposed_absent,
        ?handle_approval_received_absent, ?handle_execution_complete_absent,
        ?fail_workflow_absent by assumption;
      simpl; split; eauto.
Qed.

Definition ex_update_request : Dict :=
  [("action", PStr "update_workflow_status");
   ("workflow_id", PStr "no-such-workflow");
   ("status", PStr "analysis_complete");
   ("result_data", PDict [("classification", PStr "Backend Error")])].

Lemma update_of_unknown_workflow_reports_updated_witness :
  exec (execute ex_world_ok "task-1" ex_update_request) ex_state_no_client
  = ex_state_no_client /\
  exists message,
    result (execute ex_world_ok "task-1" ex_update_request) ex_state_no_client =
    Ok (PDict [("task_id", PStr "task-1");
               ("workflow_id", PStr "no-such-workflow");
               ("status", PStr "updated"); ("message", PStr message)]).
Proof.
  assert (Hk : "no-such-workflow" <> "") by discriminate.
  assert (Hin : In "analysis_complete" stage_updates) by (left; reflexivity).
  exact (proj2 (proj2 (proj2 (proj2 (proj2
    (@update_of_unknown_workflow_reports_updated ex_world_ok ex_state_no_client
       "no-such-workflow" "task-1" "analysis_complete" ex_update_request
       eq_refl Hk Hin eq_refl eq_refl eq_refl eq_refl)))))).
Defined.

(** ** Creation of a workflow *)

Lemma fail_workflow_ok W k msg s : result (_fail_workflow W k msg) s = Ok tt.
Proof.
  unfold result. destruct (lookup k s) as [w|] eqn:Hw.
  - now rewrite (@fail_workflow_present W k msg s w Hw).
  - now rewrite (@fail_workflow_absent W k msg s Hw).
Qed.

Lemma try_fail_ok W (m : M unit) k (msg : Exn -> PyVal) s :
  result (try_except m (fun e => _fail_workflow W k (msg e))) s = Ok tt.
Proof.
  unfold result, try_except. destruct (m s) as [[[]|e] s']; simpl; auto.
  apply fail_workflow_ok.
Qed.

Lemma trigger_rca_analysis_ok W k s : result (_trigger_rca_analysis W k) s = Ok tt.
Proof. unfold _trigger_rca_analysis. apply try_fail_ok. Qed.

(** The record [_start_incident_workflow] stores, and the state in which
    it hands the workflow to the analysis stage. *)
Definition new_workflow (W : World) (p : FailurePayload) (s : State) : WorkflowState :=
  let id := uuid4 W (uuid_reads s) in
  mkWorkflowState id
    ("inc-" ++ strftime W (clock W (clock_reads s)) ++ "-" ++ substring 0 8 id)
    p "started" (clock W (S (clock_reads s))) (clock W (S (S (clock_reads s))))
    PNone PNone PNone PNone PNone PNone.

Definition created_state (W : World) (p : FailurePayload) (s : State) : State :=
  let id := uuid4 W (uuid_reads s) in
  let w := new_workflow W p s in
  mkState (agent_id s) (start_time s)
    (dict_set id w (active_workflows s))
    (rca_agents s) (remediation_agents s) (approval_agents s)
    (a2a_clients s) (services s) (server s) (last_heartbeat s)
    (events s ++
     [mkEvent (clock W (S (S (S (clock_reads s))))) "workflow_started"
        (PDict [("workflow_id", PStr id);
                ("incident_id", PStr (incident_id w));
                ("test_title", test_title p);
                ("trace_id", trace_id p);
                ("failure_status", fp_status p)])])%list
    (cleanup_tasks s)
    (S (S (S (S (clock_reads s))))) (S (uuid_reads s)) (a2a_calls s)
    (transitions s).

Lemma start_incident_workflow_eq W p s :
  _start_incident_workflow W p s =
  (Ok (Some (uuid4 W (uuid_reads s))),
   exec (_trigger_rca_analysis W (uuid4 W (uuid_reads s))) (created_state W p s)).
Proof.
  pose proof (trigger_rca_analysis_ok W (uuid4 W (uuid_reads s))
                (created_state W p s)) as Hok.
  unfold result, exec in *.
  unfold _start_incident_workflow, try_except, bind, new_uuid, now, modify,
    _log_mcp_event, bind, now, modify, start_workflow, ret.
  cbn [fst snd uuid_reads clock_reads set_uuid_reads set_clock_reads].
  match goal with
  | |- context [_trigger_rca_analysis W ?k ?st] =>
      replace st with (created_state W p s) by (destruct s; reflexivity)
  end.
  destruct (_trigger_rca_analysis W (uuid4 W (uuid_reads s)) (created_state W p s))
    as [[[]|e] s']; simpl in *; [reflexivity | discriminate].
Qed.

Lemma lookup_created_state W p s :
  lookup (uuid4 W (uuid_reads s)) (created_state W p s) = Some (new_workflow W p s).
Proof. unfold lookup, created_state. simpl. apply dict_get_set_same. Qed.

Definition any_kind : Kind -> bool := fun _ => true.

Lemma step_rel_present W touch P s s' k w :
  step_rel W touch P s s' -> lookup k s = Some w -> lookup k s' <> None.
Proof.
  intros H Hw.
  destruct (@dict_keys_same_get _ _ (active_workflows s) (active_workflows s')
              k w (sr_keys _ _ _ _ _ H) Hw) as [w' Hw'].
  unfold lookup. congruence.
Qed.

Lemma exec_start_incident_workflow W p s :
  exec (_start_incident_workflow W p) s =
  exec (_trigger_rca_analysis W (uuid4 W (uuid_reads s))) (created_state W p s).
Proof. unfold exec at 1. now rewrite start_incident_workflow_eq. Qed.

Lemma result_start_incident_workflow W p s :
  result (_start_incident_workflow W p) s = Ok (Some (uuid4 W (uuid_reads s))).
Proof. unfold result. now rewrite start_incident_workflow_eq. Qed.

Lemma start_incident_workflow_stores W p s :
  lookup (uuid4 W (uuid_reads s)) (exec (_start_incident_workflow W p) s) <> None.
Proof.
  rewrite exec_start_incident_workflow.
  pose proof (@sat_trigger_rca_analysis W any_kind (uuid4 W (uuid_reads s))
                eq_refl (created_state W p s)) as H.
  pose proof (lookup_created_state W p s) as H2.
  eapply step_rel_present; [exact H | exact H2].
Qed.

(** ** C7: validation of an inbound failure notification *)

Lemma validate_false_iff (d : Dict) :
  _validate_failure_payload d = false <->
  (exists f, In f required_fields /\ dict_get f d = None) \/
  (exists e, dict_get "error" d = Some e /\ is_dict e = false).
Proof.
  unfold _validate_failure_payload.
  destruct (forallb (fun field => dict_mem field d) required_fields) eqn:Hall.
  - rewrite forallb_forall in Hall. split.
    + destruct (dict_get "error" d) as [e|] eqn:He; intros H.
      * right. eauto.
      * left. exists "error". split; [simpl; auto | assumption].
    + intros [[f [Hf Hn]]|[e [He Hd]]].
      * apply Hall in Hf. apply dict_mem_true in Hf. contradiction.
      * now rewrite He.
  - split; auto. intros _. left.
    assert (H : ~ (forall f, In f required_fields -> dict_mem f d = true)).
    { intros H. apply forallb_forall in H. congruence. }
    unfold required_fields in *.
    destruct (dict_get "test_title" d) eqn:E1; [|exists "test_title"; split; [simpl; auto 10 | assumption]].
    destruct (dict_get "status" d) eqn:E2; [|exists "status"; split; [simpl; auto 10 | assumption]].
    destruct (dict_get "error" d) eqn:E3; [|exists "error"; split; [simpl; auto 10 | assumption]].
    destruct (dict_get "retries" d) eqn:E4; [|exists "retries"; split; [simpl; auto 10 | assumption]].
    destruct (dict_get "trace_id" d) eqn:E5; [|exists "trace_id"; split; [simpl; auto 10 | assumption]].
    exfalso. apply H. intros f Hf. apply dict_mem_true. simpl in Hf.
    destruct Hf as [<-|[<-|[<-|[<-|[<-|[]]]]]]; congruence.
Qed.

Section WebhookFacts.
Variable W : World.

Lemma hoare_new_uuid n (E : Exn -> State -> Prop) :
  hoare (fun s => uuid_reads s = n) (new_uuid W)
        (fun u s' => u = uuid4 W n /\ uuid_reads s' = S n) E.
Proof. intros s Hs. unfold new_uuid. simpl. subst n. auto. Qed.

Lemma hoare_make_failure_payload n d u (E : Exn -> State -> Prop) :
  hoare (fun s => uuid_reads s = n) (make_failure_payload W d u)
        (fun _ s' => uuid_reads s' = n) E.
Proof. intros s Hs. unfold make_failure_payload, bind, now, ret. simpl. auto. Qed.

Lemma hoare_start_incident_workflow n p (E : Exn -> State -> Prop) :
  hoare (fun s => uuid_reads s = n) (_start_incident_workflow W p)
        (fun r s' => r = Some (uuid4 W n) /\ lookup (uuid4 W n) s' <> None) E.
Proof.
  apply hoare_of_run. intros s Hs. subst n.
  rewrite result_start_incident_workflow. split; [reflexivity|].
  apply start_incident_workflow_stores.
Qed.

Lemma hoare_webhook_valid n d :
  _validate_failure_payload d = true ->
  uuid4 W (S n) <> "" ->
  hoare (fun s => uuid_reads s = n)
        (_handle_playwright_webhook W (Json (PDict d)))
        (fun r s' =>
           r = mkResponse 200
                 (PDict [("status", PStr "success");
                         ("workflow_id", PStr (uuid4 W (S n)));
                         ("message", PStr "Incident response workflow started")]) /\
           lookup (uuid4 W (S n)) s' <> None)
        (fun _ _ => False).
Proof.
  intros Hv Hid. apply String.eqb_neq in Hid.
  unfold _handle_playwright_webhook. rewrite Hv. cbn [negb].
  eapply hoare_try with (E' := fun _ _ => False); [|intros e; apply hoare_false].
  eapply hoare_bind; [apply hoare_new_uuid|]. intros u.
  apply hoare_pure. intros ->.
  eapply hoare_bind; [apply hoare_make_failure_payload|]. intros p.
  eapply hoare_bind; [apply hoare_start_incident_workflow|]. intros r.
  apply hoare_pure. intros ->. cbv iota. unfold truthy. rewrite Hid. cbn [negb].
  apply hoare_ret. auto.
Qed.
End WebhookFacts.

(** A required field is missing in the body, or its [error] is not an
    object. *)
Definition invalid (d : Dict) : Prop :=
  (exists f, In f required_fields /\ dict_get f d = None) \/
  (exists e, dict_get "error" d = Some e /\ is_dict e = false).

(** C7, as the code has it.  A notification whose body is a JSON object
    gets 400 "Invalid payload" and leaves the state as it was when a
    required field ([test_title], [status], [error], [retries],
    [trace_id]) is missing or [error] is not an object; otherwise a
    workflow record is stored under a new id and the answer is 200 with
    status "success" and that id (the second UUID drawn: the first is the
    default of [trace_id]).  A body that is JSON but not an object gets
    500, not 400; a body that cannot be decoded gets 400 "Invalid JSON",
    and one that cannot be read for another reason gets 500.  None of
    these changes the state. *)
Theorem webhook_validates_then_creates (W : World) (s : State) (body : Body) :
  uuid4 W (S (uuid_reads s)) <> "" ->
  match body with
  | BadJSON =>
      _handle_playwright_webhook W body s =
      (Ok (mkResponse 400 (PStr "Invalid JSON")), s)
  | Unreadable =>
      _handle_playwright_webhook W body s =
      (Ok (mkResponse 500 (PStr "Internal server error")), s)
  | Json (PDict d) =>
      (invalid d ->
       _handle_playwright_webhook W body s =
       (Ok (mkResponse 400 (PStr "Invalid payload")), s)) /\
      (~ invalid d ->
       let id := uuid4 W (S (uuid_reads s)) in
       result (_handle_playwright_webhook W body) s =
       Ok (mkResponse 200
             (PDict [("status", PStr "success"); ("workflow_id", PStr id);
                     ("message", PStr "Incident response workflow started")])) /\
       lookup id (exec (_handle_playwright_webhook W body) s) <> None)
  | Json _ =>
      _handle_playwright_webhook W body s =
      (Ok (mkResponse 500 (PStr "Internal server error")), s)
  end.
Proof.
  intros Hid. destruct body as [| |v]; try reflexivity.
  destruct v as [| | | | | |d]; try reflexivity.
  unfold invalid. split.
  - intros H. apply validate_false_iff in H.
    unfold _handle_playwright_webhook, try_except. now rewrite H.
  - intros H. rewrite <- validate_false_iff in H.
    apply not_false_is_true in H.
    pose proof (hoare_run _ _ _ _ s
                  (hoare_webhook_valid W (uuid_reads s) d H Hid) eq_refl) as Hh.
    cbv zeta.
    destruct (result (_handle_playwright_webhook W (Json (PDict d))) s) as [r|e];
      [|contradiction].
    destruct Hh as [-> Hl]. auto.
Qed.

Definition ex_valid_body : Dict :=
  [("test_title", PStr "checkout test"); ("status", PStr "failed");
   ("error", PDict [("message", PStr "timeout"); ("stack", PStr "");
                    ("type", PStr "TimeoutError")]);
   ("retries", PInt 2); ("trace_id", PStr "t-1")].

Definition ex_invalid_body : Dict :=
  [("test_title", PStr "checkout test"); ("status", PStr "failed");
   ("error", PStr "timeout"); ("retries", PInt 2); ("trace_id", PStr "t-1")].

Lemma webhook_validates_then_creates_witness :
  _handle_playwright_webhook ex_world_ok (Json (PDict ex_invalid_body))
    ex_state_no_client
  = (Ok (mkResponse 400 (PStr "Invalid payload")), ex_state_no_client) /\
  result (_handle_playwright_webhook ex_world_ok (Json (PDict ex_valid_body)))
    ex_state_no_client
  = Ok (mkResponse 200
          (PDict [("status", PStr "success");
                  ("workflow_id", PStr "1a1b2c3d-0000-4000-8000-000000000001");
                  ("message", PStr "Incident response workflow started")])).
Proof.
  assert (Hid : uuid4 ex_world_ok (S (uuid_reads ex_state_no_client)) <> "")
    by discriminate.
  split.
  - apply (proj1 (webhook_validates_then_creates ex_world_ok ex_state_no_client
                    (Json (PDict ex_invalid_body)) Hid)).
    right. exists (PStr "timeout"). split; reflexivity.
  - apply (proj2 (webhook_validates_then_creates ex_world_ok ex_state_no_client
                    (Json (PDict ex_valid_body)) Hid)).
    intros [[f [Hf Hn]]|[e [He Hd]]].
    + simpl in Hf. destruct Hf as [<-|[<-|[<-|[<-|[<-|[]]]]]]; discriminate.
    + inversion He; subst. discriminate.
Defined.

(** A value has the field [f]: it is an object with that key. *)
Definition has_field (f : string) (v : PyVal) : bool :=
  match v with
  | PDict d => dict_mem f d
  | _ => false
  end.

(** C7, as stated, fails: a body that is valid JSON but not an object, here
    an empty list, has every required field missing, and is answered with
    500, not with a 400 validation error. *)
Lemma non_object_body_is_not_a_validation_error :
  ~ ((exists f, In f required_fields /\ has_field f (PList []) = false) ->
     exists message,
       result (_handle_playwright_webhook ex_world_ok (Json (PList [])))
              ex_state_no_client
       = Ok (mkResponse 400 message)).
Proof.
  intros H. destruct H as [message H].
  - exists "test_title". split; [left|]; reflexivity.
  - simpl in H. discriminate.
Qed.

(** ** Failing many workflows: shutdown, health check, supervisor *)

Lemma hoare_for_each_prefix {A} (I : list A -> State -> Prop) (l : list A)
      (body : A -> M unit) (E : Exn -> State -> Prop) :
  (forall pre x post, l = (pre ++ x :: post)%list ->
     hoare (I pre) (body x) (fun _ => I (pre ++ [x])%list) E) ->
  hoare (I []) (for_each l body) (fun _ => I l) E.
Proof.
  intros H.
  assert (G : forall post pre, l = (pre ++ post)%list ->
                hoare (I pre) (for_each post body) (fun _ => I l) E).
  { induction post as [|x r IH]; intros pre Hl; simpl.
    - apply hoare_ret. intros s Hs. rewrite app_nil_r in Hl. now subst.
    - eapply hoare_bind; [eapply H; exact Hl|].
      intros a. apply IH. rewrite <- app_assoc. exact Hl. }
  apply (G l []). reflexivity.
Qed.

Definition failed_with (msg : PyVal) (k : string) (s : State) : Prop :=
  exists w, lookup k s = Some w /\ status w = "failed" /\ error_message w = msg.

Section FailAll.
Variable W : World.
Variable msg : PyVal.

Lemma failed_with_fail_state k k' w s :
  failed_with msg k s -> failed_with msg k (fail_state W k' msg w s).
Proof.
  intros [w0 [H1 [H2 H3]]]. unfold failed_with.
  destruct (String.string_dec k k') as [->|Hne].
  - rewrite lookup_fail_state_same. eexists. split; [reflexivity|]. split; reflexivity.
  - rewrite lookup_fail_state_other by auto. eauto.
Qed.

Lemma dict_keys_fail_state k w s :
  lookup k s = Some w ->
  dict_keys (active_workflows (fail_state W k msg w s)) =
  dict_keys (active_workflows s).
Proof. intros H. unfold fail_state. simpl. eapply dict_keys_set_present. exact H. Qed.

(** The loop [for k in l: _fail_workflow(k, msg)] from state [s0]. *)
Definition fail_all_inv (s0 : State) (done : list string) (s : State) : Prop :=
  dict_keys (active_workflows s) = dict_keys (active_workflows s0) /\
  (forall k, In k done -> lookup k s0 <> None -> failed_with msg k s) /\
  (forall k, ~ In k done -> lookup k s = lookup k s0).

Lemma fail_all_inv_step s0 done k :
  hoare (fail_all_inv s0 done) (_fail_workflow W k msg)
        (fun _ => fail_all_inv s0 (done ++ [k])%list) (fun _ _ => False).
Proof.
  intros s (Hk & Hd & Hn).
  destruct (lookup k s) as [w|] eqn:Hw.
  - rewrite (fail_workflow_present W k msg s w Hw).
    split; [|split].
    + rewrite dict_keys_fail_state by exact Hw. exact Hk.
    + intros k' Hin Hp. apply in_app_or in Hin.
      destruct (String.string_dec k' k) as [->|Hne].
      * exists (fail_record W s msg w).
        rewrite lookup_fail_state_same. repeat split.
      * destruct Hin as [Hin|[Heq|[]]]; [|congruence].
        apply failed_with_fail_state. auto.
    + intros k' Hnin. rewrite lookup_fail_state_other.
      * apply Hn. intros Hin. apply Hnin. apply in_or_app. auto.
      * intros ->. apply Hnin. apply in_or_app. right. left. reflexivity.
  - rewrite (fail_workflow_absent W k msg s Hw).
    split; [exact Hk|split].
    + intros k' Hin Hp. apply in_app_or in Hin.
      destruct Hin as [Hin|[Heq|[]]]; [auto|]. subst k'.
      exfalso. apply Hp.
      assert (Hin' : ~ In k (dict_keys (active_workflows s))).
      { intros Hin'. apply dict_get_in_keys in Hin'. unfold lookup in Hw. congruence. }
      rewrite Hk in Hin'.
      destruct (lookup k s0) eqn:E; auto.
      exfalso. apply Hin'. apply dict_get_in_keys. unfold lookup in E. congruence.
    + intros k' Hnin. apply Hn. intros Hin. apply Hnin. apply in_or_app. auto.
Qed.

Lemma hoare_fail_all s0 l :
  hoare (fun s => s = s0) (for_each l (fun k => _fail_workflow W k msg))
        (fun _ => fail_all_inv s0 l) (fun _ _ => False).
Proof.
  eapply hoare_pre.
  - apply (hoare_for_each_prefix (fail_all_inv s0)).
    intros pre x post _. apply fail_all_inv_step.
  - intros s ->. split; [reflexivity|]. split; [intros k []|reflexivity].
Qed.
End FailAll.

Lemma fail_all_inv_same_store msg s0 l s s' :
  active_workflows s' = active_workflows s ->
  fail_all_inv msg s0 l s -> fail_all_inv msg s0 l s'.
Proof.
  unfold fail_all_inv, failed_with, lookup. intros ->. auto.
Qed.

(** A computation that cannot raise keeps an assertion closed under its
    relation, whatever is claimed of exceptions. *)
Lemma sat_hoare_total {A} (R : State -> State -> Prop) (m : M A)
      (I : State -> Prop) (E : Exn -> State -> Prop) :
  sat R m ->
  (forall s, exists a, result m s = Ok a) ->
  (forall s s', I s -> R s s' -> I s') ->
  hoare I m (fun _ => I) E.
Proof.
  intros Hm Hok Hcl. apply hoare_of_run. intros s Hs.
  destruct (Hok s) as [a Ha]. rewrite Ha. eauto.
Qed.

Lemma log_mcp_event_ok W ty d s : exists a, result (_log_mcp_event W ty d) s = Ok a.
Proof. exists tt. reflexivity. Qed.

(** ** C4: shutdown *)

(** C4, as the code has it.  When stopping the webhook server does not
    raise, [cleanup] keeps the keys of the store and sets every workflow in
    it to Failed with reason "System shutdown": the active ones, and also
    those already Completed or Failed that were not yet evicted. *)
Theorem shutdown_fails_every_stored_workflow (W : World) (s : State) :
  (forall site, server s = Some site -> stop_raises site = None) ->
  dict_keys (active_workflows (exec (cleanup W) s)) = dict_keys (active_workflows s) /\
  forall k w, lookup k s = Some w ->
              failed_with (PStr "System shutdown") k (exec (cleanup W) s).
Proof.
  intros Hstop.
  assert (H : hoare (fun x => x = s) (cleanup W)
                (fun _ => fail_all_inv (PStr "System shutdown") s
                            (dict_keys (active_workflows s)))
                (fun _ _ => False)).
  { unfold cleanup.
    eapply hoare_try with (E' := fun _ _ => False); [|intros; apply hoare_false].
    apply hoare_get_state. intros s0 ->.
    eapply hoare_bind with (R := fun _ x => x = s).
    { destruct (server s) as [site|] eqn:Hs;
        [rewrite (Hstop site eq_refl)|]; apply hoare_ret; auto. }
    intros u. apply hoare_get_state. intros s1 ->.
    eapply hoare_bind; [apply hoare_fail_all|]. intros u'.
    apply hoare_get_state. intros s2 Hinv.
    eapply hoare_pre with (P' := fail_all_inv (PStr "System shutdown") s
                                   (dict_keys (active_workflows s))).
    - eapply sat_hoare_total;
        [apply (sat_log W any_kind); reflexivity | apply log_mcp_event_ok |].
      intros x x' Hx Hr. eapply fail_all_inv_same_store; [|exact Hx].
      apply (rr_store _ _ _ Hr).
    - intros x ->. exact Hinv. }
  pose proof (hoare_run _ _ _ _ s H eq_refl) as Hr.
  destruct (result (cleanup W) s); [|contradiction].
  destruct Hr as (Hk & Hd & _). split; [exact Hk|].
  intros k w Hw. apply Hd.
  - apply dict_get_in_keys. unfold lookup in Hw. congruence.
  - congruence.
Qed.

Lemma shutdown_fails_every_stored_workflow_witness :
  failed_with (PStr "System shutdown") "w1"
    (exec (cleanup ex_world_ok) ex_state_no_client).
Proof.
  refine (proj2 (shutdown_fails_every_stored_workflow ex_world_ok ex_state_no_client _)
                "w1" (ex_workflow "w1" "started" 0 0) eq_refl).
  intros site H. inversion H. reflexivity.
Defined.

(** C4, as stated, fails: a workflow that is already Completed and still in
    the store is modified by the shutdown pass. *)
Definition ex_state_completed : State :=
  ex_state ex_clients
    [("w1", ex_workflow "w1" "completed" 0 (5 * second));
     ("w2", ex_workflow "w2" "analyzing" 0 (6 * second))] 10.

Lemma shutdown_modifies_completed_workflow :
  ~ (lookup "w1" (exec (cleanup ex_world_ok) ex_state_completed)
     = lookup "w1" ex_state_completed).
Proof.
  intros H. apply (f_equal (option_map status)) in H.
  vm_compute in H. discriminate.
Qed.

(** ** C6: the supervisor's timeout sweep *)

Definition timed_out (t : Z) (w : WorkflowState) : bool :=
  t - updated_at w >? workflow_timeout.

Section Tick.
Variable W : World.
Let msg := PStr "Workflow timeout".

(** The loop of [monitor_tick] over a snapshot of the store [d0], at
    clock reading [t], after the entries [done]. *)
Definition tick_inv (t : Z) (d0 : list (string * WorkflowState))
           (done : list (string * WorkflowState)) (s : State) : Prop :=
  forall k w, dict_get k d0 = Some w ->
    (timed_out t w = false -> lookup k s = Some w) /\
    (timed_out t w = true ->
     (lookup k s = Some w \/ failed_with msg k s) /\
     (In k (map fst done) -> failed_with msg k s)).

Lemma tick_inv_step t d0 done k0 w0 :
  In k0 (dict_keys d0) ->
  hoare (tick_inv t d0 done)
        (w <- deref (k0, w0) ;;
         if t - updated_at w >? workflow_timeout
         then _fail_workflow W k0 msg else ret tt)
        (fun _ => tick_inv t d0 (done ++ [(k0, w0)])%list) (fun _ _ => False).
Proof.
  intros Hin0 s Hinv. unfold bind, deref. cbn [fst snd].
  apply dict_get_in_keys in Hin0.
  destruct (dict_get k0 d0) as [w|] eqn:Hk0; [clear Hin0|congruence].
  destruct (Hinv k0 w Hk0) as [Hfresh Hstale].
  assert (Hlive : exists wl, lookup k0 s = Some wl /\
                     (timed_out t w = false -> wl = w) /\
                     (timed_out t w = true -> wl = w \/ failed_with msg k0 s)).
  { destruct (timed_out t w) eqn:Ht.
    - destruct (Hstale eq_refl) as [[H|[wl [H1 H2]]] _].
      + exists w. repeat split; auto; try discriminate.
      + exists wl. split; [exact H1|]. split; [discriminate|].
        intros _. right. exists wl. auto.
    - exists w. repeat split; auto; try discriminate. }
  destruct Hlive as [wl [Hwl [Hl1 Hl2]]]. rewrite Hwl.
  fold (timed_out t wl).
  destruct (timed_out t wl) eqn:Htl.
  - (* the live record is stale: it is failed *)
    rewrite (fail_workflow_present W k0 msg s wl Hwl).
    assert (Htw : timed_out t w = true).
    { destruct (timed_out t w) eqn:Ht; auto. rewrite (Hl1 eq_refl) in Htl. congruence. }
    intros k w' Hk. destruct (Hinv k w' Hk) as [Hf Hs].
    destruct (String.string_dec k k0) as [->|Hne].
    + rewrite Hk0 in Hk. inversion Hk; subst w'. split; [congruence|].
      intros _. split; [right|intros _];
        exists (fail_record W s msg wl); rewrite lookup_fail_state_same;
        repeat split.
    + rewrite lookup_fail_state_other by auto. split; [exact Hf|].
      intros Ht. destruct (Hs Ht) as [Ha Hb]. split.
      * destruct Ha as [Ha|Ha]; [left; exact Ha | right].
        now apply failed_with_fail_state.
      * intros Hd. rewrite map_app in Hd. apply in_app_or in Hd.
        destruct Hd as [Hd|[Hd|[]]]; [|simpl in Hd; congruence].
        apply failed_with_fail_state. auto.
  - (* the live record is fresh: nothing happens *)
    simpl. intros k w' Hk. destruct (Hinv k w' Hk) as [Hf Hs].
    split; [exact Hf|]. intros Ht. destruct (Hs Ht) as [Ha Hb].
    split; [exact Ha|]. intros Hd. rewrite map_app in Hd.
    apply in_app_or in Hd. destruct Hd as [Hd|[Hd|[]]]; [auto|].
    simpl in Hd. subst k. rewrite Hk0 in Hk. inversion Hk; subst w'.
    destruct (Hl2 Ht) as [->|Hfw]; [congruence | exact Hfw].
Qed.

Lemma hoare_monitor_tick s :
  hoare (fun x => x = s) (monitor_tick W)
        (fun _ => tick_inv (clock W (clock_reads s)) (active_workflows s)
                    (active_workflows s))
        (fun _ _ => False).
Proof.
  unfold monitor_tick.
  eapply hoare_try with (E' := fun _ _ => False); [|intros; apply hoare_false].
  eapply hoare_bind with
    (R := fun t x => t = clock W (clock_reads s) /\
                     active_workflows x = active_workflows s).
  { intros x ->. unfold now. simpl. auto. }
  intros t. apply hoare_pure. intros ->.
  apply hoare_get_state. intros s1 Hs1. rewrite Hs1.
  eapply hoare_bind with
    (R := fun _ => tick_inv (clock W (clock_reads s)) (active_workflows s)
                     (active_workflows s)).
  - eapply hoare_pre.
    + apply (hoare_for_each_prefix
               (tick_inv (clock W (clock_reads s)) (active_workflows s))).
      intros pre [k0 w0] post Hl. apply tick_inv_step.
      unfold dict_keys. rewrite Hl, map_app. apply in_or_app. right. now left.
    + intros x ->. intros k w Hk. unfold lookup. rewrite Hs1.
      split; [auto|]. intros _. split; [auto | intros []].
  - intros u x Hx. unfold modify. simpl.
    intros k w Hk. destruct (Hx k w Hk) as [Ha Hb]. split; [exact Ha | exact Hb].
Qed.
End Tick.

(** C6.  One round of the supervisor, at clock reading [t]: every workflow
    in the store whose [updated_at] is more than the 30 minutes of
    [workflow_timeout] before [t] is Failed with message "Workflow timeout"
    afterwards, and every other workflow record is exactly as it was. *)
Theorem supervisor_tick_fails_stale_workflows (W : World) (s : State)
        (k : string) (w : WorkflowState) :
  lookup k s = Some w ->
  (clock W (clock_reads s) - updated_at w > workflow_timeout ->
   failed_with (PStr "Workflow timeout") k (exec (monitor_tick W) s)) /\
  (clock W (clock_reads s) - updated_at w <= workflow_timeout ->
   lookup k (exec (monitor_tick W) s) = Some w).
Proof.
  intros Hw.
  pose proof (hoare_run _ _ _ _ s (hoare_monitor_tick W s) eq_refl) as Hr.
  destruct (result (monitor_tick W) s); [|contradiction].
  destruct (Hr k w Hw) as [Hfresh Hstale].
  split; intros Ht.
  - apply Hstale.
    + unfold timed_out. apply Z.gtb_lt. lia.
    + apply dict_get_in_keys. unfold lookup in Hw. congruence.
  - apply Hfresh. unfold timed_out.
    destruct (Z.gtb_spec (clock W (clock_reads s) - updated_at w) workflow_timeout);
      [lia | reflexivity].
Qed.

Definition ex_state_stale : State :=
  ex_state ex_clients
    [("w1", ex_workflow "w1" "analyzing" 0 0);
     ("w2", ex_workflow "w2" "executing" 0 (1900 * second))] 2000.

Lemma supervisor_tick_fails_stale_workflows_witness :
  failed_with (PStr "Workflow timeout") "w1"
    (exec (monitor_tick ex_world_ok) ex_state_stale) /\
  lookup "w2" (exec (monitor_tick ex_world_ok) ex_state_stale)
  = Some (ex_workflow "w2" "executing" 0 (1900 * second)).
Proof.
  split.
  - apply (proj1 (supervisor_tick_fails_stale_workflows ex_world_ok ex_state_stale
                    "w1" (ex_workflow "w1" "analyzing" 0 0) eq_refl)).
    reflexivity.
  - apply (proj2 (supervisor_tick_fails_stale_workflows ex_world_ok ex_state_stale
                    "w2" (ex_workflow "w2" "executing" 0 (1900 * second)) eq_refl)).
    discriminate.
Defined.

(** ** C9: the health check fails stale workflows *)

Lemma nodup_keys_nth_get (V : Type) (l : list (string * V)) i k v :
  NoDup (dict_keys l) -> nth_error l i = Some (k, v) -> dict_get k l = Some v.
Proof.
  unfold dict_keys. revert i. induction l as [|[k0 v0] r IH]; intros i Hnd Hn.
  - destruct i; discriminate.
  - simpl in Hnd. inversion Hnd as [|? ? Hnin Hnd']; subst.
    destruct i as [|i]; simpl in *.
    + inversion Hn; subst. now rewrite String.eqb_refl.
    + destruct (k0 =? k)%string eqn:E.
      * apply String.eqb_eq in E. subst k0. exfalso. apply Hnin.
        apply nth_error_In in Hn. apply (in_map fst) in Hn. exact Hn.
      * eapply IH; eauto.
Qed.

Lemma nodup_keys_nth_unique (V : Type) (l : list (string * V)) i j k v v' :
  NoDup (dict_keys l) ->
  nth_error l i = Some (k, v) -> nth_error l j = Some (k, v') -> i = j.
Proof.
  unfold dict_keys. intros Hnd Hi Hj.
  rewrite NoDup_nth_error in Hnd. apply Hnd.
  - rewrite length_map. apply nth_error_Some. congruence.
  - rewrite (map_nth_error fst _ _ Hi), (map_nth_error fst _ _ Hj). reflexivity.
Qed.

Section Health.
Variable W : World.

(** The keys [stuck_workflows] returns when its first clock reading is
    the [n]-th. *)
Fixpoint stuck_list (n : nat) (l : list (string * WorkflowState)) : list string :=
  match l with
  | [] => []
  | (k, w) :: r =>
      if timed_out (clock W n) w then k :: stuck_list (S n) r
      else stuck_list (S n) r
  end.

Lemma stuck_workflows_eq l s :
  stuck_workflows W l s =
  (Ok (stuck_list (clock_reads s) l),
   set_clock_reads (clock_reads s + List.length l) s).
Proof.
  revert s. induction l as [|[k w] r IH]; intros s; simpl.
  - unfold ret. f_equal. destruct s; unfold set_clock_reads; simpl.
    now rewrite Nat.add_0_r.
  - unfold bind, now. rewrite IH. simpl. unfold ret, timed_out. f_equal.
    destruct s; unfold set_clock_reads; simpl. f_equal. lia.
Qed.

Lemma in_stuck_list n l k :
  In k (stuck_list n l) <->
  exists i w, nth_error l i = Some (k, w) /\ timed_out (clock W (n + i)) w = true.
Proof.
  revert n. induction l as [|[k0 w0] r IH]; intros n; simpl.
  - split; [intros [] | intros [i [w [H _]]]; destruct i; discriminate].
  - split.
    + intros H. destruct (timed_out (clock W n) w0) eqn:Ht.
      * destruct H as [->|H].
        -- exists O, w0. rewrite Nat.add_0_r. auto.
        -- apply IH in H. destruct H as [i [w [H1 H2]]].
           exists (S i), w. rewrite Nat.add_succ_r. auto.
      * apply IH in H. destruct H as [i [w [H1 H2]]].
        exists (S i), w. rewrite Nat.add_succ_r. auto.
    + intros [i [w [H1 H2]]]. destruct i as [|i]; simpl in H1.
      * inversion H1; subst. rewrite Nat.add_0_r in H2. rewrite H2. now left.
      * rewrite Nat.add_succ_r in H2.
        assert (Hin : In k (stuck_list (S n) r)) by (apply IH; eauto).
        destruct (timed_out (clock W n) w0); [right|]; exact Hin.
Qed.

Lemma hoare_health_check s site :
  server s = Some site ->
  hoare (fun x => x = s) (health_check W)
        (fun r s' => r = true /\
           fail_all_inv (PStr "Workflow timeout") s
             (stuck_list (clock_reads s) (active_workflows s)) s')
        (fun _ _ => False).
Proof.
  intros Hsrv. unfold health_check.
  eapply hoare_try with (E' := fun _ _ => False); [|intros; apply hoare_false].
  apply hoare_get_state. intros s0 ->. rewrite Hsrv.
  eapply hoare_bind with
    (R := fun stuck x => stuck = stuck_list (clock_reads s) (active_workflows s) /\
                         active_workflows x = active_workflows s).
  { intros x ->. rewrite stuck_workflows_eq. split; reflexivity. }
  intros stuck. apply hoare_pure. intros ->.
  eapply hoare_bind with
    (R := fun _ => fail_all_inv (PStr "Workflow timeout") s
                     (stuck_list (clock_reads s) (active_workflows s))).
  - intros x Hx.
    pose proof (hoare_fail_all W (PStr "Workflow timeout") x
                  (stuck_list (clock_reads s) (active_workflows s)) x eq_refl) as H.
    destruct (for_each (stuck_list (clock_reads s) (active_workflows s))
                (fun k => _fail_workflow W k (PStr "Workflow timeout")) x)
      as [[u|e] x']; [|contradiction].
    unfold fail_all_inv, lookup in *. rewrite Hx in H. exact H.
  - intros u. apply hoare_ret. auto.
Qed.
End Health.

(** C9.  The handler of [GET /health] is not read-only.  With a webhook
    server in place it answers 200, and for the workflow at position [i] of
    the store, compared with the clock reading taken for it (the [i]-th of
    the check): a record whose [updated_at] is more than [workflow_timeout]
    older is Failed with message "Workflow timeout" afterwards, and any
    other record is exactly as it was. *)
Theorem health_check_fails_stale_workflows (W : World) (s : State) (site : TCPSite)
        (i : nat) (k : string) (w : WorkflowState) :
  server s = Some site ->
  NoDup (dict_keys (active_workflows s)) ->
  nth_error (active_workflows s) i = Some (k, w) ->
  (exists body, result (_handle_health_check W) s = Ok (mkResponse 200 body)) /\
  (clock W (clock_reads s + i) - updated_at w > workflow_timeout ->
   failed_with (PStr "Workflow timeout") k (exec (_handle_health_check W) s)) /\
  (clock W (clock_reads s + i) - updated_at w <= workflow_timeout ->
   lookup k (exec (_handle_health_check W) s) = Some w).
Proof.
  intros Hsrv Hnd Hnth.
  set (Q := fun (r : Response) (s' : State) =>
              (exists body, r = mkResponse 200 body) /\
              fail_all_inv (PStr "Workflow timeout") s
                (stuck_list W (clock_reads s) (active_workflows s)) s').
  assert (H : hoare (fun x => x = s) (_handle_health_check W) Q (fun _ _ => False)).
  { unfold _handle_health_check.
    eapply hoare_bind; [apply (hoare_health_check W s site Hsrv)|].
    intros healthy. apply hoare_pure. intros ->.
    apply hoare_get_state. intros s1 Hs1. apply hoare_ret.
    intros x ->. split; [eexists; reflexivity | exact Hs1]. }
  pose proof (hoare_run _ _ _ _ s H eq_refl) as Hr.
  destruct (result (_handle_health_check W) s) as [r|e]; [|contradiction].
  destruct Hr as [[body ->] (Hk & Hd & Hn)].
  pose proof (nodup_keys_nth_get _ _ _ _ _ Hnd Hnth) as Hget.
  split; [eauto|]. split; intros Ht.
  - apply Hd.
    + apply in_stuck_list. exists i, w. split; [exact Hnth|].
      unfold timed_out. apply Z.gtb_lt. lia.
    + unfold lookup. congruence.
  - rewrite Hn; [exact Hget|].
    intros Hin. apply in_stuck_list in Hin. destruct Hin as [j [w' [Hj Hto]]].
    pose proof (nodup_keys_nth_unique _ _ _ _ _ _ _ Hnd Hnth Hj). subst j.
    rewrite Hnth in Hj. inversion Hj; subst w'.
    unfold timed_out in Hto. apply Z.gtb_lt in Hto. lia.
Qed.

Lemma health_check_fails_stale_workflows_witness :
  failed_with (PStr "Workflow timeout") "w1"
    (exec (_handle_health_check ex_world_ok) ex_state_stale) /\
  lookup "w2" (exec (_handle_health_check ex_world_ok) ex_state_stale)
  = Some (ex_workflow "w2" "executing" 0 (1900 * second)).
Proof.
  assert (Hnd : NoDup (dict_keys (active_workflows ex_state_stale))).
  { repeat constructor; simpl; intuition discriminate. }
  split.
  - apply (proj1 (proj2 (health_check_fails_stale_workflows ex_world_ok ex_state_stale
             (mkTCPSite None) 0 "w1" (ex_workflow "w1" "analyzing" 0 0)
             eq_refl Hnd eq_refl))).
    reflexivity.
  - apply (proj2 (proj2 (health_check_fails_stale_workflows ex_world_ok ex_state_stale
             (mkTCPSite None) 1 "w2" (ex_workflow "w2" "executing" 0 (1900 * second))
             eq_refl Hnd eq_refl))).
    discriminate.
Defined.

(** ** Following one workflow through the pipeline

    [tracked W k c phi tau eps nu]: the configuration is [c], workflow [k]
    is in the store with a record in [phi], the trace of transitions is in
    [tau], the audit trail in [eps] and the number of remote calls made so
    far in [nu]. *)

Definition tracked (k : string)
           (c : list string * list string * list string *
                list (string * A2AClient) * Services * option TCPSite)
           (phi : WorkflowState -> Prop) (tau : list Transition -> Prop)
           (eps : list Event -> Prop) (nu : nat -> Prop) (s : State) : Prop :=
  config s = c /\
  (exists w, lookup k s = Some w /\ phi w) /\
  tau (transitions s) /\ eps (events s) /\ nu (a2a_calls s).

Definition anything {A : Type} : A -> Prop := fun _ => True.

Section Tracking.
Variable W : World.
Variable k : string.
Variable c : list string * list string * list string *
             list (string * A2AClient) * Services * option TCPSite.

Local Abbreviation tr := (tracked k c).

Lemma tr_contains phi tau eps nu (E : Exn -> State -> Prop) :
  hoare (tr phi tau eps nu) (contains k)
        (fun b s => b = true /\ tr phi tau eps nu s) E.
Proof.
  intros s Hs. unfold contains. split; [|exact Hs].
  destruct Hs as (_ & (w & Hw & _) & _). apply dict_mem_true.
  unfold lookup in Hw. congruence.
Qed.

Lemma tr_obj phi tau eps nu (E : Exn -> State -> Prop) :
  hoare (tr phi tau eps nu) (obj k)
        (fun w s => phi w /\ tr phi tau eps nu s) E.
Proof.
  intros s Hs. unfold obj.
  destruct Hs as (Hc & (w & Hw & Hphi) & Hrest). rewrite Hw.
  split; [exact Hphi|]. split; [exact Hc|]. split; [eauto | exact Hrest].
Qed.

Lemma tr_assign phi psi tau eps nu f (E : Exn -> State -> Prop) :
  (forall w, phi w -> psi (f w)) ->
  hoare (tr phi tau eps nu) (assign k f) (fun _ => tr psi tau eps nu) E.
Proof.
  intros Hf s (Hc & (w & Hw & Hphi) & Hrest). unfold assign. rewrite Hw.
  split; [exact Hc|]. split; [|exact Hrest].
  exists (f w). split; [|auto]. unfold lookup. simpl. apply dict_get_set_same.
Qed.

Lemma tr_touch_updated_at phi psi tau eps nu (E : Exn -> State -> Prop) :
  (forall w t, phi w -> psi (with_updated_at t w)) ->
  hoare (tr phi tau eps nu) (touch_updated_at W k) (fun _ => tr psi tau eps nu) E.
Proof.
  intros Hf s (Hc & (w & Hw & Hphi) & Hrest).
  unfold touch_updated_at, bind, now, assign, lookup in *. simpl. rewrite Hw.
  split; [exact Hc|]. split; [|exact Hrest].
  eexists. split; [|apply Hf; exact Hphi]. unfold lookup. simpl.
  apply dict_get_set_same.
Qed.

Lemma tr_enter_stage phi psi tau tau' eps nu x (E : Exn -> State -> Prop) :
  (forall w t, phi w -> psi (with_updated_at t (with_status x w))) ->
  (forall w T, phi w -> tau T -> tau' (T ++ [(k, status w, x)])%list) ->
  hoare (tr phi tau eps nu) (enter_stage W k x) (fun _ => tr psi tau' eps nu) E.
Proof.
  intros Hf Ht s (Hc & (w & Hw & Hphi) & Htau & Hrest).
  unfold enter_stage, touch_updated_at, bind, set_status, now, assign, lookup in *.
  rewrite Hw. simpl. rewrite dict_get_set_same. simpl.
  split; [exact Hc|]. split; [|split; [apply Ht; auto | exact Hrest]].
  eexists. split; [|apply Hf; exact Hphi]. unfold lookup. simpl.
  apply dict_get_set_same.
Qed.

Lemma tr_log phi tau eps eps' nu ty d (E : Exn -> State -> Prop) :
  (forall L t, eps L -> eps' (L ++ [mkEvent t ty d])%list) ->
  hoare (tr phi tau eps nu) (_log_mcp_event W ty d) (fun _ => tr phi tau eps' nu) E.
Proof.
  intros He s (Hc & Hw & Htau & Heps & Hnu).
  unfold _log_mcp_event, bind, now, modify. simpl.
  split; [exact Hc|]. split; [exact Hw|]. split; [exact Htau|].
  split; [apply He; exact Heps | exact Hnu].
Qed.

Lemma tr_create_cleanup_task phi tau eps nu (E : Exn -> State -> Prop) :
  hoare (tr phi tau eps nu) (create_cleanup_task k) (fun _ => tr phi tau eps nu) E.
Proof. intros s Hs. unfold create_cleanup_task, modify. simpl. exact Hs. Qed.



(** A remote call that fails: the service has a client and the reply to
    the call, the [n]-th, is an exception. *)
Lemma tr_a2a_call_raises phi tau eps eps' nu n client service skill payload
      timeout corr err :
  dict_get service (snd (fst (fst c))) = Some client ->
  (forall m, nu m -> m = n) ->
  a2a_reply W n service skill payload timeout = Raised err ->
  (forall L t d, eps L -> eps' (L ++ [mkEvent t "a2a_call_failed" d])%list) ->
  hoare (tr phi tau eps nu) (_a2a_call W service skill payload timeout corr)
        (fun _ _ => False) (fun _ => tr phi tau eps' anything).
Proof.
  intros Hcl Hn Hreply He s (Hc & Hw & Htau & Heps & Hnu).
  assert (Ha : a2a_clients s = snd (fst (fst c))) by (rewrite <- Hc; reflexivity).
  apply Hn in Hnu.
  unfold _a2a_call, bind, get_state. rewrite Ha, Hcl.
  unfold try_except, remote, raise, _log_mcp_event, bind, now, modify.
  destruct (has_invoke client); [|destruct (has_call client)];
    cbv beta; rewrite ?Hnu, ?Hreply;
    (split; [exact Hc|]; split; [exact Hw|]; split; [exact Htau|];
     split; [apply He; exact Heps | exact I]).
Qed.

(** The rest of a run of the pipeline on [k]. *)
Lemma tr_rest {A} (m : M A) P phi tau tau' eps eps' nu :
  sat (step_rel W (eq k) P) m ->
  (forall T l, tau T -> Forall (fun t : Transition => k = fst (fst t)) l ->
               tau' (T ++ l)%list) ->
  (forall L l, eps L -> Forall (fun e => P (ev_kind e) = true) l ->
               eps' (L ++ l)%list) ->
  hoare (tr phi tau eps nu) m
        (fun _ => tr anything tau' eps' anything)
        (fun _ => tr anything tau' eps' anything).
Proof.
  intros Hm Ht He. apply hoare_of_run. intros s (Hc & (w & Hw & _) & Htau & Heps & _).
  specialize (Hm s).
  assert (G : tr anything tau' eps' anything (exec m s)).
  { destruct Hm as [A1 B1 C1 [l [D1 F1]] [L [G1 H1]] I1 J1].
    split; [congruence|]. split; [|split; [|split]].
    - destruct (@dict_keys_same_get _ _ (active_workflows s)
                  (active_workflows (exec m s)) k w B1 Hw) as [w' Hw'].
      exists w'. split; [exact Hw' | exact I].
    - rewrite D1. apply Ht; auto.
    - rewrite G1. apply He; auto.
    - exact I. }
  destruct (result m s); exact G.
Qed.
End Tracking.

Lemma hoare_skip {A} (P : State -> Prop) (a : A) (E : Exn -> State -> Prop) :
  hoare P (ret a) (fun _ => P) E.
Proof. apply hoare_ret. auto. Qed.

Lemma hoare_lift_skip {A} (P : State -> Prop) (a : A) (E : Exn -> State -> Prop) :
  hoare P (lift (Ok a)) (fun _ => P) E.
Proof. apply hoare_lift_ok. auto. Qed.

Lemma hoare_total {A} (P : State -> Prop) (m : M A) Q (E E' : Exn -> State -> Prop) :
  (forall s, exists a, result m s = Ok a) ->
  hoare P m Q E' -> hoare P m Q E.
Proof.
  intros Hok H. apply hoare_of_run. intros s Hs.
  pose proof (hoare_run _ _ _ _ s H Hs) as Hr.
  destruct (Hok s) as [a Ha]. rewrite Ha in *. exact Hr.
Qed.

Lemma tr_rest_ok {A} W k c (m : M A) P phi tau tau' eps eps' nu
      (E : Exn -> State -> Prop) :
  sat (step_rel W (eq k) P) m ->
  (forall s, exists a, result m s = Ok a) ->
  (forall T l, tau T -> Forall (fun t : Transition => k = fst (fst t)) l ->
               tau' (T ++ l)%list) ->
  (forall L l, eps L -> Forall (fun e => P (ev_kind e) = true) l ->
               eps' (L ++ l)%list) ->
  hoare (tracked k c phi tau eps nu) m
        (fun _ => tracked k c anything tau' eps' anything) E.
Proof.
  intros Hm Hok Ht He. eapply hoare_total; [exact Hok|].
  eapply tr_rest; eauto.
Qed.

Lemma tracked_weaken k c (phi phi' : WorkflowState -> Prop)
      (tau tau' : list Transition -> Prop) (eps eps' : list Event -> Prop)
      (nu nu' : nat -> Prop) s :
  (forall w, phi w -> phi' w) -> (forall T, tau T -> tau' T) ->
  (forall L, eps L -> eps' L) -> (forall n, nu n -> nu' n) ->
  tracked k c phi tau eps nu s -> tracked k c phi' tau' eps' nu' s.
Proof.
  intros H1 H2 H3 H4 (Hc & (w & Hw & Hphi) & Htau & Heps & Hnu).
  split; [exact Hc|]. split; [eauto|]. auto.
Qed.

(** ** C3: the stage transitions of the pipeline *)









Section Legality.
Variable W : World.
Variable k : string.
Variable c : list string * list string * list string *
             list (string * A2AClient) * Services * option TCPSite.
Variable T0 : list Transition.



















End Legality.




(** ** C1: what an analysis result does *)

Section AnalysisResult.
Variable W : World.
Variable k : string.
Variable s : State.
Variable w : WorkflowState.
Hypothesis Hw : lookup k s = Some w.
Hypothesis Hagents : remediation_agents s <> [].

Let before : State -> Prop :=
  tracked k (config s) (fun w' => status w' = status w)
          (fun T => T = transitions s) anything anything.

Let proposing : State -> Prop :=
  tracked k (config s) anything
          (fun T => exists rest,
               T = (transitions s ++ (k, status w, "proposing") :: rest)%list)
          anything anything.

Lemma proposal_is_triggered (E : Exn -> State -> Prop) :
  hoare before (_trigger_remediation_proposal W k) (fun _ => proposing) E.
Proof.
  apply hoare_total with (E' := fun _ _ => True);
    [intros x; eexists; apply try_fail_ok|].
  unfold _trigger_remediation_proposal, before.
  eapply hoare_try with (E' := fun _ => proposing).
  - apply hoare_get_state. intros s0 Hs0.
    eapply hoare_pre; [|intros ? ->; exact Hs0].
    assert (Ha : remediation_agents s0 = remediation_agents s).
    { destruct Hs0 as (Hc & _). unfold config in Hc. congruence. }
    destruct (remediation_agents s0) as [|a l]; [congruence|].
    eapply hoare_bind.
    { apply (tr_enter_stage W k (config s) (fun w' => status w' = status w)
               anything (fun T => T = transitions s)
               (fun T => exists rest,
                    T = (transitions s ++ (k, status w, "proposing") :: rest)%list)).
      - intros; exact I.
      - intros w' T Hst ->. exists []. now rewrite Hst. }
    intros u.
    apply (tr_rest W k (config s) _ any_kind).
    + apply sat_keeps; [apply step_rel_refl|]. intros x.
      assert (HP : forallb any_kind kinds_trigger_rca = true) by reflexivity.
      keeps_struct; try keeps_prim HP;
        first [ keeps_call HP sat_a2a_call
              | keeps_call HP sat_handle_remediation_proposed ].
    + intros T l0 [rest ->] _. exists (rest ++ l0)%list.
      now rewrite <- app_assoc.
    + intros; exact I.
  - intros e.
    apply (tr_rest_ok W k (config s) _ any_kind).
    + apply sat_fail_workflow. reflexivity.
    + intros x. eexists. apply fail_workflow_ok.
    + intros T l0 [rest ->] _. exists (rest ++ l0)%list.
      now rewrite <- app_assoc.
    + intros; exact I.
Qed.

Lemma analysis_complete_triggers_proposal d (E : Exn -> State -> Prop) :
  hoare before (_handle_analysis_complete W k (PDict d)) (fun _ => proposing) E.
Proof.
  apply hoare_total with (E' := fun _ _ => True);
    [intros x; eexists; apply try_fail_ok|].
  unfold _handle_analysis_complete, before.
  eapply hoare_try with (E' := fun _ _ => False); [|intros; apply hoare_false].
  eapply hoare_bind; [apply tr_contains|].
  intros b. apply hoare_pure. intros ->. cbn [negb].
  eapply hoare_bind;
    [apply (tr_assign k (config s) (fun w' => status w' = status w)
              (fun w' => status w' = status w)); intros ? H; exact H|].
  intros u1.
  eapply hoare_bind;
    [apply (tr_touch_updated_at W k (config s) (fun w' => status w' = status w)
              (fun w' => status w' = status w)); intros ? ? H; exact H|].
  intros u2. cbn [py_get].
  eapply hoare_bind; [apply hoare_lift_skip|]. intros v1.
  eapply hoare_bind; [apply hoare_lift_skip|]. intros v2.
  eapply hoare_bind;
    [apply (tr_log W k (config s) _ _ anything anything); intros; exact I|].
  intros u3. apply proposal_is_triggered.
Qed.
End AnalysisResult.

Definition ex_state_analyzing : State :=
  ex_state [] [("w1", ex_workflow "w1" "analyzing" 0 0)] 5.

(** C1, as stated, fails: no classification value sends the workflow
    from Analyzing past the proposal stage. *)
Lemma no_classification_skips_the_proposal :
  ~ exists no_action : PyVal,
      ~ In ("w1", "analyzing", "proposing")
           (transitions (exec (_handle_analysis_complete ex_world_ok "w1"
                                 (PDict [("classification", no_action)]))
                              ex_state_analyzing)).
Proof.
  intros [v H]. apply H. vm_compute. left. reflexivity.
Qed.

(** ** The stage a result leads to *)

Lemma hoare_lift_val {A} (P : State -> Prop) (a : A) (E : Exn -> State -> Prop) :
  hoare P (lift (Ok a)) (fun x s => x = a /\ P s) E.
Proof. apply hoare_lift_ok. auto. Qed.

Section NextStage.
Variable W : World.
Variable k : string.
Variable c : list string * list string * list string *
             list (string * A2AClient) * Services * option TCPSite.
Variable eps : list Event -> Prop.
Variable P : Kind -> bool.
Hypothesis eps_closed :
  forall L l, eps L -> Forall (fun e => P (ev_kind e) = true) l -> eps (L ++ l)%list.

(** Workflow [k] is at stage [x] and the trace is exactly [T]. *)
Definition here (x : string) (T : list Transition) (nu : nat -> Prop) : State -> Prop :=
  tracked k c (fun w => status w = x) (fun T' => T' = T) eps nu.

(** The trace has gone on from [T] with the transition from [x] to [y]. *)
Definition moved (x y : string) (T : list Transition) : State -> Prop :=
  tracked k c anything
          (fun T' => exists rest, T' = (T ++ (k, x, y) :: rest)%list) eps anything.

Lemma eps_log ty d t L :
  P (ev_kind (mkEvent 0 ty d)) = true -> eps L -> eps (L ++ [mkEvent t ty d])%list.
Proof.
  intros HP HL. apply eps_closed; [exact HL|]. constructor; [exact HP | constructor].
Qed.

Lemma moved_rest {A} (m : M A) x y T phi tau nu :
  sat (step_rel W (eq k) P) m ->
  (forall T', tau T' -> exists rest, T' = (T ++ (k, x, y) :: rest)%list) ->
  hoare (tracked k c phi tau eps nu) m (fun _ => moved x y T) (fun _ => moved x y T).
Proof.
  intros Hm Ht. apply (tr_rest W k c m P); [exact Hm | | exact eps_closed].
  intros T' l HT' _. destruct (Ht T' HT') as [rest ->].
  exists (rest ++ l)%list. now rewrite <- app_assoc.
Qed.

Ltac here_keep x T :=
  match goal with
  | |- hoare _ (bind (contains _) _) _ _ =>
      eapply hoare_bind;
      [apply tr_contains | intros ?b; apply hoare_pure; intros ->; cbn [negb]]
  | |- hoare _ (bind (obj _) _) _ _ =>
      eapply hoare_bind; [apply tr_obj | intros ?w; apply hoare_pure; intros _]
  | |- hoare _ (bind (assign _ _) _) _ _ =>
      eapply hoare_bind;
      [apply (tr_assign k c (fun w => status w = x) (fun w => status w = x));
       intros ? ?H; exact H | intros ?u]
  | |- hoare _ (bind (touch_updated_at _ _) _) _ _ =>
      eapply hoare_bind;
      [apply (tr_touch_updated_at W k c (fun w => status w = x)
                (fun w => status w = x));
       intros ? ? ?H; exact H | intros ?u]
  | |- hoare _ (bind (_log_mcp_event _ _ _) _) _ _ =>
      eapply hoare_bind;
      [apply (tr_log W k c _ _ eps eps); intros; apply eps_log; auto | intros ?u]
  | |- hoare _ (bind (lift (Ok _)) _) _ _ =>
      eapply hoare_bind;
      [apply hoare_lift_val | intros ?v; apply hoare_pure; intros ->]
  | |- hoare _ (let _ := _ in _) _ _ => cbv zeta
  end.

Ltac here_get_state :=
  apply hoare_get_state; intros ?s0 ?Hs0;
  eapply hoare_pre; [|intros ? ->; exact Hs0].

Ltac here_enter x y T :=
  eapply hoare_bind;
  [ apply (tr_enter_stage W k c (fun w => status w = x) anything
             (fun T' => T' = T)
             (fun T' => exists rest, T' = (T ++ (k, x, y) :: rest)%list));
    [ intros; exact I
    | intros ?w ?T' ?Hst ->; exists []; now rewrite Hst ]
  | intros ?u ].

Lemma next_complete x T r nu (E : Exn -> State -> Prop) :
  forallb P kinds_complete = true ->
  hoare (here x T nu) (_complete_workflow W k r) (fun _ => moved x "completed" T) E.
Proof.
  intros HP. unfold _complete_workflow, here.
  eapply hoare_try with (E' := fun _ => moved x "completed" T).
  - here_keep x T. here_enter x "completed" T.
    apply moved_rest; [|auto].
    apply sat_keeps; [apply step_rel_refl|]. intros s0.
    unfold complete_workflow. keeps_struct; keeps_prim HP.
  - intros e. apply hoare_ret. auto.
Qed.

Lemma next_execution x T d nu (E : Exn -> State -> Prop) :
  forallb P kinds_handle_execution = true ->
  hoare (here x T nu) (_handle_execution_complete W k (PDict d))
        (fun _ => moved x "completed" T) E.
Proof.
  intros HP.
  assert (HP1 : P ("execution_complete", None) = true)
    by (eapply forallb_kind_mem; [exact HP | reflexivity]).
  assert (HP2 : forallb P kinds_complete = true)
    by (eapply forallb_kinds_subset; [exact HP | reflexivity]).
  apply hoare_total with (E' := fun _ _ => True);
    [intros s; eexists; apply try_fail_ok|].
  unfold _handle_execution_complete, here.
  eapply hoare_try with (E' := fun _ _ => False); [|intros; apply hoare_false].
  cbn [py_get]. repeat here_keep x T.
  apply next_complete. exact HP2.
Qed.

Lemma next_trigger_execution x T nu (E : Exn -> State -> Prop) :
  (snd (fst (fst (fst (fst c))))) <> [] ->
  forallb P kinds_trigger_execution = true ->
  hoare (here x T nu) (_trigger_remediation_execution W k)
        (fun _ => moved x "executing" T) E.
Proof.
  intros Hagents HP.
  assert (HP2 : forallb P kinds_fail = true)
    by (eapply forallb_kinds_subset; [exact HP | reflexivity]).
  apply hoare_total with (E' := fun _ _ => True);
    [intros s; eexists; apply try_fail_ok|].
  unfold _trigger_remediation_execution, here.
  eapply hoare_try with (E' := fun _ => moved x "executing" T).
  - here_get_state.
    assert (Ha : remediation_agents s0 <> []).
    { destruct Hs0 as (Hc & _). rewrite <- Hc in Hagents. exact Hagents. }
    destruct (remediation_agents s0) as [|a l]; [congruence|].
    here_enter x "executing" T.
    apply moved_rest; [|auto].
    apply sat_keeps; [apply step_rel_refl|]. intros s1.
    keeps_struct; try keeps_prim HP;
      first [ keeps_call HP sat_a2a_call
            | keeps_call HP sat_handle_execution_complete ].
  - intros e. eapply hoare_total; [intros s; eexists; apply fail_workflow_ok|].
    apply moved_rest; [apply sat_fail_workflow; exact HP2 | auto].
Qed.

Lemma next_approval x T d nu (E : Exn -> State -> Prop) :
  dict_get "decision" d = Some (PStr "approve") ->
  (snd (fst (fst (fst (fst c))))) <> [] ->
  forallb P kinds_handle_approval = true ->
  hoare (here x T nu) (_handle_approval_received W k (PDict d))
        (fun _ => moved x "executing" T) E.
Proof.
  intros Hdec Hagents HP.
  assert (HP1 : P ("approval_received", None) = true)
    by (eapply forallb_kind_mem; [exact HP | reflexivity]).
  assert (HP2 : forallb P kinds_trigger_execution = true)
    by (eapply forallb_kinds_subset; [exact HP | reflexivity]).
  apply hoare_total with (E' := fun _ _ => True);
    [intros s; eexists; apply try_fail_ok|].
  unfold _handle_approval_received, here.
  eapply hoare_try with (E' := fun _ _ => False); [|intros; apply hoare_false].
  cbn [py_get]. rewrite Hdec. repeat here_keep x T.
  cbn [eq_str]. rewrite String.eqb_refl.
  apply next_trigger_execution; assumption.
Qed.

Lemma next_trigger_approval x T nu (E : Exn -> State -> Prop) :
  (snd (fst (fst (fst c)))) <> [] ->
  forallb P kinds_trigger_approval = true ->
  hoare (here x T nu) (_trigger_approval_request W k)
        (fun _ => moved x "awaiting_approval" T) E.
Proof.
  intros Hagents HP.
  assert (HP2 : forallb P kinds_fail = true)
    by (eapply forallb_kinds_subset; [exact HP | reflexivity]).
  apply hoare_total with (E' := fun _ _ => True);
    [intros s; eexists; apply try_fail_ok|].
  unfold _trigger_approval_request, here.
  eapply hoare_try with (E' := fun _ => moved x "awaiting_approval" T).
  - here_get_state.
    assert (Ha : approval_agents s0 <> []).
    { destruct Hs0 as (Hc & _). rewrite <- Hc in Hagents. exact Hagents. }
    destruct (approval_agents s0) as [|a l]; [congruence|].
    here_enter x "awaiting_approval" T.
    apply moved_rest; [|auto].
    apply sat_keeps; [apply step_rel_refl|]. intros s1.
    keeps_struct; try keeps_prim HP;
      first [ keeps_call HP sat_a2a_call
            | keeps_call HP sat_handle_approval_received ].
  - intros e. eapply hoare_total; [intros s; eexists; apply fail_workflow_ok|].
    apply moved_rest; [apply sat_fail_workflow; exact HP2 | auto].
Qed.

Lemma next_proposal x T d nu (E : Exn -> State -> Prop) :
  (snd (fst (fst (fst c)))) <> [] ->
  forallb P kinds_handle_proposal = true ->
  hoare (here x T nu) (_handle_remediation_proposed W k (PDict d))
        (fun _ => moved x "awaiting_approval" T) E.
Proof.
  intros Hagents HP.
  assert (HP1 : P ("remediation_proposed", None) = true)
    by (eapply forallb_kind_mem; [exact HP | reflexivity]).
  assert (HP2 : forallb P kinds_trigger_approval = true)
    by (eapply forallb_kinds_subset; [exact HP | reflexivity]).
  apply hoare_total with (E' := fun _ _ => True);
    [intros s; eexists; apply try_fail_ok|].
  unfold _handle_remediation_proposed, here.
  eapply hoare_try with (E' := fun _ _ => False); [|intros; apply hoare_false].
  cbn [py_get]. repeat here_keep x T.
  apply next_trigger_approval; assumption.
Qed.

Lemma next_trigger_proposal x T nu (E : Exn -> State -> Prop) :
  (snd (fst (fst (fst (fst c))))) <> [] ->
  forallb P kinds_trigger_proposal = true ->
  hoare (here x T nu) (_trigger_remediation_proposal W k)
        (fun _ => moved x "proposing" T) E.
Proof.
  intros Hagents HP.
  assert (HP2 : forallb P kinds_fail = true)
    by (eapply forallb_kinds_subset; [exact HP | reflexivity]).
  apply hoare_total with (E' := fun _ _ => True);
    [intros s; eexists; apply try_fail_ok|].
  unfold _trigger_remediation_proposal, here.
  eapply hoare_try with (E' := fun _ => moved x "proposing" T).
  - here_get_state.
    assert (Ha : remediation_agents s0 <> []).
    { destruct Hs0 as (Hc & _). rewrite <- Hc in Hagents. exact Hagents. }
    destruct (remediation_agents s0) as [|a l]; [congruence|].
    here_enter x "proposing" T.
    apply moved_rest; [|auto].
    apply sat_keeps; [apply step_rel_refl|]. intros s1.
    keeps_struct; try keeps_prim HP;
      first [ keeps_call HP sat_a2a_call
            | keeps_call HP sat_handle_remediation_proposed ].
  - intros e. eapply hoare_total; [intros s; eexists; apply fail_workflow_ok|].
    apply moved_rest; [apply sat_fail_workflow; exact HP2 | auto].
Qed.

Lemma next_analysis x T d nu (E : Exn -> State -> Prop) :
  (snd (fst (fst (fst (fst c))))) <> [] ->
  forallb P kinds_handle_analysis = true ->
  hoare (here x T nu) (_handle_analysis_complete W k (PDict d))
        (fun _ => moved x "proposing" T) E.
Proof.
  intros Hagents HP.
  assert (HP1 : P ("analysis_complete", None) = true)
    by (eapply forallb_kind_mem; [exact HP | reflexivity]).
  assert (HP2 : forallb P kinds_trigger_proposal = true)
    by (eapply forallb_kinds_subset; [exact HP | reflexivity]).
  apply hoare_total with (E' := fun _ _ => True);
    [intros s; eexists; apply try_fail_ok|].
  unfold _handle_analysis_complete, here.
  eapply hoare_try with (E' := fun _ _ => False); [|intros; apply hoare_false].
  cbn [py_get]. repeat here_keep x T.
  apply next_trigger_proposal; assumption.
Qed.
End NextStage.

(** ** C5: the fallback of a stage whose remote call fails *)

(** The four stages that call a remote agent, each with the function that
    enters it, the service it calls, the timeout of the call, the status
    it sets, the status its result leads to, and the kind of the audit
    event its [except] branch writes. *)
Inductive Stage := Analyze | Propose | Approve | Execute.

Definition trigger (W : World) (st : Stage) (k : string) : M unit :=
  match st with
  | Analyze => _trigger_rca_analysis W k
  | Propose => _trigger_remediation_proposal W k
  | Approve => _trigger_approval_request W k
  | Execute => _trigger_remediation_execution W k
  end.

Definition collaborator (st : Stage) : string :=
  match st with
  | Analyze => "rca"
  | Propose => "remediation"
  | Approve => "approval"
  | Execute => "remediation"
  end.

Definition call_timeout (st : Stage) : Z :=
  match st with
  | Analyze => 45
  | Propose => 60
  | Approve => 45
  | Execute => 90
  end.

Definition stage_status (st : Stage) : string :=
  match st with
  | Analyze => "analyzing"
  | Propose => "proposing"
  | Approve => "awaiting_approval"
  | Execute => "executing"
  end.

Definition next_status (st : Stage) : string :=
  match st with
  | Analyze => "proposing"
  | Propose => "awaiting_approval"
  | Approve => "executing"
  | Execute => "completed"
  end.

Definition fallback_kind (st : Stage) : Kind :=
  match st with
  | Analyze => ("rca_a2a_failed_mock_fallback", None)
  | Propose => ("remediation_a2a_failed_mock_fallback", Some "propose")
  | Approve => ("approval_a2a_failed_mock_fallback", None)
  | Execute => ("remediation_a2a_failed_mock_fallback", Some "execute")
  end.

Definition stage_agents (st : Stage) (s : State) : list string :=
  match st with
  | Analyze => rca_agents s
  | Propose => remediation_agents s
  | Approve => approval_agents s
  | Execute => remediation_agents s
  end.

(** The agents the following stage looks for are known. *)
Definition next_agents_known (st : Stage) (s : State) : Prop :=
  match st with
  | Analyze => remediation_agents s <> []
  | Propose => approval_agents s <> []
  | Approve => remediation_agents s <> []
  | Execute => True
  end.

(** What the stage reads with [.get] from the record is a dictionary. *)
Definition readable (st : Stage) (w : WorkflowState) : Prop :=
  match st with
  | Analyze => is_dict (error (failure_payload w)) = true
  | Propose => is_dict (or_empty_dict (analysis_result w)) = true
  | Approve => True
  | Execute => True
  end.

(** The next remote call, made through the client of the stage's service,
    raises, whatever skill and payload it is made with. *)
Definition call_fails (W : World) (st : Stage) (s : State) : Prop :=
  (exists client, dict_get (collaborator st) (a2a_clients s) = Some client) /\
  forall skill payload, exists err,
    a2a_reply W (a2a_calls s) (collaborator st) skill payload (call_timeout st)
    = Raised err.

Definition other_than (fk : Kind) : Kind -> bool :=
  fun x => negb (kind_eqb x fk).

(** No event of [l] is of kind [fk]. *)
Definition quiet (fk : Kind) (l : list Event) : Prop :=
  Forall (fun e => other_than fk (ev_kind e) = true) l.

(** The skill the stage calls, as the configuration names it. *)
Definition stage_skill (st : Stage) (s : State) : string :=
  match st with
  | Analyze => rca_skill (services s)
  | Propose => propose_skill (services s)
  | Approve => approval_skill (services s)
  | Execute => execute_skill (services s)
  end.

(** [_a2a_call] raises [RuntimeError msg]: the service has no client, or
    its client has neither [invoke] nor [call], or the remote call itself
    raises (a timeout of [asyncio.wait_for] is one such exception). *)
Inductive a2a_call_raises (W : World) (s : State) (service skill : string)
          (timeout : Z) : string -> Prop :=
| raises_no_client :
    dict_get service (a2a_clients s) = None ->
    a2a_call_raises W s service skill timeout
      ("No A2A client available for service '" ++ service ++ "'")
| raises_no_method client :
    dict_get service (a2a_clients s) = Some client ->
    has_invoke client = false -> has_call client = false ->
    a2a_call_raises W s service skill timeout
      ("A2A call failed for " ++ service ++ "." ++ skill ++ ": "
       ++ "A2A client for " ++ service ++ " has no invoke/call method")
| raises_remote client err :
    dict_get service (a2a_clients s) = Some client ->
    has_invoke client || has_call client = true ->
    (forall payload,
        a2a_reply W (a2a_calls s) service skill payload timeout = Raised err) ->
    a2a_call_raises W s service skill timeout
      ("A2A call failed for " ++ service ++ "." ++ skill ++ ": " ++ exn_msg err).

(** The audit event the [except] branch of the stage writes, with the text
    of the exception it caught. *)
Definition fallback_event (st : Stage) (k msg : string) (t : Z) : Event :=
  match st with
  | Analyze =>
      mkEvent t "rca_a2a_failed_mock_fallback"
        (PDict [("workflow_id", PStr k); ("error", PStr msg)])
  | Propose =>
      mkEvent t "remediation_a2a_failed_mock_fallback"
        (PDict [("workflow_id", PStr k); ("stage", PStr "propose");
                ("error", PStr msg)])
  | Approve =>
      mkEvent t "approval_a2a_failed_mock_fallback"
        (PDict [("workflow_id", PStr k); ("error", PStr msg)])
  | Execute =>
      mkEvent t "remediation_a2a_failed_mock_fallback"
        (PDict [("workflow_id", PStr k); ("stage", PStr "execute");
                ("error", PStr msg)])
  end.

(** [(workflow_state.analysis_result or {}).get('failing_service',
    'unknown-service')] *)
Definition failing_service (w : WorkflowState) : PyVal :=
  match or_empty_dict (analysis_result w) with
  | PDict d => get_or d "failing_service" (PStr "unknown-service")
  | _ => PNone
  end.

(** The payload the [except] branch of the stage hands to the handler of
    the stage's result, [w] being the record the stage started from. *)
Definition fallback_payload (st : Stage) (w : WorkflowState) : PyVal :=
  match st with
  | Analyze =>
      PDict [("classification", PStr "Backend Error");
             ("failing_service", PStr "unknown-service");
             ("summary", PStr "A2A communication failed, using mock analysis");
             ("confidence_score", PFloat 8 (-1));
             ("evidence_count", PInt 1)]
  | Propose =>
      PDict [("type", PStr "restart_service");
             ("service", failing_service w);
             ("risk_level", PStr "medium");
             ("description",
              PStr "A2A communication failed, using mock remediation proposal")]
  | Approve =>
      PDict [("decision", PStr "approve");
             ("user_id", PStr "system");
             ("reason", PStr "A2A communication failed, auto-approved for testing")]
  | Execute =>
      PDict [("success", PBool true);
             ("duration_seconds", PInt 30);
             ("actions_taken",
              PList [PStr "A2A communication failed, mock service restart"]);
             ("verification_status", PStr "passed")]
  end.

(** The field of the record that holds the result of the stage. *)
Definition stage_result (st : Stage) (w : WorkflowState) : PyVal :=
  match st with
  | Analyze => analysis_result w
  | Propose => remediation_action w
  | Approve => approval_response w
  | Execute => execution_result w
  end.

(** Among the events [l], exactly one is of the fallback kind of the
    stage: the fallback event of workflow [k] with the error text [msg]. *)
Definition logged_once (st : Stage) (k msg : string) (l : list Event) : Prop :=
  exists l1 t l2,
    l = (l1 ++ fallback_event st k msg t :: l2)%list /\
    quiet (fallback_kind st) l1 /\ quiet (fallback_kind st) l2.

Definition before_fallback (E0 : list Event) (fk : Kind) (L : list Event) : Prop :=
  exists l, L = (E0 ++ l)%list /\ quiet fk l.

Definition after_fallback (E0 : list Event) (st : Stage) (k msg : string)
           (L : list Event) : Prop :=
  exists l, L = (E0 ++ l)%list /\ logged_once st k msg l.

Lemma fallback_event_kind st k msg t :
  ev_kind (fallback_event st k msg t) = fallback_kind st.
Proof. destruct st; reflexivity. Qed.

Lemma before_fallback_closed E0 fk L l :
  before_fallback E0 fk L ->
  Forall (fun e => other_than fk (ev_kind e) = true) l ->
  before_fallback E0 fk (L ++ l)%list.
Proof.
  intros [l0 [-> Hq]] Hl. exists (l0 ++ l)%list. split.
  - now rewrite app_assoc.
  - apply Forall_app. split; assumption.
Qed.

Lemma before_fallback_snoc E0 fk L e :
  other_than fk (ev_kind e) = true ->
  before_fallback E0 fk L -> before_fallback E0 fk (L ++ [e])%list.
Proof.
  intros He HL. apply before_fallback_closed; [exact HL|].
  constructor; [exact He | constructor].
Qed.

Lemma after_fallback_closed E0 st k msg L l :
  after_fallback E0 st k msg L ->
  Forall (fun e => other_than (fallback_kind st) (ev_kind e) = true) l ->
  after_fallback E0 st k msg (L ++ l)%list.
Proof.
  intros [l0 [-> (l1 & t & l2 & -> & H1 & H2)]] Hl.
  exists (l1 ++ fallback_event st k msg t :: (l2 ++ l))%list. split.
  - rewrite <- !app_assoc. reflexivity.
  - exists l1, t, (l2 ++ l)%list. split; [reflexivity|]. split; [exact H1|].
    apply Forall_app; split; assumption.
Qed.

Lemma fallback_logged E0 st k msg L t :
  before_fallback E0 (fallback_kind st) L ->
  after_fallback E0 st k msg (L ++ [fallback_event st k msg t])%list.
Proof.
  intros [l0 [-> Hq]]. exists (l0 ++ [fallback_event st k msg t])%list. split.
  - now rewrite app_assoc.
  - exists l0, t, []. split; [reflexivity|]. split; [exact Hq | constructor].
Qed.

(** A remote call that fails: no result comes back, and the exception that
    leaves [_a2a_call] is a [RuntimeError] with the text of the failure. *)
Lemma tr_a2a_call_raising W k s0 phi tau (eps eps' : list Event -> Prop)
      service skill payload timeout corr msg :
  a2a_call_raises W s0 service skill timeout msg ->
  (forall L, eps L -> eps' L) ->
  (forall L t d, eps L -> eps' (L ++ [mkEvent t "a2a_call_failed" d])%list) ->
  hoare (tracked k (config s0) phi tau eps (fun n => n = a2a_calls s0))
        (_a2a_call W service skill payload timeout corr)
        (fun _ _ => False)
        (fun e s => e = RuntimeError msg /\
                    tracked k (config s0) phi tau eps' anything s).
Proof.
  intros Hr He0 He1 s (Hc & Hw & Htau & Heps & Hnu).
  assert (Ha : a2a_clients s = a2a_clients s0)
    by (unfold config in Hc; congruence).
  unfold _a2a_call, bind, get_state. rewrite Ha.
  destruct Hr as [Hnone | client Hcl Hi Hca | client err Hcl Hm Hreply].
  - rewrite Hnone. unfold raise. split; [reflexivity|].
    split; [exact Hc|]. split; [exact Hw|]. split; [exact Htau|].
    split; [apply He0; exact Heps | exact I].
  - rewrite Hcl, Hi, Hca.
    unfold try_except, raise, _log_mcp_event, bind, now, modify. cbv beta.
    split; [reflexivity|].
    split; [exact Hc|]. split; [exact Hw|]. split; [exact Htau|].
    split; [apply He1; exact Heps | exact I].
  - rewrite Hcl.
    unfold try_except, remote, raise, _log_mcp_event, bind, now, modify.
    destruct (has_invoke client); [|destruct (has_call client)];
      try discriminate Hm;
      cbv beta; rewrite ?Hnu, ?Hreply;
      (split; [reflexivity|];
       split; [exact Hc|]; split; [exact Hw|]; split; [exact Htau|];
       split; [apply He1; exact Heps | exact I]).
Qed.

Section Fallback.
Variable W : World.
Variable k : string.
Variable s : State.
Variable w : WorkflowState.
Hypothesis Hw : lookup k s = Some w.

(** The record as the stage's trigger leaves it on entering the stage. *)
Definition entered (x : string) (w' : WorkflowState) : Prop :=
  status w' = x /\ failure_payload w' = failure_payload w /\
  analysis_result w' = analysis_result w.

Definition trace_entered (x : string) : list Transition :=
  (transitions s ++ [(k, status w, x)])%list.

Lemma tracked_start fk :
  tracked k (config s) (fun w' => w' = w) (fun T => T = transitions s)
          (before_fallback (events s) fk) (fun n => n = a2a_calls s) s.
Proof.
  split; [reflexivity|]. split; [eauto|]. split; [reflexivity|].
  split; [|reflexivity]. exists []. split; [now rewrite app_nil_r | constructor].
Qed.

(** The stage has been entered, its call has failed and its fallback event
    has been written: what the handler of the stage's result starts from. *)
Definition fallback_entered (st : Stage) (msg : string) : State -> Prop :=
  tracked k (config s) (entered (stage_status st))
          (fun T => T = trace_entered (stage_status st))
          (after_fallback (events s) st k msg) anything.

Ltac fb_start fk :=
  apply hoare_get_state; intros ?s0 ?Hs0; subst;
  eapply hoare_pre; [|intros ? ->; exact (tracked_start fk)].

Ltac fb_enter fk x :=
  eapply hoare_bind;
  [ apply (tr_enter_stage W k (config s) (fun w' => w' = w) (entered x)
             (fun T => T = transitions s) (fun T => T = trace_entered x));
    [ intros ? ? ->; repeat split | intros ? ? -> ->; reflexivity ]
  | intros ?u ].

Ltac fb_obj H :=
  eapply hoare_bind; [apply tr_obj | intros ?w1; apply hoare_pure; intros H].

Ltac fb_lifts :=
  repeat (eapply hoare_bind;
          [apply hoare_lift_val | intros ?v; apply hoare_pure; intros ->]).

Ltac fb_log fk x :=
  eapply hoare_bind;
  [ apply (tr_log W k (config s) (entered x) (fun T => T = trace_entered x)
             (before_fallback (events s) fk) (before_fallback (events s) fk));
    intros ? ? ?HL; apply before_fallback_snoc; [reflexivity | exact HL]
  | intros ?u ].

(** The [try] of the stage: its call raises [RuntimeError msg]. *)
Ltac fb_try fk x msg :=
  eapply hoare_try with
    (E' := fun e s1 =>
             e = RuntimeError msg /\
             tracked k (config s) (entered x) (fun T => T = trace_entered x)
                     (before_fallback (events s) fk) anything s1).

Ltac fb_call fk x Hfail :=
  eapply hoare_bind; [|intros ?r; apply hoare_false];
  apply (tr_a2a_call_raising W k s (entered x) (fun T => T = trace_entered x)
           (before_fallback (events s) fk) (before_fallback (events s) fk)
           _ _ _ _ _ _ Hfail);
  [ intros ? ?HL; exact HL
  | intros ? ? ? ?HL; apply before_fallback_snoc; [reflexivity | exact HL] ].

(** The [except] of the stage: it writes the fallback event with the text
    of the exception. *)
Ltac fb_fallback st x msg :=
  intros ?e; cbv beta; apply hoare_pure; intros ->;
  eapply hoare_bind;
  [ apply (tr_log W k (config s) (entered x) (fun T => T = trace_entered x)
             (before_fallback (events s) (fallback_kind st))
             (after_fallback (events s) st k msg));
    intros ?L ?t ?HL; exact (fallback_logged (events s) st k msg _ _ HL)
  | intros ?u ].

Lemma fallback_analyze msg (Q : unit -> State -> Prop) (E : Exn -> State -> Prop) :
  stage_agents Analyze s <> [] -> readable Analyze w ->
  a2a_call_raises W s (collaborator Analyze) (stage_skill Analyze s)
                  (call_timeout Analyze) msg ->
  hoare (fallback_entered Analyze msg)
        (_handle_analysis_complete W k (fallback_payload Analyze w))
        Q (fun _ _ => False) ->
  hoare (fun s' => s' = s) (trigger W Analyze k) Q E.
Proof.
  intros Hagents Hread Hfail Hcont.
  cbn [stage_agents readable collaborator stage_skill call_timeout]
    in Hagents, Hread, Hfail.
  destruct (error (failure_payload w)) as [| | | | | |d0] eqn:Herr; try discriminate.
  unfold trigger, _trigger_rca_analysis.
  set (fk := ("rca_a2a_failed_mock_fallback", @None string)).
  eapply hoare_try with (E' := fun _ _ => False); [|intros; apply hoare_false].
  fb_start fk.
  destruct (rca_agents s) as [|a l]; [congruence|].
  fb_enter fk "analyzing". fb_obj ipattern:((?Hst & ?Hfp & ?Har)).
  cbv zeta. rewrite Hfp, Herr. cbn [py_get]. fb_lifts.
  fb_log fk "analyzing".
  fb_try fk "analyzing" msg.
  - fb_call fk "analyzing" Hfail.
  - fb_fallback Analyze "analyzing" msg. exact Hcont.
Qed.

Lemma fallback_propose msg (Q : unit -> State -> Prop) (E : Exn -> State -> Prop) :
  stage_agents Propose s <> [] -> readable Propose w ->
  a2a_call_raises W s (collaborator Propose) (stage_skill Propose s)
                  (call_timeout Propose) msg ->
  hoare (fallback_entered Propose msg)
        (_handle_remediation_proposed W k (fallback_payload Propose w))
        Q (fun _ _ => False) ->
  hoare (fun s' => s' = s) (trigger W Propose k) Q E.
Proof.
  intros Hagents Hread Hfail.
  cbn [stage_agents readable collaborator stage_skill call_timeout]
    in Hagents, Hread, Hfail.
  cbn [fallback_payload]. unfold failing_service.
  destruct (or_empty_dict (analysis_result w)) as [| | | | | |d0] eqn:Hor;
    try discriminate.
  intros Hcont.
  unfold trigger, _trigger_remediation_proposal.
  set (fk := ("remediation_a2a_failed_mock_fallback", Some "propose")).
  eapply hoare_try with (E' := fun _ _ => False); [|intros; apply hoare_false].
  fb_start fk.
  destruct (remediation_agents s) as [|a l]; [congruence|].
  fb_enter fk "proposing". fb_obj ipattern:(_).
  fb_log fk "proposing". cbv zeta.
  fb_try fk "proposing" msg.
  - fb_obj ipattern:(_). fb_call fk "proposing" Hfail.
  - fb_fallback Propose "proposing" msg.
    fb_obj ipattern:((?Hst & ?Hfp & ?Har)).
    rewrite Har, Hor. cbn [py_get]. fb_lifts.
    exact Hcont.
Qed.

Lemma fallback_approve msg (Q : unit -> State -> Prop) (E : Exn -> State -> Prop) :
  stage_agents Approve s <> [] ->
  a2a_call_raises W s (collaborator Approve) (stage_skill Approve s)
                  (call_timeout Approve) msg ->
  hoare (fallback_entered Approve msg)
        (_handle_approval_received W k (fallback_payload Approve w))
        Q (fun _ _ => False) ->
  hoare (fun s' => s' = s) (trigger W Approve k) Q E.
Proof.
  intros Hagents Hfail Hcont.
  cbn [stage_agents collaborator stage_skill call_timeout] in Hagents, Hfail.
  unfold trigger, _trigger_approval_request.
  set (fk := ("approval_a2a_failed_mock_fallback", @None string)).
  eapply hoare_try with (E' := fun _ _ => False); [|intros; apply hoare_false].
  fb_start fk.
  destruct (approval_agents s) as [|a l]; [congruence|].
  fb_enter fk "awaiting_approval". fb_obj ipattern:(_). cbv zeta.
  fb_log fk "awaiting_approval".
  fb_try fk "awaiting_approval" msg.
  - fb_call fk "awaiting_approval" Hfail.
  - fb_fallback Approve "awaiting_approval" msg. exact Hcont.
Qed.

Lemma fallback_execute msg (Q : unit -> State -> Prop) (E : Exn -> State -> Prop) :
  stage_agents Execute s <> [] ->
  a2a_call_raises W s (collaborator Execute) (stage_skill Execute s)
                  (call_timeout Execute) msg ->
  hoare (fallback_entered Execute msg)
        (_handle_execution_complete W k (fallback_payload Execute w))
        Q (fun _ _ => False) ->
  hoare (fun s' => s' = s) (trigger W Execute k) Q E.
Proof.
  intros Hagents Hfail Hcont.
  cbn [stage_agents collaborator stage_skill call_timeout] in Hagents, Hfail.
  unfold trigger, _trigger_remediation_execution.
  set (fk := ("remediation_a2a_failed_mock_fallback", Some "execute")).
  eapply hoare_try with (E' := fun _ _ => False); [|intros; apply hoare_false].
  fb_start fk.
  destruct (remediation_agents s) as [|a l]; [congruence|].
  fb_enter fk "executing". fb_obj ipattern:(_).
  fb_log fk "executing". cbv zeta.
  fb_try fk "executing" msg.
  - fb_obj ipattern:(_). fb_call fk "executing" Hfail.
  - fb_fallback Execute "executing" msg. exact Hcont.
Qed.

(** The handler of the stage's result, run on the fallback payload, takes
    the workflow to the following stage. *)
Definition fallen_back (st : Stage) (msg : string) : State -> Prop :=
  moved k (config s) (after_fallback (events s) st k msg)
        (stage_status st) (next_status st) (trace_entered (stage_status st)).

Ltac fb_next lem st msg :=
  unfold fallback_entered, fallen_back;
  cbn [stage_status next_status fallback_payload];
  eapply hoare_pre;
  [ apply (lem W k (config s) (after_fallback (events s) st k msg)
               (other_than (fallback_kind st))
               (after_fallback_closed (events s) st k msg))
  | intros ? ?H; eapply tracked_weaken; [| | | |exact H];
    [ intros ? ?Hx; apply Hx | auto | auto | intros; exact I ] ].

Lemma fallback_moves st msg :
  stage_agents st s <> [] -> next_agents_known st s -> readable st w ->
  a2a_call_raises W s (collaborator st) (stage_skill st s) (call_timeout st) msg ->
  hoare (fun s' => s' = s) (trigger W st k) (fun _ => fallen_back st msg)
        (fun _ _ => False).
Proof.
  intros Hagents Hnext Hread Hfail. destruct st.
  - apply (fallback_analyze msg _ _ Hagents Hread Hfail).
    fb_next next_analysis Analyze msg; [exact Hnext | reflexivity].
  - apply (fallback_propose msg _ _ Hagents Hread Hfail).
    fb_next next_proposal Propose msg; [exact Hnext | reflexivity].
  - apply (fallback_approve msg _ _ Hagents Hfail).
    fb_next next_approval Approve msg; [reflexivity | exact Hnext | reflexivity].
  - apply (fallback_execute msg _ _ Hagents Hfail).
    fb_next next_execution Execute msg; reflexivity.
Qed.
End Fallback.

Definition ex_state_started : State :=
  ex_state ex_clients [("w1", ex_workflow "w1" "started" 0 0)] 5.

Lemma ex_calls_fail : call_fails ex_world_timeout Analyze ex_state_started.
Proof.
  split; [eexists; reflexivity|]. intros skill payload. eexists. reflexivity.
Defined.

(** C5, as stated, fails: when the analysis call times out the mock
    analysis is used and the run goes on, but no audit event of the run is
    of type [fallback_applied]. *)
Lemma no_event_is_named_fallback_applied :
  ~ (call_fails ex_world_timeout Analyze ex_state_started ->
     In "fallback_applied"
        (event_types (exec (trigger ex_world_timeout Analyze "w1")
                           ex_state_started))).
Proof.
  intros H. specialize (H ex_calls_fail).
  assert (Hno : forallb (fun t => negb (t =? "fallback_applied")%string)
                        (event_types (exec (trigger ex_world_timeout Analyze "w1")
                                           ex_state_started)) = true)
    by (vm_compute; reflexivity).
  rewrite forallb_forall in Hno. specialize (Hno _ H). discriminate Hno.
Qed.

(** ** C8: the time stamps of a workflow record *)

(** The operations that change the store: the creation of a workflow, the
    arrival of a stage result, a failure, the two actions of the A2A
    service that update or cancel a workflow, one round of the supervisor,
    a health check, the shutdown, and the eviction of a finished
    workflow. *)
Inductive Op :=
| Start (p : FailurePayload)
| AnalysisComplete (k : string) (r : PyVal)
| RemediationProposed (k : string) (r : PyVal)
| ApprovalReceived (k : string) (r : PyVal)
| ExecutionComplete (k : string) (r : PyVal)
| Failure (k : string) (msg : PyVal)
| Update (task_id : string) (request : Dict)
| Cancel (task_id : string) (request : Dict)
| Tick
| HealthCheck
| Shutdown
| Evict (k : string).

Definition after (W : World) (op : Op) (s : State) : State :=
  match op with
  | Start p => exec (_start_incident_workflow W p) s
  | AnalysisComplete k r => exec (_handle_analysis_complete W k r) s
  | RemediationProposed k r => exec (_handle_remediation_proposed W k r) s
  | ApprovalReceived k r => exec (_handle_approval_received W k r) s
  | ExecutionComplete k r => exec (_handle_execution_complete W k r) s
  | Failure k msg => exec (_fail_workflow W k msg) s
  | Update task_id request => exec (_handle_update_workflow_status W task_id request) s
  | Cancel task_id request => exec (_handle_cancel_workflow W task_id request) s
  | Tick => exec (monitor_tick W) s
  | HealthCheck => exec (health_check W) s
  | Shutdown => exec (cleanup W) s
  | Evict k => exec (_cleanup_completed_workflow k) s
  end.

(** The states the agent reaches from an empty store. *)
Inductive reachable (W : World) : State -> Prop :=
| reach_empty s : active_workflows s = [] -> reachable W s
| reach_op s op : reachable W s -> reachable W (after W op s).

(** [op] stores a new record under [k]. *)
Definition creates (W : World) (s : State) (op : Op) (k : string) : Prop :=
  match op with
  | Start _ => k = uuid4 W (uuid_reads s)
  | _ => False
  end.

(** [op] takes the record of [k] out of the store. *)
Definition evicts (op : Op) (k : string) : Prop :=
  match op with
  | Evict k' => k = k'
  | _ => False
  end.

(** The clock never goes back. *)
Definition monotone (W : World) : Prop :=
  forall m n, (m <= n)%nat -> clock W m <= clock W n.

(** Every record was created before it was last updated, and was last
    updated in the past. *)
Definition timestamps_ok (W : World) (s : State) : Prop :=
  NoDup (dict_keys (active_workflows s)) /\
  forall k w, lookup k s = Some w ->
              created_at w <= updated_at w /\
              updated_at w <= clock W (clock_reads s).

(** What an operation does to the time stamps of a record it keeps. *)
Definition keeps_time (W : World) (s s' : State) (w w' : WorkflowState) : Prop :=
  created_at w' = created_at w /\
  ((status w' = status w /\ updated_at w' = updated_at w) \/
   exists n, (clock_reads s <= n < clock_reads s')%nat /\
             updated_at w' = clock W n).

Section AssocListMore.
Variable V : Type.
Implicit Types (d : list (string * V)).

Lemma dict_keys_set_in k v d x :
  In x (dict_keys (dict_set k v d)) -> x = k \/ In x (dict_keys d).
Proof.
  induction d as [|[k0 v0] r IH]; simpl.
  - intros [<-|[]]. auto.
  - destruct (k0 =? k)%string; simpl; intuition.
Qed.

Lemma nodup_dict_set k v d :
  NoDup (dict_keys d) -> NoDup (dict_keys (dict_set k v d)).
Proof.
  induction d as [|[k0 v0] r IH]; simpl; intros H.
  - constructor; [intros [] | constructor].
  - inversion H as [|? ? Hnot Hr]; subst.
    destruct (k0 =? k)%string eqn:E; simpl.
    + constructor; assumption.
    + constructor; [|auto]. intros Hin.
      apply dict_keys_set_in in Hin. destruct Hin as [->|Hin]; [|auto].
      rewrite String.eqb_refl in E. discriminate.
Qed.

Lemma dict_keys_del_in k d x :
  In x (dict_keys (dict_del k d)) -> In x (dict_keys d).
Proof.
  induction d as [|[k0 v0] r IH]; simpl; [auto|].
  destruct (k0 =? k)%string; simpl; intuition.
Qed.

Lemma nodup_dict_del k d :
  NoDup (dict_keys d) -> NoDup (dict_keys (dict_del k d)).
Proof.
  induction d as [|[k0 v0] r IH]; simpl; intros H; [constructor|].
  inversion H as [|? ? Hnot Hr]; subst.
  destruct (k0 =? k)%string; simpl; [assumption|].
  constructor; [|auto]. intros Hin. apply Hnot. eapply dict_keys_del_in; eauto.
Qed.

Lemma dict_get_del k k' d v :
  NoDup (dict_keys d) -> dict_get k' (dict_del k d) = Some v ->
  k' <> k /\ dict_get k' d = Some v.
Proof.
  induction d as [|[k0 v0] r IH]; simpl; intros H Hg; [discriminate|].
  inversion H as [|? ? Hnot Hr]; subst.
  destruct (k0 =? k)%string eqn:E.
  - apply String.eqb_eq in E. subst k0.
    destruct (k =? k')%string eqn:E'.
    + apply String.eqb_eq in E'. subst k'. exfalso. apply Hnot.
      apply dict_get_in_keys. congruence.
    + split; [|exact Hg]. intros ->. rewrite String.eqb_refl in E'. discriminate.
  - simpl in Hg. destruct (k0 =? k')%string eqn:E'.
    + split; [|exact Hg]. apply String.eqb_eq in E'. subst k'.
      intros ->. rewrite String.eqb_refl in E. discriminate.
    + apply IH; assumption.
Qed.
End AssocListMore.

Section Operations.
Variable W : World.

Local Abbreviation all := (fun _ : string => True).

Lemma all_kinds : forallb any_kind kinds_trigger_rca = true.
Proof. reflexivity. Qed.

Lemma keeps_deref I kw : keeps I (deref kw).
Proof. intros s Hs. exact Hs. Qed.

Lemma keeps_stuck_workflows l s0 :
  keeps (step_rel W all any_kind s0) (stuck_workflows W l).
Proof.
  induction l as [|[k w] r IH]; simpl.
  - apply keeps_ret.
  - apply keeps_bind; [apply keeps_read; apply sat_now|]. intros t.
    apply keeps_bind; [exact IH|]. intros rest. apply keeps_ret.
Qed.

Ltac op_step :=
  pose proof all_kinds as HP;
  apply sat_keeps; [apply step_rel_refl|]; intros ?s0;
  keeps_struct;
  match goal with
  | |- keeps _ (deref _) => apply keeps_deref
  | |- keeps _ (stuck_workflows _ _) => apply keeps_stuck_workflows
  | |- keeps _ (_log_mcp_event _ _ _) => apply keeps_read; apply sat_log; reflexivity
  | |- keeps _ (_fail_workflow _ _ _) => keeps_call HP sat_fail_workflow
  | |- keeps _ (_handle_analysis_complete _ _ _) =>
      keeps_call HP sat_handle_analysis_complete
  | |- keeps _ (_handle_remediation_proposed _ _ _) =>
      keeps_call HP sat_handle_remediation_proposed
  | |- keeps _ (_handle_approval_received _ _ _) =>
      keeps_call HP sat_handle_approval_received
  | |- keeps _ (_handle_execution_complete _ _ _) =>
      keeps_call HP sat_handle_execution_complete
  | _ => keeps_prim HP
  end.

Lemma sat_monitor_tick : sat (step_rel W all any_kind) (monitor_tick W).
Proof. unfold monitor_tick. op_step. Qed.

Lemma sat_health_check : sat (step_rel W all any_kind) (health_check W).
Proof. unfold health_check. op_step. Qed.

Lemma sat_cleanup : sat (step_rel W all any_kind) (cleanup W).
Proof. unfold cleanup. op_step. Qed.

Lemma sat_update_workflow_status task_id request :
  sat (step_rel W all any_kind) (_handle_update_workflow_status W task_id request).
Proof. unfold _handle_update_workflow_status, with_id. op_step. Qed.

Lemma sat_cancel_workflow task_id request :
  sat (step_rel W all any_kind) (_handle_cancel_workflow W task_id request).
Proof. unfold _handle_cancel_workflow, with_id. op_step. Qed.

(** The operations that neither add a record nor remove one. *)
Definition in_place (op : Op) : bool :=
  match op with
  | Start _ | Evict _ => false
  | _ => true
  end.

Lemma after_in_place op s :
  in_place op = true -> step_rel W all any_kind s (after W op s).
Proof.
  pose proof all_kinds as HP.
  destruct op; simpl; try discriminate; intros _.
  - eapply step_rel_weaken; [| |apply sat_handle_analysis_complete; kinds_side HP]; auto.
  - eapply step_rel_weaken; [| |apply sat_handle_remediation_proposed; kinds_side HP]; auto.
  - eapply step_rel_weaken; [| |apply sat_handle_approval_received; kinds_side HP]; auto.
  - eapply step_rel_weaken; [| |apply sat_handle_execution_complete; kinds_side HP]; auto.
  - eapply step_rel_weaken; [| |apply sat_fail_workflow; kinds_side HP]; auto.
  - apply sat_update_workflow_status.
  - apply sat_cancel_workflow.
  - apply sat_monitor_tick.
  - apply sat_health_check.
  - apply sat_cleanup.
Qed.
End Operations.

Lemma exec_cleanup_completed_workflow k s :
  exec (_cleanup_completed_workflow k) s =
  set_active (dict_del k (active_workflows s)) s.
Proof. reflexivity. Qed.

Section Timestamps.
Variable W : World.
Hypothesis clock_monotone : monotone W.

Lemma step_keeps_time touch P s s' k w w' :
  step_rel W touch P s s' ->
  lookup k s = Some w -> lookup k s' = Some w' -> keeps_time W s s' w w'.
Proof.
  intros H Hw Hw'. destruct (sr_time _ _ _ _ _ H k w w' Hw Hw') as [Hid Hup].
  split; [|exact Hup]. unfold identity_of in Hid. congruence.
Qed.

Lemma timestamps_ok_step touch P s s' :
  step_rel W touch P s s' -> timestamps_ok W s -> timestamps_ok W s'.
Proof.
  intros H [Hnd Hok]. split; [rewrite (sr_keys _ _ _ _ _ H); exact Hnd|].
  intros k w' Hw'.
  destruct (dict_keys_same_get _ _ (active_workflows s') (active_workflows s)
              k w' (eq_sym (sr_keys _ _ _ _ _ H)) Hw') as [w Hw].
  destruct (step_keeps_time _ _ _ _ _ _ _ H Hw Hw') as [Hc Hup].
  destruct (Hok k w Hw) as [H1 H2].
  pose proof (clock_monotone _ _ (sr_reads _ _ _ _ _ H)) as Hm.
  destruct Hup as [[_ Hu]|[n [[Hn1 Hn2] Hu]]]; rewrite Hc, Hu.
  - lia.
  - assert (clock W (clock_reads s) <= clock W n) by (apply clock_monotone; lia).
    assert (clock W n <= clock W (clock_reads s')) by (apply clock_monotone; lia).
    lia.
Qed.

Lemma timestamps_ok_created p s :
  timestamps_ok W s -> timestamps_ok W (created_state W p s).
Proof.
  intros [Hnd Hok]. split; [apply nodup_dict_set; exact Hnd|].
  intros k w. unfold lookup. simpl.
  destruct (String.eqb_spec k (uuid4 W (uuid_reads s))) as [->|Hne].
  - rewrite dict_get_set_same. intros Hw. inversion Hw; subst w. simpl.
    split; apply clock_monotone; lia.
  - rewrite (dict_get_set_other _ (uuid4 W (uuid_reads s)) k _ _ Hne). intros Hw.
    destruct (Hok k w Hw) as [H1 H2]. split; [exact H1|].
    assert (clock W (clock_reads s) <= clock W (S (S (S (S (clock_reads s))))))
      by (apply clock_monotone; lia).
    lia.
Qed.

Lemma timestamps_ok_after op s :
  timestamps_ok W s -> timestamps_ok W (after W op s).
Proof.
  intros Hs. destruct (in_place op) eqn:Hop.
  - eapply timestamps_ok_step; [apply after_in_place; exact Hop | exact Hs].
  - destruct op; try discriminate.
    + change (after W (Start p) s) with (exec (_start_incident_workflow W p) s).
      rewrite exec_start_incident_workflow.
      eapply timestamps_ok_step;
        [apply (sat_trigger_rca_analysis W any_kind); reflexivity|].
      apply timestamps_ok_created. exact Hs.
    + change (after W (Evict k) s) with (exec (_cleanup_completed_workflow k) s).
      rewrite exec_cleanup_completed_workflow.
      destruct Hs as [Hnd Hok]. split; [apply nodup_dict_del; exact Hnd|].
      intros k' w Hw'. apply (Hok k' w).
      exact (proj2 (dict_get_del _ _ _ _ _ Hnd Hw')).
Qed.

Lemma reachable_timestamps_ok s : reachable W s -> timestamps_ok W s.
Proof.
  induction 1 as [s Hs|s op _ IH].
  - split; [rewrite Hs; constructor|]. intros k w. unfold lookup. rewrite Hs.
    discriminate.
  - apply timestamps_ok_after. exact IH.
Qed.

Lemma start_keeps_time p s k w w' :
  k <> uuid4 W (uuid_reads s) ->
  lookup k s = Some w ->
  lookup k (after W (Start p) s) = Some w' ->
  keeps_time W s (after W (Start p) s) w w'.
Proof.
  change (after W (Start p) s) with (exec (_start_incident_workflow W p) s).
  rewrite exec_start_incident_workflow. intros Hnew Hw Hw'.
  assert (Hc : lookup k (created_state W p s) = Some w).
  { unfold lookup, created_state. cbn [active_workflows].
    rewrite (dict_get_set_other _ (uuid4 W (uuid_reads s)) k _ _ Hnew).
    exact Hw. }
  pose proof (sat_trigger_rca_analysis W any_kind (uuid4 W (uuid_reads s))
                eq_refl (created_state W p s)) as Hstep.
  destruct (step_keeps_time _ _ _ _ _ _ _ Hstep Hc Hw') as [H1 H2].
  split; [exact H1|]. destruct H2 as [H2|[n [Hn Hu]]]; [left; exact H2|].
  right. exists n. split; [|exact Hu].
  unfold created_state in Hn at 1. cbn [clock_reads] in Hn. lia.
Qed.

Lemma evict_keeps_time k0 s k w w' :
  NoDup (dict_keys (active_workflows s)) ->
  lookup k s = Some w ->
  lookup k (after W (Evict k0) s) = Some w' ->
  keeps_time W s (after W (Evict k0) s) w w'.
Proof.
  change (after W (Evict k0) s) with (exec (_cleanup_completed_workflow k0) s).
  rewrite exec_cleanup_completed_workflow. intros Hnd Hw Hw'.
  destruct (dict_get_del _ _ _ _ _ Hnd Hw') as [_ Hg].
  unfold lookup in Hw. rewrite Hw in Hg. inversion Hg; subst w'.
  split; [reflexivity|]. left. split; reflexivity.
Qed.

Lemma after_keeps_time op s k w w' :
  timestamps_ok W s ->
  lookup k s = Some w -> lookup k (after W op s) = Some w' ->
  ~ creates W s op k -> keeps_time W s (after W op s) w w'.
Proof.
  intros [Hnd _] Hw Hw' Hnew. destruct (in_place op) eqn:Hop.
  - eapply step_keeps_time; [apply after_in_place; exact Hop | exact Hw | exact Hw'].
  - destruct op; try discriminate.
    + exact (start_keeps_time _ s k w w' Hnew Hw Hw').
    + exact (evict_keeps_time _ s k w w' Hnd Hw Hw').
Qed.
End Timestamps.

(** C8, as the code has it.  The two time stamps of a record are separate
    readings of the wall clock, which the code never compares.  With a
    clock that never goes back, in every state the agent
    reaches from an empty store every record has
    [created_at <= updated_at]; and an operation that keeps a record (and
    does not store a new one under its id) leaves its [created_at] as it
    was and, when it changes its stage, sets [updated_at] to a clock
    reading taken during the operation. *)
Theorem timestamps_stay_ordered (W : World) (s : State) :
  monotone W ->
  reachable W s ->
  (forall k w, lookup k s = Some w -> created_at w <= updated_at w) /\
  (forall op k w w',
      lookup k s = Some w -> lookup k (after W op s) = Some w' ->
      ~ creates W s op k ->
      created_at w' = created_at w /\
      (status w' <> status w ->
       exists n, (clock_reads s <= n < clock_reads (after W op s))%nat /\
                 updated_at w' = clock W n)).
Proof.
  intros Hmono Hreach.
  pose proof (reachable_timestamps_ok W Hmono s Hreach) as Hok.
  split.
  - intros k w Hw. exact (proj1 (proj2 Hok k w Hw)).
  - intros op k w w' Hw Hw' Hnew.
    destruct (after_keeps_time W op s k w w' Hok Hw Hw' Hnew) as [Hc Hup].
    split; [exact Hc|]. intros Hst.
    destruct Hup as [[Hsame _]|Hn]; [contradiction | exact Hn].
Qed.

Definition ex_state_empty : State := ex_state ex_clients [] 0.

Lemma ex_clock_monotone : monotone ex_world_ok.
Proof.
  intros m n H. unfold ex_world_ok, clock, second. lia.
Qed.

Lemma timestamps_stay_ordered_witness :
  (forall k w,
      lookup k (after ex_world_ok (Start ex_payload) ex_state_empty) = Some w ->
      created_at w <= updated_at w) /\
  (forall op k w w',
      lookup k (after ex_world_ok (Start ex_payload) ex_state_empty) = Some w ->
      lookup k (after ex_world_ok op
                  (after ex_world_ok (Start ex_payload) ex_state_empty)) = Some w' ->
      ~ creates ex_world_ok
          (after ex_world_ok (Start ex_payload) ex_state_empty) op k ->
      created_at w' = created_at w /\
      (status w' <> status w ->
       exists n,
         (clock_reads (after ex_world_ok (Start ex_payload) ex_state_empty) <= n
          < clock_reads (after ex_world_ok op
                           (after ex_world_ok (Start ex_payload) ex_state_empty)))%nat /\
         updated_at w' = clock ex_world_ok n)).
Proof.
  exact (timestamps_stay_ordered ex_world_ok
           (after ex_world_ok (Start ex_payload) ex_state_empty)
           ex_clock_monotone
           (reach_op ex_world_ok ex_state_empty (Start ex_payload)
              (reach_empty ex_world_ok ex_state_empty eq_refl))).
Defined.

(** A world whose wall clock is set back after its second reading: the
    readings are 3616 s, 7201 s, and 3616 s from then on. *)
Definition ex_world_backwards : World :=
  mkWorld (fun n => if Nat.eqb n 1 then 7201 * second else 3616 * second)
          ex_uuid
          (fun _ _ _ _ _ => Returned (PDict []))
          (fun _ => "20240101-000000") (fun _ => "2024-01-01T00:00:00")
          ex_py_str.

(** C8, as stated, fails: when the wall clock is set back during the
    creation of a workflow, the record of the new workflow has a
    [created_at] later than its [updated_at]. *)
Lemma clock_set_back_breaks_the_order :
  ~ (forall k w,
        lookup k (after ex_world_backwards (Start ex_payload) ex_state_empty)
        = Some w ->
        created_at w <= updated_at w).
Proof.
  intros H.
  assert (E : option_map (fun w => (created_at w, updated_at w))
                (lookup (uuid4 ex_world_backwards 0)
                   (after ex_world_backwards (Start ex_payload) ex_state_empty))
              = Some (7201 * second, 3616 * second))
    by (vm_compute; reflexivity).
  destruct (lookup (uuid4 ex_world_backwards 0)
              (after ex_world_backwards (Start ex_payload) ex_state_empty))
    as [w|] eqn:Hw; [|discriminate E].
  specialize (H _ w Hw). cbn [option_map] in E.
  inversion E as [[H1 H2]]. rewrite H1, H2 in H. vm_compute in H.
  apply H. reflexivity.
Qed.

(** * The rest of the agent and of its A2A service *)

(** ** The message handlers of the ADK interface *)

Section ADK.
Variable W : World.

Definition is_str (v : PyVal) : bool :=
  match v with PStr _ => true | _ => false end.

Definition opt_str (o : option string) : PyVal :=
  match o with Some k => PStr k | None => PNone end.

(** [_adk_start_incident_workflow]: the payload is not validated.  The
    first [.get] fails on a value that is not a dictionary, before the
    defaults are evaluated. *)
Definition _adk_start_incident_workflow (failure_payload : PyVal) : M PyVal :=
  try_except
    (match failure_payload with
     | PDict d =>
         u <- new_uuid W ;;
         p <- make_failure_payload W d u ;;
         workflow_id <- _start_incident_workflow W p ;;
         ret (PDict [("success", PBool true);
                     ("workflow_id", opt_str workflow_id);
                     ("message", PStr "Incident workflow started successfully")])
     | _ => raise (AttributeError failure_payload "get")
     end)
    (fun e =>
       ret (PDict [("success", PBool false);
                   ("error", PStr (exn_msg e));
                   ("message", PStr "Failed to start incident workflow")])).

(** [_adk_get_workflow_status] *)
Definition _adk_get_workflow_status (workflow_id : string) : M PyVal :=
  try_except
    (present <- contains workflow_id ;;
     if present then
       w <- obj workflow_id ;;
       ret (PDict [("success", PBool true);
                   ("workflow_id", PStr workflow_id);
                   ("status", PStr (status w));
                   ("incident_id", PStr (incident_id w));
                   ("created_at", PStr (isoformat W (created_at w)));
                   ("updated_at", PStr (isoformat W (updated_at w)))])
     else
       ret (PDict [("success", PBool false);
                   ("error", PStr "Workflow not found");
                   ("workflow_id", PStr workflow_id)]))
    (fun e =>
       ret (PDict [("success", PBool false);
                   ("error", PStr (exn_msg e));
                   ("workflow_id", PStr workflow_id)])).

(** [_handle_adk_failure_notification]: the whole answer of
    [_adk_start_incident_workflow] is passed on as [workflow_id]. *)
Definition _handle_adk_failure_notification (message : Dict) : M PyVal :=
  try_except
    (let failure_payload := get_or message "payload" (PDict []) in
     workflow_id <- _adk_start_incident_workflow failure_payload ;;
     ret (PDict [("status", PStr "success");
                 ("workflow_id", workflow_id);
                 ("message", PStr "Failure notification processed")]))
    (fun e =>
       ret (PDict [("status", PStr "error");
                   ("error", PStr (exn_msg e));
                   ("message", PStr "Failed to process failure notification")])).

Definition adk_update_done (update_type : PyVal) : PyVal :=
  PDict [("status", PStr "success");
         ("message", PStr ("Workflow update " ++ py_str W update_type ++ " processed"))].

(** [_handle_adk_workflow_update] *)
Definition _handle_adk_workflow_update (message : Dict) : M PyVal :=
  try_except
    (let workflow_id := get_or message "workflow_id" PNone in
     let update_type := get_or message "update_type" PNone in
     let data := get_or message "data" (PDict []) in
     if negb (truthy workflow_id) || negb (is_str workflow_id)
     then ret (PDict [("status", PStr "error");
                      ("error", PStr "Invalid workflow_id");
                      ("message", PStr "Workflow ID must be a non-empty string")])
     else if eq_str update_type "analysis_complete" then
       with_id workflow_id (fun k => _handle_analysis_complete W k data) ;;
       ret (adk_update_done update_type)
     else if eq_str update_type "remediation_proposed" then
       with_id workflow_id (fun k => _handle_remediation_proposed W k data) ;;
       ret (adk_update_done update_type)
     else if eq_str update_type "approval_received" then
       with_id workflow_id (fun k => _handle_approval_received W k data) ;;
       ret (adk_update_done update_type)
     else if eq_str update_type "execution_complete" then
       with_id workflow_id (fun k => _handle_execution_complete W k data) ;;
       ret (adk_update_done update_type)
     else
       ret (PDict [("status", PStr "error");
                   ("error", PStr ("Unknown update type: " ++ py_str W update_type));
                   ("message", PStr "Invalid workflow update type")]))
    (fun e =>
       ret (PDict [("status", PStr "error");
                   ("error", PStr (exn_msg e));
                   ("message", PStr "Failed to process workflow update")])).
End ADK.

(** ** The actions of the A2A service *)

Definition service_actions : list string :=
  ["start_incident_workflow"; "update_workflow_status"; "get_workflow_status";
   "cancel_workflow"; "get_active_workflows"; "health_check"].

(** The answer of [execute] to a task that raised. *)
Definition task_failed (task_id : string) (msg : string) : PyVal :=
  PDict [("task_id", PStr task_id);
         ("error", PStr msg);
         ("status", PStr "failed");
         ("message", PStr ("Orchestration task failed: " ++ msg))].

(** The value of a key of an answer. *)
Definition field (f : string) (v : PyVal) : PyVal :=
  match v with
  | PDict d => get_or d f PNone
  | _ => PNone
  end.

Lemma try_ret_ok {A} (m : M A) (h : Exn -> A) s :
  exists a, result (try_except m (fun e => ret (h e))) s = Ok a.
Proof.
  unfold result, try_except. destruct (m s) as [[a|e] s']; simpl; eauto.
Qed.

Lemma execute_eq W task_id request (m : M PyVal) s :
  (let action := get_or request "action" PNone in
   if eq_str action "start_incident_workflow" then
     _handle_start_incident_workflow W task_id request
   else if eq_str action "update_workflow_status" then
     _handle_update_workflow_status W task_id request
   else if eq_str action "get_workflow_status" then
     _handle_get_workflow_status W task_id request
   else if eq_str action "cancel_workflow" then
     _handle_cancel_workflow W task_id request
   else if eq_str action "get_active_workflows" then
     _handle_get_active_workflows W task_id request
   else if eq_str action "health_check" then
     _handle_service_health_check W task_id request
   else raise (ValueError ("Unknown action: " ++ py_str W action))) = m ->
  execute W task_id request s =
  match m s with
  | (Ok v, s') => (Ok v, s')
  | (Raise e, s') => (Ok (task_failed task_id (exn_msg e)), s')
  end.
Proof.
  intros <-. unfold execute, try_except.
  match goal with |- match ?b s with _ => _ end = _ => destruct (b s) as [[v|e] s'] end;
    reflexivity.
Qed.

(** [execute] never raises, and an action it does not know is answered
    with status "failed" and changes nothing. *)
Theorem execute_answers_every_request (W : World) (task_id : string)
        (request : Dict) (s : State) :
  (exists v, result (execute W task_id request) s = Ok v) /\
  ((forall a, In a service_actions ->
              eq_str (get_or request "action" PNone) a = false) ->
   execute W task_id request s =
   (Ok (task_failed task_id
          ("Unknown action: " ++ py_str W (get_or request "action" PNone))), s)).
Proof.
  split; [unfold execute; apply try_ret_ok|].
  intros H. erewrite execute_eq; [|cbv zeta;
    rewrite !H by (unfold service_actions; simpl; tauto); reflexivity].
  reflexivity.
Qed.

Definition ex_unknown_action : Dict := [("action", PStr "restart_agent")].

Lemma execute_answers_every_request_witness :
  execute ex_world_ok "task-1" ex_unknown_action ex_state_no_client =
  (Ok (task_failed "task-1"
         ("Unknown action: " ++ py_str ex_world_ok (PStr "restart_agent"))),
   ex_state_no_client).
Proof.
  apply (proj2 (execute_answers_every_request ex_world_ok "task-1"
                  ex_unknown_action ex_state_no_client)).
  intros a Ha. unfold service_actions in Ha. simpl in Ha.
  destruct Ha as [<-|[<-|[<-|[<-|[<-|[<-|[]]]]]]]; reflexivity.
Defined.

(** The handler [execute] calls for an action that is a string. *)
Definition handler_of (W : World) (action task_id : string) (request : Dict)
  : option (M PyVal) :=
  if (action =? "start_incident_workflow")%string then
    Some (_handle_start_incident_workflow W task_id request)
  else if (action =? "update_workflow_status")%string then
    Some (_handle_update_workflow_status W task_id request)
  else if (action =? "get_workflow_status")%string then
    Some (_handle_get_workflow_status W task_id request)
  else if (action =? "cancel_workflow")%string then
    Some (_handle_cancel_workflow W task_id request)
  else if (action =? "get_active_workflows")%string then
    Some (_handle_get_active_workflows W task_id request)
  else if (action =? "health_check")%string then
    Some (_handle_service_health_check W task_id request)
  else None.

Lemma execute_action W task_id request action (m : M PyVal) s :
  dict_get "action" request = Some (PStr action) ->
  handler_of W action task_id request = Some m ->
  execute W task_id request s =
  match m s with
  | (Ok v, s') => (Ok v, s')
  | (Raise e, s') => (Ok (task_failed task_id (exn_msg e)), s')
  end.
Proof.
  intros Hact Hm. unfold execute, try_except, get_or. rewrite Hact. cbv zeta.
  unfold eq_str. unfold handler_of in Hm.
  repeat (destruct (String.eqb action _);
          [inversion Hm; subst m;
           match goal with
           | |- match ?b s with _ => _ end = _ => destruct (b s) as [[v|e] s']
           end; reflexivity|]).
  discriminate.
Qed.

Ltac dispatch Hact :=
  unfold exec, result;
  erewrite execute_action; [|exact Hact|reflexivity].

(** The [get_workflow_status] action never changes the state.  For a
    non-empty string id it reports the stored record, or "not_found"; a
    request without an id is answered with status "failed". *)
Theorem status_query_is_read_only (W : World) (task_id : string)
        (request : Dict) (s : State) :
  dict_get "action" request = Some (PStr "get_workflow_status") ->
  exec (execute W task_id request) s = s /\
  (forall k, dict_get "workflow_id" request = Some (PStr k) -> k <> "" ->
     result (execute W task_id request) s =
     Ok (match lookup k s with
         | Some w =>
             PDict [("task_id", PStr task_id);
                    ("workflow_id", PStr k);
                    ("status", PStr (status w));
                    ("incident_id", PStr (incident_id w));
                    ("created_at", PStr (isoformat W (created_at w)));
                    ("updated_at", PStr (isoformat W (updated_at w)));
                    ("analysis_result", analysis_result w);
                    ("remediation_action", remediation_action w);
                    ("approval_response", approval_response w);
                    ("execution_result", execution_result w);
                    ("error_message", error_message w)]
         | None =>
             PDict [("task_id", PStr task_id);
                    ("workflow_id", PStr k);
                    ("status", PStr "not_found");
                    ("message", PStr ("Workflow " ++ py_str W (PStr k)
                                      ++ " not found"))]
         end)) /\
  (dict_get "workflow_id" request = None ->
   result (execute W task_id request) s =
   Ok (task_failed task_id "Missing workflow_id in request")).
Proof.
  intros Hact. split; [|split].
  - dispatch Hact.
    unfold _handle_get_workflow_status, get_or, bind, get_state, ret, raise.
    destruct (dict_get "workflow_id" request) as [v|]; [|reflexivity].
    destruct (truthy v); [|reflexivity]. cbn [negb].
    destruct v; try reflexivity.
    destruct (lookup s0 s); reflexivity.
  - intros k Hid Hk. dispatch Hact.
    unfold _handle_get_workflow_status, get_or, bind, get_state, ret, raise.
    rewrite Hid. cbn [truthy]. apply String.eqb_neq in Hk. rewrite Hk. cbn [negb].
    destruct (lookup k s); reflexivity.
  - intros Hid. dispatch Hact.
    unfold _handle_get_workflow_status, get_or, bind, get_state, ret, raise.
    rewrite Hid. reflexivity.
Qed.

Definition ex_status_request : Dict :=
  [("action", PStr "get_workflow_status"); ("workflow_id", PStr "w1")].

Lemma status_query_is_read_only_witness :
  exec (execute ex_world_ok "task-1" ex_status_request) ex_state_completed
  = ex_state_completed /\
  field "status"
    (match result (execute ex_world_ok "task-1" ex_status_request) ex_state_completed
     with Ok v => v | Raise _ => PNone end) = PStr "completed".
Proof.
  destruct (status_query_is_read_only ex_world_ok "task-1" ex_status_request
              ex_state_completed eq_refl) as (H1 & H2 & _).
  split; [exact H1|].
  assert (Hk : "w1" <> "") by discriminate.
  rewrite (H2 "w1" eq_refl Hk). reflexivity.
Defined.

(** The [get_active_workflows] action never changes the state and lists
    one entry per stored workflow, in the order of the store, with its id
    and stage; [total_count] is the size of the store. *)
Theorem active_workflows_are_listed (W : World) (task_id : string)
        (request : Dict) (s : State) :
  dict_get "action" request = Some (PStr "get_active_workflows") ->
  exec (execute W task_id request) s = s /\
  exists entries,
    result (execute W task_id request) s =
    Ok (PDict [("task_id", PStr task_id);
               ("status", PStr "success");
               ("active_workflows", PList entries);
               ("total_count", len (active_workflows s))]) /\
    map (field "workflow_id") entries =
    map (fun kw => PStr (fst kw)) (active_workflows s) /\
    map (field "status") entries =
    map (fun kw => PStr (status (snd kw))) (active_workflows s).
Proof.
  intros Hact. split.
  - dispatch Hact. reflexivity.
  - eexists. split; [|split].
    + dispatch Hact.
      unfold _handle_get_active_workflows, bind, get_state, ret, len.
      cbv zeta. rewrite length_map. reflexivity.
    + rewrite map_map. apply map_ext. intros [k w]. reflexivity.
    + rewrite map_map. apply map_ext. intros [k w]. reflexivity.
Qed.

Definition ex_list_request : Dict := [("action", PStr "get_active_workflows")].

Lemma active_workflows_are_listed_witness :
  exec (execute ex_world_ok "task-1" ex_list_request) ex_state_completed
  = ex_state_completed /\
  exists entries,
    result (execute ex_world_ok "task-1" ex_list_request) ex_state_completed =
    Ok (PDict [("task_id", PStr "task-1");
               ("status", PStr "success");
               ("active_workflows", PList entries);
               ("total_count", PInt 2)]) /\
    map (field "workflow_id") entries = [PStr "w1"; PStr "w2"] /\
    map (field "status") entries = [PStr "completed"; PStr "analyzing"].
Proof.
  exact (active_workflows_are_listed ex_world_ok "task-1" ex_list_request
           ex_state_completed eq_refl).
Defined.

(** The [cancel_workflow] action fails the workflow with the reason of the
    request, whatever stage it is in, and answers "cancelled"; for an id
    that is not in the store it answers "cancelled" too and changes
    nothing. *)
Theorem cancel_fails_the_workflow (W : World) (task_id : string)
        (request : Dict) (s : State) (k : string) :
  dict_get "action" request = Some (PStr "cancel_workflow") ->
  dict_get "workflow_id" request = Some (PStr k) ->
  k <> "" ->
  let reason := get_or request "reason" (PStr "Cancelled by user") in
  result (execute W task_id request) s =
  Ok (PDict [("task_id", PStr task_id);
             ("workflow_id", PStr k);
             ("status", PStr "cancelled");
             ("message", PStr ("Workflow " ++ py_str W (PStr k)
                               ++ " cancelled: " ++ py_str W reason))]) /\
  exec (execute W task_id request) s =
  match lookup k s with
  | Some w => fail_state W k (PStr ("Cancelled: " ++ py_str W reason)) w s
  | None => s
  end.
Proof.
  intros Hact Hid Hk reason. apply String.eqb_neq in Hk.
  split; dispatch Hact;
    unfold _handle_cancel_workflow, get_or, with_id, bind, ret;
    rewrite Hid; cbn [truthy]; rewrite Hk; cbn [negb];
    (destruct (lookup k s) as [w|] eqn:Hw;
     [rewrite (fail_workflow_present W k _ s w Hw)
     |rewrite (fail_workflow_absent W k _ s Hw)]); reflexivity.
Qed.

Definition ex_cancel_request : Dict :=
  [("action", PStr "cancel_workflow"); ("workflow_id", PStr "w1")].

Lemma cancel_fails_the_workflow_witness :
  failed_with (PStr ("Cancelled: " ++ py_str ex_world_ok (PStr "Cancelled by user")))
    "w1" (exec (execute ex_world_ok "task-1" ex_cancel_request) ex_state_completed).
Proof.
  assert (Hk : "w1" <> "") by discriminate.
  rewrite (proj2 (cancel_fails_the_workflow ex_world_ok "task-1" ex_cancel_request
                    ex_state_completed "w1" eq_refl eq_refl Hk)).
  eexists. split; [apply lookup_fail_state_same|]. split; reflexivity.
Defined.

(** ** The store of workflow records *)

(** Every id is stored once, under its own id. *)
Definition store_ok (s : State) : Prop :=
  NoDup (dict_keys (active_workflows s)) /\
  forall k w, lookup k s = Some w -> workflow_id w = k.

Section AssocListDel.
Variable V : Type.
Implicit Types (d : list (string * V)).

Lemma dict_del_absent k d : dict_get k d = None -> dict_del k d = d.
Proof.
  induction d as [|[k0 v0] r IH]; simpl; [reflexivity|].
  destruct (k0 =? k)%string; [discriminate|]. intros H. now rewrite IH.
Qed.

Lemma dict_get_del_other k k' d :
  k' <> k -> dict_get k' (dict_del k d) = dict_get k' d.
Proof.
  intros Hne. induction d as [|[k0 v0] r IH]; simpl; [reflexivity|].
  destruct (k0 =? k)%string eqn:E; simpl.
  - apply String.eqb_eq in E. subst k0.
    destruct (k =? k')%string eqn:E'; [|reflexivity].
    apply String.eqb_eq in E'. congruence.
  - destruct (k0 =? k')%string; [reflexivity | exact IH].
Qed.

Lemma dict_get_del_same k d :
  NoDup (dict_keys d) -> dict_get k (dict_del k d) = None.
Proof.
  intros Hnd. destruct (dict_get k (dict_del k d)) as [v|] eqn:E; [|reflexivity].
  destruct (dict_get_del _ _ _ _ _ Hnd E) as [Hne _]. congruence.
Qed.
End AssocListDel.

Section Store.
Variable W : World.

Lemma store_ok_step touch P s s' :
  step_rel W touch P s s' -> store_ok s -> store_ok s'.
Proof.
  intros H [Hnd Hid]. split; [rewrite (sr_keys _ _ _ _ _ H); exact Hnd|].
  intros k w' Hw'.
  destruct (dict_keys_same_get _ _ (active_workflows s') (active_workflows s)
              k w' (eq_sym (sr_keys _ _ _ _ _ H)) Hw') as [w Hw].
  destruct (sr_time _ _ _ _ _ H k w w' Hw Hw') as [Hi _].
  unfold identity_of in Hi. rewrite <- (Hid k w Hw). congruence.
Qed.

Lemma store_ok_created p s : store_ok s -> store_ok (created_state W p s).
Proof.
  intros [Hnd Hid]. split; [apply nodup_dict_set; exact Hnd|].
  intros k w. unfold lookup, created_state. cbn [active_workflows].
  destruct (String.eqb_spec k (uuid4 W (uuid_reads s))) as [->|Hne].
  - rewrite dict_get_set_same. intros Hw. inversion Hw. reflexivity.
  - rewrite (dict_get_set_other _ (uuid4 W (uuid_reads s)) k _ _ Hne).
    apply Hid.
Qed.

Lemma store_ok_after op s : store_ok s -> store_ok (after W op s).
Proof.
  intros Hs. destruct (in_place op) eqn:Hop.
  - eapply store_ok_step; [apply after_in_place; exact Hop | exact Hs].
  - destruct op; try discriminate.
    + change (after W (Start p) s) with (exec (_start_incident_workflow W p) s).
      rewrite exec_start_incident_workflow.
      eapply store_ok_step;
        [apply (sat_trigger_rca_analysis W any_kind); reflexivity|].
      apply store_ok_created. exact Hs.
    + change (after W (Evict k) s) with (exec (_cleanup_completed_workflow k) s).
      rewrite exec_cleanup_completed_workflow.
      destruct Hs as [Hnd Hid]. split; [apply nodup_dict_del; exact Hnd|].
      intros k' w Hw'. apply Hid.
      exact (proj2 (dict_get_del _ _ _ _ _ Hnd Hw')).
Qed.
End Store.

Lemma reachable_store_ok (W : World) (s : State) : reachable W s -> store_ok s.
Proof.
  induction 1 as [s Hs|s op _ IH].
  - split; [rewrite Hs; constructor|]. intros k w. unfold lookup. rewrite Hs.
    discriminate.
  - apply store_ok_after. exact IH.
Qed.

(** In every state the agent reaches from an empty store, each workflow id
    is stored once and the record stored under an id carries that id. *)
Theorem reachable_store_is_keyed_by_id (W : World) (s : State) :
  reachable W s ->
  NoDup (dict_keys (active_workflows s)) /\
  forall k w, lookup k s = Some w -> workflow_id w = k.
Proof. apply reachable_store_ok. Qed.

Lemma reachable_store_is_keyed_by_id_witness :
  NoDup (dict_keys (active_workflows
                      (after ex_world_ok (Start ex_payload) ex_state_empty))) /\
  forall k w,
    lookup k (after ex_world_ok (Start ex_payload) ex_state_empty) = Some w ->
    workflow_id w = k.
Proof.
  exact (reachable_store_is_keyed_by_id ex_world_ok
           (after ex_world_ok (Start ex_payload) ex_state_empty)
           (reach_op ex_world_ok ex_state_empty (Start ex_payload)
              (reach_empty ex_world_ok ex_state_empty eq_refl))).
Defined.

(** After its five minutes, [_cleanup_completed_workflow] takes the record
    of its workflow out of the store and leaves every other record as it
    is; for an id that is not in the store it changes nothing. *)
Theorem eviction_removes_the_record (W : World) (s : State) (k : string) :
  reachable W s ->
  lookup k (exec (_cleanup_completed_workflow k) s) = None /\
  (forall k', k' <> k ->
              lookup k' (exec (_cleanup_completed_workflow k) s) = lookup k' s) /\
  (lookup k s = None -> exec (_cleanup_completed_workflow k) s = s).
Proof.
  intros Hr. destruct (reachable_store_ok W s Hr) as [Hnd _].
  rewrite exec_cleanup_completed_workflow. unfold lookup. cbn [active_workflows set_active].
  split; [|split].
  - destruct s; apply dict_get_del_same; exact Hnd.
  - intros k' Hne. destruct s; apply dict_get_del_other; exact Hne.
  - intros Habs. destruct s. unfold set_active. cbn in *.
    now rewrite (dict_del_absent _ _ _ Habs).
Qed.

Lemma eviction_removes_the_record_witness :
  lookup (uuid4 ex_world_ok 0)
    (exec (_cleanup_completed_workflow (uuid4 ex_world_ok 0))
          (after ex_world_ok (Start ex_payload) ex_state_empty)) = None.
Proof.
  exact (proj1 (eviction_removes_the_record ex_world_ok
                  (after ex_world_ok (Start ex_payload) ex_state_empty)
                  (uuid4 ex_world_ok 0)
                  (reach_op ex_world_ok ex_state_empty (Start ex_payload)
                     (reach_empty ex_world_ok ex_state_empty eq_refl)))).
Defined.

(** No operation rewrites the audit trail or the trace of stage
    transitions (both only grow), none assigns the configuration, and only
    the creation and the eviction of a workflow change the ids in the
    store. *)
Theorem operations_only_append (W : World) (op : Op) (s : State) :
  (exists l, events (after W op s) = (events s ++ l)%list) /\
  (exists l, transitions (after W op s) = (transitions s ++ l)%list) /\
  config (after W op s) = config s /\
  (in_place op = true ->
   dict_keys (active_workflows (after W op s)) = dict_keys (active_workflows s)).
Proof.
  destruct (in_place op) eqn:Hop.
  - pose proof (after_in_place W op s Hop) as H.
    destruct (sr_events _ _ _ _ _ H) as [l [Hl _]].
    destruct (sr_trans _ _ _ _ _ H) as [t [Ht _]].
    split; [eauto|]. split; [eauto|]. split; [exact (sr_config _ _ _ _ _ H)|].
    intros _. exact (sr_keys _ _ _ _ _ H).
  - destruct op; try discriminate.
    + change (after W (Start p) s) with (exec (_start_incident_workflow W p) s).
      rewrite exec_start_incident_workflow.
      pose proof (sat_trigger_rca_analysis W any_kind (uuid4 W (uuid_reads s))
                    eq_refl (created_state W p s)) as H.
      destruct (sr_events _ _ _ _ _ H) as [l [Hl _]].
      destruct (sr_trans _ _ _ _ _ H) as [t [Ht _]].
      split; [|split; [|split]].
      * rewrite Hl. unfold created_state at 1. cbn [events].
        rewrite <- app_assoc. eauto.
      * rewrite Ht. unfold created_state at 1. cbn [transitions]. eauto.
      * rewrite (sr_config _ _ _ _ _ H). reflexivity.
      * discriminate.
    + change (after W (Evict k) s) with (exec (_cleanup_completed_workflow k) s).
      rewrite exec_cleanup_completed_workflow.
      split; [exists []; now rewrite app_nil_r|].
      split; [exists []; now rewrite app_nil_r|].
      split; [reflexivity | discriminate].
Qed.

Lemma operations_only_append_witness :
  dict_keys (active_workflows (after ex_world_ok Shutdown ex_state_completed)) =
  dict_keys (active_workflows ex_state_completed).
Proof.
  exact (proj2 (proj2 (proj2 (operations_only_append ex_world_ok Shutdown
                                ex_state_completed))) eq_refl).
Defined.

(** ** Remote calls *)

(** The audit event [_a2a_call] writes when the call fails. *)
Definition a2a_call_failed (service skill msg corr : string) : PyVal :=
  PDict [("service", PStr service); ("skill", PStr skill);
         ("error", PStr msg); ("correlation_id", PStr corr)].

Definition no_method (service : string) : string :=
  "A2A client for " ++ service ++ " has no invoke/call method".

(** The outcomes of [_a2a_call].  Without a client for the service it
    raises "No A2A client available" and touches nothing.  With a client
    that has [invoke] or [call], a reply is returned as it is and nothing
    is logged, and an exception of the call is logged as one
    [a2a_call_failed] event and raised again as a [RuntimeError] that
    names service and skill.  A client with neither method is never
    called; this is logged and raised in the same way. *)
Theorem a2a_call_outcomes (W : World) (service skill : string) (payload : PyVal)
        (timeout : Z) (corr : string) (s : State) :
  let call := _a2a_call W service skill payload timeout corr in
  let failed msg s0 :=
    result call s = Raise (RuntimeError ("A2A call failed for " ++ service ++ "."
                                         ++ skill ++ ": " ++ msg)) /\
    exec call s =
    set_events (events s ++ [mkEvent (clock W (clock_reads s)) "a2a_call_failed"
                               (a2a_call_failed service skill msg corr)])%list
               (set_clock_reads (S (clock_reads s)) s0) in
  (dict_get service (a2a_clients s) = None ->
   call s = (Raise (RuntimeError ("No A2A client available for service '"
                                   ++ service ++ "'")), s)) /\
  (forall client,
      dict_get service (a2a_clients s) = Some client ->
      has_invoke client || has_call client = true ->
      match a2a_reply W (a2a_calls s) service skill payload timeout with
      | Returned v => call s = (Ok v, set_a2a_calls (S (a2a_calls s)) s)
      | Raised e => failed (exn_msg e) (set_a2a_calls (S (a2a_calls s)) s)
      end) /\
  (forall client,
      dict_get service (a2a_clients s) = Some client ->
      has_invoke client || has_call client = false ->
      failed (no_method service) s).
Proof.
  cbv zeta. unfold exec, result, _a2a_call, bind, get_state.
  split; [|split].
  - intros H. rewrite H. reflexivity.
  - intros client H Hm. rewrite H.
    unfold try_except, remote, raise, _log_mcp_event, bind, now, modify.
    destruct (has_invoke client); [|destruct (has_call client); [|discriminate]];
      destruct (a2a_reply W (a2a_calls s) service skill payload timeout);
      try reflexivity; split; reflexivity.
  - intros client H Hm. rewrite H.
    unfold try_except, remote, raise, _log_mcp_event, bind, now, modify.
    destruct (has_invoke client); [discriminate|].
    destruct (has_call client); [discriminate|]. split; reflexivity.
Qed.

Lemma a2a_call_outcomes_witness :
  _a2a_call ex_world_ok "rca" "analyze_failure" (PDict []) 45 "wf-w1"
    ex_state_no_client
  = (Raise (RuntimeError "No A2A client available for service 'rca'"),
     ex_state_no_client) /\
  _a2a_call ex_world_ok "rca" "analyze_failure" (PDict []) 45 "wf-w1"
    ex_state_completed
  = (Ok (PDict []), set_a2a_calls 1 ex_state_completed).
Proof.
  split.
  - exact (proj1 (a2a_call_outcomes ex_world_ok "rca" "analyze_failure" (PDict [])
                    45 "wf-w1" ex_state_no_client) eq_refl).
  - exact (proj1 (proj2 (a2a_call_outcomes ex_world_ok "rca" "analyze_failure"
                           (PDict []) 45 "wf-w1" ex_state_completed))
             (mkA2AClient true false) eq_refl eq_refl).
Defined.

(** ** The webhook, for any body *)

(** A notification either starts a workflow and is answered with 200, or
    is answered with 400 or 500 and leaves the agent's state as it was.
    A body that fails JSON decoding gets 400 "Invalid JSON"; a body that
    cannot be read for another reason (one that is not valid UTF-8, say)
    gets 500, and so does a body that is JSON but not an object. *)
Theorem webhook_is_all_or_nothing (W : World) (body : Body) (s : State) :
  uuid4 W (S (uuid_reads s)) <> "" ->
  _handle_playwright_webhook W BadJSON s =
  (Ok (mkResponse 400 (PStr "Invalid JSON")), s) /\
  _handle_playwright_webhook W Unreadable s =
  (Ok (mkResponse 500 (PStr "Internal server error")), s) /\
  (forall v, is_dict v = false ->
             _handle_playwright_webhook W (Json v) s =
             (Ok (mkResponse 500 (PStr "Internal server error")), s)) /\
  exists resp,
    result (_handle_playwright_webhook W body) s = Ok resp /\
    ((resp_status resp = 200 /\
      lookup (uuid4 W (S (uuid_reads s)))
             (exec (_handle_playwright_webhook W body) s) <> None) \/
     ((resp_status resp = 400 \/ resp_status resp = 500) /\
      exec (_handle_playwright_webhook W body) s = s)).
Proof.
  intros Hid.
  assert (Hbad : forall v, is_dict v = false ->
             _handle_playwright_webhook W (Json v) s =
             (Ok (mkResponse 500 (PStr "Internal server error")), s)).
  { intros v Hv. destruct v; try discriminate; reflexivity. }
  split; [reflexivity|]. split; [reflexivity|]. split; [exact Hbad|].
  destruct body as [| |v].
  - eexists. split; [reflexivity|]. right. split; [left|]; reflexivity.
  - eexists. split; [reflexivity|]. right. split; [right|]; reflexivity.
  - destruct (is_dict v) eqn:Hv.
    + destruct v as [| | | | | |d]; try discriminate.
      destruct (_validate_failure_payload d) eqn:Hd.
      * pose proof (hoare_run _ _ _ _ s
                      (hoare_webhook_valid W (uuid_reads s) d Hd Hid) eq_refl) as Hh.
        destruct (result (_handle_playwright_webhook W (Json (PDict d))) s)
          as [r|e]; [|contradiction].
        destruct Hh as [-> Hl]. eexists. split; [reflexivity|]. left.
        split; [reflexivity | exact Hl].
      * exists (mkResponse 400 (PStr "Invalid payload")).
        unfold result, exec, _handle_playwright_webhook, try_except.
        rewrite Hd. split; [reflexivity|]. right. split; [left|]; reflexivity.
    + exists (mkResponse 500 (PStr "Internal server error")).
      unfold result, exec. rewrite (Hbad v Hv). split; [reflexivity|].
      right. split; [right|]; reflexivity.
Qed.

Lemma webhook_is_all_or_nothing_witness :
  _handle_playwright_webhook ex_world_ok (Json (PList [])) ex_state_no_client =
  (Ok (mkResponse 500 (PStr "Internal server error")), ex_state_no_client).
Proof.
  assert (Hid : uuid4 ex_world_ok (S (uuid_reads ex_state_no_client)) <> "")
    by discriminate.
  exact (proj1 (proj2 (proj2 (webhook_is_all_or_nothing ex_world_ok BadJSON
                                ex_state_no_client Hid))) (PList []) eq_refl).
Defined.

(** ** Health *)

(** The answer of [GET /health] depends on the webhook server alone: 200
    when it is in place, whatever the workflows are like, and 503 when it
    is not; in that case the check looks at no workflow and changes
    nothing. *)
Theorem health_depends_on_the_server_alone (W : World) (s : State) :
  (exists body,
      result (_handle_health_check W) s =
      Ok (mkResponse (match server s with Some _ => 200 | None => 503 end) body)) /\
  (server s = None -> exec (_handle_health_check W) s = s).
Proof.
  destruct (server s) as [site|] eqn:Hsrv.
  - split; [|discriminate].
    assert (H : hoare (fun x => x = s) (_handle_health_check W)
                  (fun r _ => exists body, r = mkResponse 200 body)
                  (fun _ _ => False)).
    { unfold _handle_health_check.
      eapply hoare_bind; [apply (hoare_health_check W s site Hsrv)|].
      intros healthy. apply hoare_pure. intros ->.
      apply hoare_get_state. intros s1 _. apply hoare_ret.
      intros x _. eexists; reflexivity. }
    pose proof (hoare_run _ _ _ _ s H eq_refl) as Hr.
    destruct (result (_handle_health_check W) s) as [r|e]; [|contradiction].
    destruct Hr as [body ->]. eauto.
  - unfold result, exec, _handle_health_check, health_check, try_except, bind,
      get_state, ret.
    rewrite Hsrv. cbn. split; [eexists; reflexivity | reflexivity].
Qed.

Definition ex_state_no_server : State :=
  mkState "orchestrator-1" 0 [("w1", ex_workflow "w1" "analyzing" 0 0)]
    ["rca-agent-localhost:8000"] ["remediation-agent-localhost:8001"]
    ["approval-agent-localhost:8002"]
    ex_clients ex_services None None [] [] 5000 0 0 [].

Lemma health_depends_on_the_server_alone_witness :
  exec (_handle_health_check ex_world_ok) ex_state_no_server = ex_state_no_server.
Proof.
  exact (proj2 (health_depends_on_the_server_alone ex_world_ok ex_state_no_server)
           eq_refl).
Defined.

(** ** A stage result that is not an object *)

(** What [str(e)] is when [.get] is called on [v]. *)
Definition no_get (v : PyVal) : string := exn_msg (AttributeError v "get").

(** Workflow [k] is failed with message [msg], and its record satisfies
    [psi]. *)
Definition failed_keeping (k : string) (msg : string)
           (psi : WorkflowState -> Prop) (s : State) : Prop :=
  exists w, lookup k s = Some w /\ status w = "failed" /\
            error_message w = PStr msg /\ psi w.

Lemma hoare_lift_raise {A} (P : State -> Prop) e (Q : A -> State -> Prop)
      (E : Exn -> State -> Prop) :
  (forall s, P s -> E e s) -> hoare P (lift (Raise e)) Q E.
Proof. intros H s Hs. simpl. auto. Qed.

Lemma py_get_not_dict v f d : is_dict v = false -> py_get v f d = Raise (AttributeError v "get").
Proof. destruct v; try discriminate; reflexivity. Qed.

Section BadResult.
Variable W : World.
Variable k : string.

Lemma hoare_fail_stored msg (phi : WorkflowState -> Prop) (E : Exn -> State -> Prop) :
  (forall w s0, phi w -> phi (fail_record W s0 (PStr msg) w)) ->
  hoare (fun s => exists w, lookup k s = Some w /\ phi w)
        (_fail_workflow W k (PStr msg))
        (fun _ => failed_keeping k msg phi) E.
Proof.
  intros H s [w [Hw Hphi]]. rewrite (fail_workflow_present W k _ s w Hw).
  exists (fail_record W s (PStr msg) w). split; [apply lookup_fail_state_same|].
  split; [reflexivity|]. split; [reflexivity|]. apply H. exact Hphi.
Qed.

Ltac bad_result s w Hw v Hv psi :=
  eapply hoare_try with
    (E' := fun e x => e = AttributeError v "get" /\
                      exists w0, lookup k x = Some w0 /\ psi w0);
  [ eapply hoare_pre with
      (P' := tracked k (config s) anything anything anything anything);
    [|intros ? ->; split; [reflexivity|]; split; [exists w; split; [exact Hw | exact I]|];
      repeat split];
    eapply hoare_bind;
      [apply tr_contains | intros ?b; apply hoare_pure; intros ->; cbn [negb]];
    eapply hoare_bind;
      [apply (tr_assign k (config s) anything psi); intros; reflexivity | intros ?u];
    eapply hoare_bind;
      [apply (tr_touch_updated_at W k (config s) psi psi); intros ? ? ?H; exact H
      | intros ?u];
    rewrite (py_get_not_dict v _ _ Hv);
    eapply hoare_bind; [|intros; apply hoare_false];
    apply hoare_lift_raise; intros ? (_ & ?Hx & _); split; [reflexivity | exact Hx]
  | intros ?e; apply hoare_pure; intros ->;
    apply (hoare_fail_stored _ psi (fun _ _ => False));
    intros ? ? ?H; exact H ].

Lemma bad_analysis_result s w v :
  lookup k s = Some w -> is_dict v = false ->
  hoare (fun x => x = s) (_handle_analysis_complete W k v)
        (fun _ => failed_keeping k ("Analysis handling error: " ++ no_get v)
                    (fun w' => analysis_result w' = v))
        (fun _ _ => False).
Proof.
  intros Hw Hv. unfold _handle_analysis_complete.
  bad_result s w Hw v Hv (fun w' : WorkflowState => analysis_result w' = v).
Qed.

Lemma bad_remediation_action s w v :
  lookup k s = Some w -> is_dict v = false ->
  hoare (fun x => x = s) (_handle_remediation_proposed W k v)
        (fun _ => failed_keeping k ("Remediation handling error: " ++ no_get v)
                    (fun w' => remediation_action w' = v))
        (fun _ _ => False).
Proof.
  intros Hw Hv. unfold _handle_remediation_proposed.
  bad_result s w Hw v Hv (fun w' : WorkflowState => remediation_action w' = v).
Qed.

Lemma bad_approval_response s w v :
  lookup k s = Some w -> is_dict v = false ->
  hoare (fun x => x = s) (_handle_approval_received W k v)
        (fun _ => failed_keeping k ("Approval handling error: " ++ no_get v)
                    (fun w' => approval_response w' = v))
        (fun _ _ => False).
Proof.
  intros Hw Hv. unfold _handle_approval_received.
  bad_result s w Hw v Hv (fun w' : WorkflowState => approval_response w' = v).
Qed.

Lemma bad_execution_result s w v :
  lookup k s = Some w -> is_dict v = false ->
  hoare (fun x => x = s) (_handle_execution_complete W k v)
        (fun _ => failed_keeping k ("Execution handling error: " ++ no_get v)
                    (fun w' => execution_result w' = v))
        (fun _ _ => False).
Proof.
  intros Hw Hv. unfold _handle_execution_complete.
  bad_result s w Hw v Hv (fun w' : WorkflowState => execution_result w' = v).
Qed.
End BadResult.

Lemma hoare_exec {A} (m : M A) (Q : State -> Prop) s :
  hoare (fun x => x = s) m (fun _ => Q) (fun _ _ => False) -> Q (exec m s).
Proof.
  intros H. pose proof (hoare_run _ _ _ _ s H eq_refl) as Hr.
  destruct (result m s); [exact Hr | contradiction].
Qed.

(** A stage result that is not an object (a string, a number, a list,
    null) is stored in the record all the same, and then fails the
    workflow: the record ends Failed with the message
    "<Stage> handling error: '<type>' object has no attribute 'get'". *)
Theorem non_object_result_fails_the_workflow
        (W : World) (k : string) (s : State) (w : WorkflowState) (v : PyVal) :
  lookup k s = Some w ->
  is_dict v = false ->
  failed_keeping k ("Analysis handling error: " ++ no_get v)
    (fun w' => analysis_result w' = v)
    (exec (_handle_analysis_complete W k v) s) /\
  failed_keeping k ("Remediation handling error: " ++ no_get v)
    (fun w' => remediation_action w' = v)
    (exec (_handle_remediation_proposed W k v) s) /\
  failed_keeping k ("Approval handling error: " ++ no_get v)
    (fun w' => approval_response w' = v)
    (exec (_handle_approval_received W k v) s) /\
  failed_keeping k ("Execution handling error: " ++ no_get v)
    (fun w' => execution_result w' = v)
    (exec (_handle_execution_complete W k v) s).
Proof.
  intros Hw Hv. split; [|split; [|split]]; apply hoare_exec.
  - exact (bad_analysis_result W k s w v Hw Hv).
  - exact (bad_remediation_action W k s w v Hw Hv).
  - exact (bad_approval_response W k s w v Hw Hv).
  - exact (bad_execution_result W k s w v Hw Hv).
Qed.

Lemma non_object_result_fails_the_workflow_witness :
  failed_keeping "w1"
    "Analysis handling error: 'str' object has no attribute 'get'"
    (fun w' => analysis_result w' = PStr "done")
    (exec (_handle_analysis_complete ex_world_ok "w1" (PStr "done"))
          ex_state_analyzing).
Proof.
  exact (proj1 (non_object_result_fails_the_workflow ex_world_ok "w1"
                  ex_state_analyzing (ex_workflow "w1" "analyzing" 0 0)
                  (PStr "done") eq_refl eq_refl)).
Defined.

(** ** Runs that end in Completed *)

(** Every reply of a remote agent is an object, or the call raises. *)
Definition replies_are_objects (W : World) : Prop :=
  forall n service skill payload timeout,
    match a2a_reply W n service skill payload timeout with
    | Returned v => is_dict v = true
    | Raised _ => True
    end.

Lemma is_dict_or_empty_dict d : is_dict (or_empty_dict (PDict d)) = true.
Proof. destruct d; reflexivity. Qed.

Ltac t_keep W :=
  cbv beta;
  match goal with
  | |- hoare (tracked _ _ _ _ _ _) (bind (contains _) _) _ _ =>
      eapply hoare_bind;
      [apply tr_contains | intros ?b; apply hoare_pure; intros ->; cbn [negb]]
  | |- hoare (tracked _ _ _ _ _ _) (bind (obj _) _) _ _ =>
      eapply hoare_bind; [apply tr_obj | intros ?w; apply hoare_pure; intros ?Hw]
  | |- hoare (tracked ?k ?c ?phi _ _ _) (bind (assign _ _) _) _ _ =>
      eapply hoare_bind;
      [apply (tr_assign k c phi phi); intros ? ?H; exact H | intros ?u]
  | |- hoare (tracked ?k ?c ?phi _ _ _) (bind (touch_updated_at _ _) _) _ _ =>
      eapply hoare_bind;
      [apply (tr_touch_updated_at W k c phi phi); intros ? ? ?H; exact H | intros ?u]
  | |- hoare (tracked ?k ?c ?phi ?tau _ _) (bind (_log_mcp_event _ _ _) _) _ _ =>
      eapply hoare_bind;
      [apply (tr_log W k c phi tau anything anything); intros; exact I | intros ?u]
  | |- hoare _ (bind (lift (Ok _)) _) _ _ =>
      eapply hoare_bind;
      [apply hoare_lift_val | intros ?v; apply hoare_pure; intros ->]
  | |- hoare _ (bind (complete_workflow _ _) _) _ _ =>
      eapply hoare_bind;
      [unfold complete_workflow; apply hoare_skip | intros ?u]
  | |- hoare _ (let _ := _ in _) _ _ => cbv zeta
  end.

Section Completion.
Variable W : World.
Variable k : string.
Variable c : list string * list string * list string *
             list (string * A2AClient) * Services * option TCPSite.

(** [_complete_workflow] on a stored workflow. *)
Lemma complete_stored r phi (tau tau' : list Transition -> Prop) nu
      (E : Exn -> State -> Prop) :
  (forall w T, phi w -> tau T -> tau' (T ++ [(k, status w, "completed")])%list) ->
  hoare (tracked k c phi tau anything nu) (_complete_workflow W k r)
        (fun _ => tracked k c (fun w => status w = "completed" /\
                                        execution_result w = r)
                          tau' anything nu) E.
Proof.
  intros Ht. unfold _complete_workflow.
  eapply hoare_try with (E' := fun _ _ => False); [|intros; apply hoare_false].
  t_keep W.
  eapply hoare_bind;
    [apply (tr_enter_stage W k c phi (fun w => status w = "completed") tau tau');
     [intros; reflexivity | exact Ht]|].
  intros u.
  eapply hoare_bind;
    [apply (tr_assign k c (fun w => status w = "completed")
              (fun w => status w = "completed" /\ execution_result w = r));
     intros ? H; split; [exact H | reflexivity]|].
  intros u0. repeat t_keep W. apply tr_create_cleanup_task.
Qed.

(** [_handle_execution_complete] on a stored workflow, for a result that
    is an object. *)
Lemma execution_complete_stored d phi (tau tau' : list Transition -> Prop) nu
      (E : Exn -> State -> Prop) :
  (forall w T, phi w -> tau T -> tau' (T ++ [(k, status w, "completed")])%list) ->
  (forall w v, phi w -> phi (with_execution_result v w)) ->
  (forall w t, phi w -> phi (with_updated_at t w)) ->
  hoare (tracked k c phi tau anything nu) (_handle_execution_complete W k (PDict d))
        (fun _ => tracked k c (fun w => status w = "completed" /\
                                        execution_result w = PDict d)
                          tau' anything nu) E.
Proof.
  intros Ht H1 H2. unfold _handle_execution_complete.
  eapply hoare_try with (E' := fun _ _ => False); [|intros; apply hoare_false].
  t_keep W.
  eapply hoare_bind; [apply (tr_assign k c phi phi); intros; apply H1; assumption|].
  intros u.
  eapply hoare_bind;
    [apply (tr_touch_updated_at W k c phi phi); intros; apply H2; assumption|].
  intros u0. cbn [py_get]. repeat t_keep W.
  apply complete_stored. exact Ht.
Qed.
End Completion.

Section Chain.
Variable W : World.
Variable k : string.
Variable c : list string * list string * list string *
             list (string * A2AClient) * Services * option TCPSite.
Hypothesis replies : replies_are_objects W.
Hypothesis rca_known : fst (fst (fst (fst (fst c)))) <> [].
Hypothesis remediation_known : snd (fst (fst (fst (fst c)))) <> [].
Hypothesis approval_known : snd (fst (fst (fst c))) <> [].

(** Workflow [k] is in the store and its record satisfies [phi]. *)
Local Abbreviation going phi := (tracked k c phi anything anything anything).

Local Abbreviation finished := (going (fun w => status w = "completed")).

Lemma going_weaken (phi : WorkflowState -> Prop) s : going phi s -> going anything s.
Proof.
  intros H. eapply tracked_weaken; [| | | |exact H]; intros; exact I.
Qed.

Lemma tr_a2a_call_object phi service skill payload timeout corr :
  hoare (going phi) (_a2a_call W service skill payload timeout corr)
        (fun v s => is_dict v = true /\ going phi s) (fun _ => going phi).
Proof.
  intros s (Hc & Hw & _).
  assert (G : forall s', config s' = config s ->
                         active_workflows s' = active_workflows s -> going phi s').
  { intros s' H1 H2. split; [congruence|]. unfold lookup in *. rewrite H2.
    split; [exact Hw|]. repeat split. }
  unfold _a2a_call, bind, get_state.
  destruct (dict_get service (a2a_clients s)) as [client|];
    [|apply G; reflexivity].
  pose proof (replies (a2a_calls s) service skill payload timeout) as Hr.
  unfold try_except, remote, raise, _log_mcp_event, bind, now, modify.
  destruct (has_invoke client); [|destruct (has_call client)];
    try (destruct (a2a_reply W (a2a_calls s) service skill payload timeout);
         [split; [exact Hr|]|]);
    apply G; reflexivity.
Qed.

Ltac t_state :=
  apply hoare_get_state; intros ?s0 ?Hs0;
  eapply hoare_pre; [|intros ? ->; exact Hs0].

Ltac t_enter phi :=
  eapply hoare_bind;
  [ apply (tr_enter_stage W k c phi phi anything anything);
    [intros ? ? ?H; exact H | intros; exact I]
  | intros ?u ].

Ltac t_call :=
  eapply hoare_bind; [apply tr_a2a_call_object|];
  intros ?v; apply hoare_pure; intros ?Hv;
  lazymatch goal with
  | H : is_dict ?x = true |- _ => destruct x; try discriminate H
  end.

Ltac t_weaken lem :=
  eapply hoare_pre; [apply lem | intros ? ?H; apply (going_weaken _ _ H)].

Lemma fin_handle_execution d (E : Exn -> State -> Prop) :
  hoare (going anything) (_handle_execution_complete W k (PDict d))
        (fun _ => finished) E.
Proof.
  eapply hoare_conseq.
  - apply (execution_complete_stored W k c d anything anything anything anything E);
      intros; exact I.
  - auto.
  - intros a s H. eapply tracked_weaken; [| | | |exact H]; try (intros; exact I).
    intros w [Hw _]. exact Hw.
  - auto.
Qed.

Lemma fin_trigger_execution (E : Exn -> State -> Prop) :
  hoare (going anything) (_trigger_remediation_execution W k) (fun _ => finished) E.
Proof.
  unfold _trigger_remediation_execution.
  eapply hoare_try with (E' := fun _ _ => False); [|intros; apply hoare_false].
  t_state.
  assert (Ha : remediation_agents s0 <> []).
  { destruct Hs0 as (Hc & _). rewrite <- Hc in remediation_known.
    exact remediation_known. }
  destruct (remediation_agents s0) as [|a l]; [congruence|].
  t_enter (@anything WorkflowState). repeat t_keep W.
  eapply hoare_try with (E' := fun _ => going anything).
  - t_keep W. t_call. apply fin_handle_execution.
  - intros e. t_keep W. apply fin_handle_execution.
Qed.

Lemma fin_complete r (E : Exn -> State -> Prop) :
  hoare (going anything) (_complete_workflow W k r) (fun _ => finished) E.
Proof.
  eapply hoare_conseq.
  - apply (complete_stored W k c r anything anything anything anything E);
      intros; exact I.
  - auto.
  - intros a s H. eapply tracked_weaken; [| | | |exact H]; try (intros; exact I).
    intros w [Hw _]. exact Hw.
  - auto.
Qed.

Lemma fin_handle_approval d (E : Exn -> State -> Prop) :
  hoare (going anything) (_handle_approval_received W k (PDict d))
        (fun _ => finished) E.
Proof.
  unfold _handle_approval_received.
  eapply hoare_try with (E' := fun _ _ => False); [|intros; apply hoare_false].
  cbn [py_get]. repeat t_keep W.
  match goal with |- hoare _ (if ?b then _ else _) _ _ => destruct b end.
  - apply fin_trigger_execution.
  - repeat t_keep W. apply fin_complete.
Qed.

Lemma fin_trigger_approval (E : Exn -> State -> Prop) :
  hoare (going anything) (_trigger_approval_request W k) (fun _ => finished) E.
Proof.
  unfold _trigger_approval_request.
  eapply hoare_try with (E' := fun _ _ => False); [|intros; apply hoare_false].
  t_state.
  assert (Ha : approval_agents s0 <> []).
  { destruct Hs0 as (Hc & _). rewrite <- Hc in approval_known.
    exact approval_known. }
  destruct (approval_agents s0) as [|a l]; [congruence|].
  t_enter (@anything WorkflowState). repeat t_keep W.
  eapply hoare_try with (E' := fun _ => going anything).
  - t_call. apply fin_handle_approval.
  - intros e. t_keep W. apply fin_handle_approval.
Qed.

Lemma fin_handle_proposal d (E : Exn -> State -> Prop) :
  hoare (going anything) (_handle_remediation_proposed W k (PDict d))
        (fun _ => finished) E.
Proof.
  unfold _handle_remediation_proposed.
  eapply hoare_try with (E' := fun _ _ => False); [|intros; apply hoare_false].
  cbn [py_get]. repeat t_keep W. apply fin_trigger_approval.
Qed.

(** The analysis result of the record can be read with [.get]. *)
Definition analysed (w : WorkflowState) : Prop :=
  is_dict (or_empty_dict (analysis_result w)) = true.

Lemma fin_trigger_proposal (E : Exn -> State -> Prop) :
  hoare (going analysed) (_trigger_remediation_proposal W k) (fun _ => finished) E.
Proof.
  unfold _trigger_remediation_proposal.
  eapply hoare_try with (E' := fun _ _ => False); [|intros; apply hoare_false].
  t_state.
  assert (Ha : remediation_agents s0 <> []).
  { destruct Hs0 as (Hc & _). rewrite <- Hc in remediation_known.
    exact remediation_known. }
  destruct (remediation_agents s0) as [|a l]; [congruence|].
  t_enter analysed. repeat t_keep W.
  eapply hoare_try with (E' := fun _ => going analysed).
  - t_keep W. t_call. t_weaken fin_handle_proposal.
  - intros e. t_keep W. t_keep W. unfold analysed in Hw0.
    destruct (or_empty_dict (analysis_result w0)); try discriminate Hw0.
    cbn [py_get]. t_keep W. t_weaken fin_handle_proposal.
Qed.

Lemma fin_handle_analysis d (E : Exn -> State -> Prop) :
  hoare (going anything) (_handle_analysis_complete W k (PDict d))
        (fun _ => finished) E.
Proof.
  unfold _handle_analysis_complete.
  eapply hoare_try with (E' := fun _ _ => False); [|intros; apply hoare_false].
  t_keep W.
  eapply hoare_bind;
    [apply (tr_assign k c anything analysed); intros; apply is_dict_or_empty_dict|].
  intros u. cbn [py_get]. repeat t_keep W. apply fin_trigger_proposal.
Qed.

(** The error of the failure the record was created for can be read with
    [.get]. *)
Definition readable_error (w : WorkflowState) : Prop :=
  is_dict (error (failure_payload w)) = true.

Lemma fin_trigger_rca (E : Exn -> State -> Prop) :
  hoare (going readable_error) (_trigger_rca_analysis W k) (fun _ => finished) E.
Proof.
  unfold _trigger_rca_analysis.
  eapply hoare_try with (E' := fun _ _ => False); [|intros; apply hoare_false].
  t_state.
  assert (Ha : rca_agents s0 <> []).
  { destruct Hs0 as (Hc & _). rewrite <- Hc in rca_known. exact rca_known. }
  destruct (rca_agents s0) as [|a l]; [congruence|].
  t_enter readable_error. t_keep W. cbv zeta. unfold readable_error in Hw.
  destruct (error (failure_payload w)); try discriminate Hw.
  cbn [py_get]. repeat t_keep W.
  eapply hoare_try with (E' := fun _ => going readable_error).
  - t_call. t_weaken fin_handle_analysis.
  - intros e. t_keep W. t_weaken fin_handle_analysis.
Qed.
End Chain.

(** When all three agent lists are known, the error of the failure is an
    object, and every remote agent either answers with an object or fails
    (times out, is unreachable, has no client), a new incident always runs
    to Completed within the call that creates it: failed calls are
    replaced by the mock results, and a rejected approval completes the
    workflow too. *)
Theorem started_incident_ends_completed
        (W : World) (p : FailurePayload) (s : State) :
  replies_are_objects W ->
  rca_agents s <> [] ->
  remediation_agents s <> [] ->
  approval_agents s <> [] ->
  is_dict (error p) = true ->
  exists w,
    lookup (uuid4 W (uuid_reads s)) (exec (_start_incident_workflow W p) s)
    = Some w /\
    status w = "completed".
Proof.
  intros Hrep Hr Hm Ha Herr. rewrite exec_start_incident_workflow.
  assert (H : hoare (fun x => x = created_state W p s)
                (_trigger_rca_analysis W (uuid4 W (uuid_reads s)))
                (fun _ => tracked (uuid4 W (uuid_reads s)) (config s)
                            (fun w => status w = "completed")
                            anything anything anything)
                (fun _ _ => False)).
  { eapply hoare_pre;
      [apply (fin_trigger_rca W (uuid4 W (uuid_reads s)) (config s) Hrep Hr Hm Ha)|].
    intros x ->. split; [reflexivity|].
    split; [exists (new_workflow W p s); split;
            [apply lookup_created_state | exact Herr]|].
    repeat split. }
  destruct (hoare_exec _ _ _ H) as (_ & [w [Hw Hst]] & _). eauto.
Qed.

Lemma ex_timeouts_are_failures : replies_are_objects ex_world_timeout.
Proof. intros n service skill payload timeout. exact I. Defined.

Lemma started_incident_ends_completed_witness :
  exists w,
    lookup (uuid4 ex_world_timeout 0)
           (exec (_start_incident_workflow ex_world_timeout ex_payload)
                 ex_state_empty) = Some w /\
    status w = "completed".
Proof.
  assert (H1 : rca_agents ex_state_empty <> []) by discriminate.
  assert (H2 : remediation_agents ex_state_empty <> []) by discriminate.
  assert (H3 : approval_agents ex_state_empty <> []) by discriminate.
  exact (started_incident_ends_completed ex_world_timeout ex_payload ex_state_empty
           ex_timeouts_are_failures H1 H2 H3 eq_refl).
Defined.

(** Whatever an execution result says, also [success: false], a stored
    workflow that receives it is Completed, in one transition and without
    any remote call; the result is kept in the record. *)
Theorem execution_result_always_completes
        (W : World) (k : string) (s : State) (w : WorkflowState) (d : Dict) :
  lookup k s = Some w ->
  let s' := exec (_handle_execution_complete W k (PDict d)) s in
  (exists w', lookup k s' = Some w' /\ status w' = "completed" /\
              execution_result w' = PDict d) /\
  transitions s' = (transitions s ++ [(k, status w, "completed")])%list /\
  a2a_calls s' = a2a_calls s.
Proof.
  intros Hw.
  assert (H : hoare (fun x => x = s) (_handle_execution_complete W k (PDict d))
                (fun _ => tracked k (config s)
                            (fun w' => status w' = "completed" /\
                                       execution_result w' = PDict d)
                            (fun T => T = (transitions s ++ [(k, status w, "completed")])%list)
                            anything (fun n => n = a2a_calls s))
                (fun _ _ => False)).
  { eapply hoare_pre;
      [apply (execution_complete_stored W k (config s) d
                (fun w' => status w' = status w) (fun T => T = transitions s)
                (fun T => T = (transitions s ++ [(k, status w, "completed")])%list)
                (fun n => n = a2a_calls s) (fun _ _ => False))|].
    - intros w' T Hs ->. now rewrite Hs.
    - intros w' v H. exact H.
    - intros w' t H. exact H.
    - intros x ->. split; [reflexivity|]. split; [eauto|]. repeat split. }
  destruct (hoare_exec _ _ _ H) as (_ & [w' [Hw' [Hst Hres]]] & Ht & _ & Hn).
  cbv zeta. split; [exists w'; auto | auto].
Qed.

Definition ex_state_executing : State :=
  ex_state ex_clients [("w1", ex_workflow "w1" "executing" 0 0)] 5.

Lemma execution_result_always_completes_witness :
  exists w',
    lookup "w1" (exec (_handle_execution_complete ex_world_ok "w1"
                         (PDict [("success", PBool false)])) ex_state_executing)
    = Some w' /\
    status w' = "completed" /\
    execution_result w' = PDict [("success", PBool false)].
Proof.
  exact (proj1 (execution_result_always_completes ex_world_ok "w1"
                  ex_state_executing (ex_workflow "w1" "executing" 0 0)
                  [("success", PBool false)] eq_refl)).
Defined.

(** The record of a rejected remediation. *)
Definition rejected (d : Dict) : PyVal :=
  PDict [("status", PStr "rejected");
         ("reason", get_or d "reason" (PStr "Rejected by approver"))].

Lemma rejection_completes W k c d x T n (E : Exn -> State -> Prop) :
  eq_str (get_or d "decision" PNone) "approve" = false ->
  hoare (tracked k c (fun w => status w = x) (fun T' => T' = T) anything
                 (fun m => m = n))
        (_handle_approval_received W k (PDict d))
        (fun _ => tracked k c (fun w => status w = "completed" /\
                                        execution_result w = rejected d)
                          (fun T' => T' = (T ++ [(k, x, "completed")])%list)
                          anything (fun m => m = n)) E.
Proof.
  intros Hdec. unfold _handle_approval_received.
  eapply hoare_try with (E' := fun _ _ => False); [|intros; apply hoare_false].
  cbn [py_get]. repeat t_keep W.
  unfold get_or in Hdec. rewrite Hdec. t_keep W.
  apply complete_stored. intros w T' Hs ->. now rewrite Hs.
Qed.

(** An approval answer whose decision is anything but "approve" (also one
    without a decision) completes the workflow with the result
    [status: rejected]; the workflow never enters Executing and no remote
    agent is called. *)
Theorem rejected_remediation_is_not_executed
        (W : World) (k : string) (s : State) (w : WorkflowState) (d : Dict) :
  lookup k s = Some w ->
  eq_str (get_or d "decision" PNone) "approve" = false ->
  let s' := exec (_handle_approval_received W k (PDict d)) s in
  (exists w', lookup k s' = Some w' /\ status w' = "completed" /\
              execution_result w' = rejected d) /\
  transitions s' = (transitions s ++ [(k, status w, "completed")])%list /\
  a2a_calls s' = a2a_calls s.
Proof.
  intros Hw Hdec.
  assert (H : hoare (fun x => x = s) (_handle_approval_received W k (PDict d))
                (fun _ => tracked k (config s)
                            (fun w' => status w' = "completed" /\
                                       execution_result w' = rejected d)
                            (fun T => T = (transitions s ++ [(k, status w, "completed")])%list)
                            anything (fun n => n = a2a_calls s))
                (fun _ _ => False)).
  { eapply hoare_pre;
      [apply (rejection_completes W k (config s) d (status w) (transitions s)
                (a2a_calls s) (fun _ _ => False) Hdec)|].
    intros x ->. split; [reflexivity|]. split; [eauto|]. repeat split. }
  destruct (hoare_exec _ _ _ H) as (_ & [w' [Hw' [Hst Hres]]] & Ht & _ & Hn).
  cbv zeta. split; [exists w'; auto | auto].
Qed.

Definition ex_state_awaiting : State :=
  ex_state ex_clients [("w1", ex_workflow "w1" "awaiting_approval" 0 0)] 5.

Lemma rejected_remediation_is_not_executed_witness :
  transitions (exec (_handle_approval_received ex_world_ok "w1"
                       (PDict [("decision", PStr "reject")])) ex_state_awaiting)
  = [("w1", "awaiting_approval", "completed")] /\
  a2a_calls (exec (_handle_approval_received ex_world_ok "w1"
                     (PDict [("decision", PStr "reject")])) ex_state_awaiting)
  = 0%nat.
Proof.
  exact (proj2 (rejected_remediation_is_not_executed ex_world_ok "w1"
                  ex_state_awaiting (ex_workflow "w1" "awaiting_approval" 0 0)
                  [("decision", PStr "reject")] eq_refl eq_refl)).
Defined.

(** ** The ADK handlers *)

Lemma get_or_some d f v x : dict_get f d = Some v -> get_or d f x = v.
Proof. unfold get_or. now intros ->. Qed.

Lemma eq_str_PStr a b : eq_str (PStr a) b = (a =? b)%string.
Proof. reflexivity. Qed.

(** Comparisons of string literals. *)
Ltac eqb_literals :=
  repeat match goal with
  | |- context [String.eqb ?a ?b] =>
      let r := eval vm_compute in (String.eqb a b) in
      match r with
      | true => change (String.eqb a b) with true
      | false => change (String.eqb a b) with false
      end
  end.

Definition adk_updates : list string :=
  ["analysis_complete"; "remediation_proposed"; "approval_received";
   "execution_complete"].

(** For the four stage results, a workflow update that arrives as an ADK
    message does to the agent exactly what the same update does when it
    arrives through the A2A service. *)
Theorem adk_update_agrees_with_service_update
        (W : World) (task_id k upd : string) (message request : Dict) (s : State) :
  k <> "" ->
  In upd adk_updates ->
  dict_get "workflow_id" message = Some (PStr k) ->
  dict_get "update_type" message = Some (PStr upd) ->
  dict_get "workflow_id" request = Some (PStr k) ->
  dict_get "status" request = Some (PStr upd) ->
  get_or message "data" (PDict []) = get_or request "result_data" (PDict []) ->
  exec (_handle_adk_workflow_update W message) s =
  exec (_handle_update_workflow_status W task_id request) s.
Proof.
  intros Hk Hupd Hm1 Hm2 Hr1 Hr2 Hdata. apply String.eqb_neq in Hk.
  unfold exec, _handle_adk_workflow_update, _handle_update_workflow_status.
  cbv zeta.
  rewrite (get_or_some _ _ _ PNone Hm1), (get_or_some _ _ _ PNone Hm2),
    (get_or_some _ _ _ PNone Hr1), (get_or_some _ _ _ PNone Hr2), Hdata.
  unfold try_except, bind, with_id, ret.
  rewrite !eq_str_PStr. cbn [truthy is_str negb orb]. rewrite Hk. cbn [negb orb].
  unfold adk_updates in Hupd. simpl in Hupd.
  destruct Hupd as [<-|[<-|[<-|[<-|[]]]]]; eqb_literals; cbn [negb orb]; cbv beta iota;
    match goal with
    | |- context [?h W k ?data s] => destruct (h W k data s) as [[u|e] s']
    end; reflexivity.
Qed.

Definition ex_adk_update : Dict :=
  [("workflow_id", PStr "w1"); ("update_type", PStr "execution_complete");
   ("data", PDict [("success", PBool true)])].

Definition ex_service_update : Dict :=
  [("action", PStr "update_workflow_status"); ("workflow_id", PStr "w1");
   ("status", PStr "execution_complete");
   ("result_data", PDict [("success", PBool true)])].

Lemma adk_update_agrees_with_service_update_witness :
  exec (_handle_adk_workflow_update ex_world_ok ex_adk_update) ex_state_executing =
  exec (_handle_update_workflow_status ex_world_ok "task-1" ex_service_update)
       ex_state_executing.
Proof.
  assert (Hk : "w1" <> "") by discriminate.
  assert (Hin : In "execution_complete" adk_updates)
    by (unfold adk_updates; simpl; tauto).
  exact (adk_update_agrees_with_service_update ex_world_ok "task-1" "w1"
           "execution_complete" ex_adk_update ex_service_update ex_state_executing
           Hk Hin eq_refl eq_refl eq_refl eq_refl eq_refl).
Defined.

(** An ADK workflow update is refused, with status "error" and no change
    of the state, when its workflow id is not a non-empty string, and when
    its update type is none of the four stage results; "failed", which the
    A2A service accepts, is refused here. *)
Theorem adk_update_refuses_bad_messages (W : World) (message : Dict) (s : State) :
  let workflow_id := get_or message "workflow_id" PNone in
  let update_type := get_or message "update_type" PNone in
  ((forall k, workflow_id = PStr k -> k = "") ->
   _handle_adk_workflow_update W message s =
   (Ok (PDict [("status", PStr "error");
               ("error", PStr "Invalid workflow_id");
               ("message", PStr "Workflow ID must be a non-empty string")]), s)) /\
  (forall k, workflow_id = PStr k -> k <> "" ->
     (forall u, In u adk_updates -> eq_str update_type u = false) ->
     _handle_adk_workflow_update W message s =
     (Ok (PDict [("status", PStr "error");
                 ("error", PStr ("Unknown update type: " ++ py_str W update_type));
                 ("message", PStr "Invalid workflow update type")]), s)).
Proof.
  cbv zeta. unfold _handle_adk_workflow_update. cbv zeta. split.
  - intros H. unfold try_except.
    destruct (get_or message "workflow_id" PNone) as [|b|z|m e|k|l|d];
      try (cbn [is_str negb]; rewrite orb_true_r; reflexivity).
    rewrite (H k eq_refl). reflexivity.
  - intros k Hid Hk Hu. rewrite Hid. apply String.eqb_neq in Hk.
    cbn [truthy is_str negb orb]. rewrite Hk. cbn [negb orb].
    rewrite !Hu by (unfold adk_updates; simpl; tauto). reflexivity.
Qed.

Definition ex_adk_failed : Dict :=
  [("workflow_id", PStr "w1"); ("update_type", PStr "failed")].

Lemma adk_update_refuses_bad_messages_witness :
  _handle_adk_workflow_update ex_world_ok ex_adk_failed ex_state_executing =
  (Ok (PDict [("status", PStr "error");
              ("error", PStr ("Unknown update type: "
                              ++ py_str ex_world_ok (PStr "failed")));
              ("message", PStr "Invalid workflow update type")]),
   ex_state_executing).
Proof.
  assert (Hk : "w1" <> "") by discriminate.
  apply (proj2 (adk_update_refuses_bad_messages ex_world_ok ex_adk_failed
                  ex_state_executing) "w1" eq_refl Hk).
  intros u Hu. unfold adk_updates in Hu. simpl in Hu.
  destruct Hu as [<-|[<-|[<-|[<-|[]]]]]; reflexivity.
Defined.

Lemma hoare_adk_start W n d :
  hoare (fun s => uuid_reads s = n) (_adk_start_incident_workflow W (PDict d))
        (fun r s' =>
           r = PDict [("success", PBool true);
                      ("workflow_id", PStr (uuid4 W (S n)));
                      ("message", PStr "Incident workflow started successfully")] /\
           lookup (uuid4 W (S n)) s' <> None)
        (fun _ _ => False).
Proof.
  unfold _adk_start_incident_workflow.
  eapply hoare_try with (E' := fun _ _ => False); [|intros e; apply hoare_false].
  eapply hoare_bind; [apply hoare_new_uuid|]. intros u.
  apply hoare_pure. intros ->.
  eapply hoare_bind; [apply hoare_make_failure_payload|]. intros p.
  eapply hoare_bind; [apply hoare_start_incident_workflow|]. intros r.
  apply hoare_pure. intros ->. apply hoare_ret. auto.
Qed.

(** A failure notification that arrives as an ADK message is not
    validated: any payload that is an object, also an empty or absent one,
    starts a workflow.  A payload that is not an object starts none and
    changes nothing, and the answer to the notification says "success"
    all the same, with the failure inside its [workflow_id] field. *)
Theorem adk_notification_is_not_validated (W : World) (message : Dict) (s : State) :
  let payload := get_or message "payload" (PDict []) in
  (forall d, payload = PDict d ->
     result (_handle_adk_failure_notification W message) s =
     Ok (PDict [("status", PStr "success");
                ("workflow_id",
                 PDict [("success", PBool true);
                        ("workflow_id", PStr (uuid4 W (S (uuid_reads s))));
                        ("message", PStr "Incident workflow started successfully")]);
                ("message", PStr "Failure notification processed")]) /\
     lookup (uuid4 W (S (uuid_reads s)))
            (exec (_handle_adk_failure_notification W message) s) <> None) /\
  (is_dict payload = false ->
   _handle_adk_failure_notification W message s =
   (Ok (PDict [("status", PStr "success");
               ("workflow_id",
                PDict [("success", PBool false);
                       ("error", PStr (no_get payload));
                       ("message", PStr "Failed to start incident workflow")]);
               ("message", PStr "Failure notification processed")]), s)).
Proof.
  cbv zeta. split.
  - intros d Hd.
    assert (H : hoare (fun x => x = s) (_handle_adk_failure_notification W message)
                  (fun r s' =>
                     r = PDict [("status", PStr "success");
                                ("workflow_id",
                                 PDict [("success", PBool true);
                                        ("workflow_id", PStr (uuid4 W (S (uuid_reads s))));
                                        ("message",
                                         PStr "Incident workflow started successfully")]);
                                ("message", PStr "Failure notification processed")] /\
                     lookup (uuid4 W (S (uuid_reads s))) s' <> None)
                  (fun _ _ => False)).
    { unfold _handle_adk_failure_notification. cbv zeta. rewrite Hd.
      eapply hoare_try with (E' := fun _ _ => False); [|intros e; apply hoare_false].
      eapply hoare_bind;
        [eapply hoare_pre; [apply (hoare_adk_start W (uuid_reads s) d)|];
         intros x ->; reflexivity|].
      intros r. apply hoare_pure. intros ->. apply hoare_ret. auto. }
    pose proof (hoare_run _ _ _ _ s H eq_refl) as Hr.
    destruct (result (_handle_adk_failure_notification W message) s) as [r|e];
      [|contradiction].
    destruct Hr as [-> Hl]. split; [reflexivity | exact Hl].
  - intros Hp. unfold _handle_adk_failure_notification. cbv zeta.
    destruct (get_or message "payload" (PDict [])); try discriminate; reflexivity.
Qed.

Definition ex_adk_notification : Dict := [("type", PStr "failure_notification")].

Lemma adk_notification_is_not_validated_witness :
  lookup (uuid4 ex_world_ok 1)
         (exec (_handle_adk_failure_notification ex_world_ok ex_adk_notification)
               ex_state_empty) <> None.
Proof.
  exact (proj2 (proj1 (adk_notification_is_not_validated ex_world_ok
                         ex_adk_notification ex_state_empty) [] eq_refl)).
Defined.

(** ** Starting a workflow through the A2A service *)

Lemma execute_ok W task_id request action (m : M PyVal) s v :
  dict_get "action" request = Some (PStr action) ->
  handler_of W action task_id request = Some m ->
  result m s = Ok v ->
  result (execute W task_id request) s = Ok v /\
  exec (execute W task_id request) s = exec m s.
Proof.
  intros Hact Hm Hr. unfold result, exec in *.
  rewrite (execute_action W task_id request action m s Hact Hm).
  destruct (m s) as [[a|e] s']; simpl in *; [|discriminate].
  inversion Hr; subst. split; reflexivity.
Qed.

Lemma hoare_make_failure_payload_trace W n d u (E : Exn -> State -> Prop) :
  hoare (fun s => uuid_reads s = n) (make_failure_payload W d u)
        (fun p s' => trace_id p = get_or d "trace_id" (PStr u) /\ uuid_reads s' = n) E.
Proof. intros s Hs. unfold make_failure_payload, bind, now, ret. simpl. auto. Qed.

(** The [start_incident_workflow] action does not validate the failure it
    is given: any non-empty object starts a workflow.  Its answer carries
    the new workflow id, and as [incident_id] the trace id of the failure
    (the task id when the failure has none), not the incident id of the
    record.  Without a failure payload, or with an empty one, the answer
    is "failed" and nothing changes. *)
Theorem service_start_is_not_validated (W : World) (task_id : string)
        (request : Dict) (s : State) :
  dict_get "action" request = Some (PStr "start_incident_workflow") ->
  (truthy (get_or request "failure_payload" (PDict [])) = false ->
   execute W task_id request s =
   (Ok (task_failed task_id "Missing failure_payload in request"), s)) /\
  (forall d, dict_get "failure_payload" request = Some (PDict d) -> d <> [] ->
     (exists message started_at,
         result (execute W task_id request) s =
         Ok (PDict [("task_id", PStr task_id);
                    ("workflow_id", PStr (uuid4 W (uuid_reads s)));
                    ("status", PStr "started");
                    ("message", PStr message);
                    ("incident_id", get_or d "trace_id" (PStr task_id));
                    ("started_at", PStr started_at)])) /\
     lookup (uuid4 W (uuid_reads s)) (exec (execute W task_id request) s) <> None).
Proof.
  intros Hact. split.
  - intros Hp. erewrite execute_action; [|exact Hact|reflexivity].
    unfold _handle_start_incident_workflow. cbv zeta. rewrite Hp. reflexivity.
  - intros d Hd Hne.
    set (m := _handle_start_incident_workflow W task_id request).
    assert (H : hoare (fun x => x = s) m
                  (fun r s' =>
                     (exists message started_at,
                         r = PDict [("task_id", PStr task_id);
                                    ("workflow_id", PStr (uuid4 W (uuid_reads s)));
                                    ("status", PStr "started");
                                    ("message", PStr message);
                                    ("incident_id", get_or d "trace_id" (PStr task_id));
                                    ("started_at", PStr started_at)]) /\
                     lookup (uuid4 W (uuid_reads s)) s' <> None)
                  (fun _ _ => False)).
    { unfold m, _handle_start_incident_workflow. cbv zeta.
      rewrite (get_or_some _ _ _ (PDict []) Hd).
      assert (Ht : truthy (PDict d) = true) by (destruct d; [congruence | reflexivity]).
      rewrite Ht. cbn [negb].
      eapply hoare_bind;
        [eapply hoare_pre; [apply (hoare_make_failure_payload_trace W (uuid_reads s))|];
         intros x ->; reflexivity|].
      intros p. apply hoare_pure. intros Hp.
      eapply hoare_bind;
        [unfold _handle_failure_webhook; apply hoare_start_incident_workflow|].
      intros r. apply hoare_pure. intros ->.
      eapply hoare_bind with (R := fun _ s' => lookup (uuid4 W (uuid_reads s)) s' <> None).
      { intros x Hx. unfold now. simpl. exact Hx. }
      intros t. apply hoare_ret. intros x Hx. rewrite Hp.
      split; [do 2 eexists; reflexivity | exact Hx]. }
    pose proof (hoare_run _ _ _ _ s H eq_refl) as Hr.
    destruct (result m s) as [r|e] eqn:Hres; [|contradiction].
    destruct (execute_ok W task_id request _ m s r Hact eq_refl Hres) as [H1 H2].
    rewrite H1, H2. destruct Hr as [[message [started ->]] Hl].
    split; [eauto | exact Hl].
Qed.

Definition ex_start_request : Dict :=
  [("action", PStr "start_incident_workflow");
   ("failure_payload", PDict [("test_title", PStr "checkout test")])].

Lemma service_start_is_not_validated_witness :
  lookup (uuid4 ex_world_ok 0)
         (exec (execute ex_world_ok "task-1" ex_start_request) ex_state_empty)
  <> None.
Proof.
  assert (Hne : [("test_title", PStr "checkout test")] <> @nil (string * PyVal))
    by discriminate.
  exact (proj2 (proj2 (service_start_is_not_validated ex_world_ok "task-1"
                         ex_start_request ex_state_empty eq_refl)
                  [("test_title", PStr "checkout test")] eq_refl Hne)).
Defined.

(** The ADK status query never changes the state.  For a stored workflow
    it reports success with the stage, incident id and time stamps of the
    record, the same as the A2A service reports; for an id that is not in
    the store it reports [success: false] with "Workflow not found". *)
Theorem adk_status_query_is_read_only (W : World) (k : string) (s : State) :
  exec (_adk_get_workflow_status W k) s = s /\
  result (_adk_get_workflow_status W k) s =
  Ok (match lookup k s with
      | Some w =>
          PDict [("success", PBool true);
                 ("workflow_id", PStr k);
                 ("status", PStr (status w));
                 ("incident_id", PStr (incident_id w));
                 ("created_at", PStr (isoformat W (created_at w)));
                 ("updated_at", PStr (isoformat W (updated_at w)))]
      | None =>
          PDict [("success", PBool false);
                 ("error", PStr "Workflow not found");
                 ("workflow_id", PStr k)]
      end) /\
  (forall task_id request w,
      lookup k s = Some w -> k <> "" ->
      dict_get "action" request = Some (PStr "get_workflow_status") ->
      dict_get "workflow_id" request = Some (PStr k) ->
      forall f, In f ["status"; "incident_id"; "created_at"; "updated_at"] ->
        field f (match result (_adk_get_workflow_status W k) s with
                 | Ok v => v | Raise _ => PNone end) =
        field f (match result (execute W task_id request) s with
                 | Ok v => v | Raise _ => PNone end)).
Proof.
  assert (H : _adk_get_workflow_status W k s =
              (Ok (match lookup k s with
                   | Some w =>
                       PDict [("success", PBool true);
                              ("workflow_id", PStr k);
                              ("status", PStr (status w));
                              ("incident_id", PStr (incident_id w));
                              ("created_at", PStr (isoformat W (created_at w)));
                              ("updated_at", PStr (isoformat W (updated_at w)))]
                   | None =>
                       PDict [("success", PBool false);
                              ("error", PStr "Workflow not found");
                              ("workflow_id", PStr k)]
                   end), s)).
  { unfold _adk_get_workflow_status, try_except, bind, contains, obj, dict_mem,
      lookup, ret.
    destruct (dict_get k (active_workflows s)) eqn:Hk; cbv beta iota;
      rewrite ?Hk; reflexivity. }
  unfold exec, result. rewrite H. split; [reflexivity|]. split; [reflexivity|].
  intros task_id request w Hw Hk Hact Hid f Hf. apply String.eqb_neq in Hk.
  erewrite execute_action; [|exact Hact|reflexivity].
  unfold _handle_get_workflow_status, get_or, bind, get_state, ret.
  rewrite Hid. cbn [truthy]. rewrite Hk. cbn [negb]. rewrite Hw.
  simpl in Hf. destruct Hf as [<-|[<-|[<-|[<-|[]]]]]; reflexivity.
Qed.

Lemma adk_status_query_is_read_only_witness :
  field "status"
    (match result (_adk_get_workflow_status ex_world_ok "w1") ex_state_completed
     with Ok v => v | Raise _ => PNone end) =
  field "status"
    (match result (execute ex_world_ok "task-1" ex_status_request) ex_state_completed
     with Ok v => v | Raise _ => PNone end).
Proof.
  assert (Hk : "w1" <> "") by discriminate.
  apply (proj2 (proj2 (adk_status_query_is_read_only ex_world_ok "w1"
                         ex_state_completed))
           "task-1" ex_status_request (ex_workflow "w1" "completed" 0 (5 * second))
           eq_refl Hk eq_refl eq_refl).
  simpl. tauto.
Defined.

(** ** The REST endpoints of the service *)

Section Rest.
Variable W : World.

(** [f"rest-{asyncio.get_event_loop().time()}"]; [loop_time] is the
    reading of the loop's clock as Python prints it. *)
Definition rest_task_id (loop_time : string) : string := "rest-" ++ loop_time.

Definition rest_failed (e : Exn) : PyVal :=
  PDict [("error", PStr (exn_msg e)); ("status", PStr "failed")].

(** [cancel_workflow_rest]; the body is optional. *)
Definition cancel_workflow_rest (loop_time workflow_id : string)
           (request : option Dict) : M PyVal :=
  try_except
    (let default := PStr "Cancelled via REST API" in
     let reason :=
       match request with
       | Some d => if truthy (PDict d) then get_or d "reason" default else default
       | None => default
       end in
     execute W (rest_task_id loop_time)
       [("action", PStr "cancel_workflow"); ("workflow_id", PStr workflow_id);
        ("reason", reason)])
    (fun e => ret (rest_failed e)).
End Rest.

(** The reason [cancel_workflow_rest] passes on. *)
Definition rest_reason (request : option Dict) : PyVal :=
  get_or (match request with Some d => d | None => [] end) "reason"
         (PStr "Cancelled via REST API").

(** [POST /workflow/{id}/cancel] fails a stored workflow with the message
    "Cancelled: <reason>", where the reason is the one of the body and
    "Cancelled via REST API" when the body is absent, empty or has none;
    for an id that is not in the store nothing changes.  The answer is
    "cancelled" in both cases. *)
Theorem rest_cancel_fails_the_workflow
        (W : World) (loop_time k : string) (request : option Dict) (s : State) :
  k <> "" ->
  let reason := rest_reason request in
  result (cancel_workflow_rest W loop_time k request) s =
  Ok (PDict [("task_id", PStr (rest_task_id loop_time));
             ("workflow_id", PStr k);
             ("status", PStr "cancelled");
             ("message", PStr ("Workflow " ++ py_str W (PStr k)
                               ++ " cancelled: " ++ py_str W reason))]) /\
  exec (cancel_workflow_rest W loop_time k request) s =
  match lookup k s with
  | Some w => fail_state W k (PStr ("Cancelled: " ++ py_str W reason)) w s
  | None => s
  end.
Proof.
  intros Hk reason. apply String.eqb_neq in Hk.
  assert (Hr : match request with
               | Some d => if truthy (PDict d)
                           then get_or d "reason" (PStr "Cancelled via REST API")
                           else PStr "Cancelled via REST API"
               | None => PStr "Cancelled via REST API"
               end = reason).
  { unfold reason, rest_reason. destruct request as [[|x d]|]; reflexivity. }
  unfold result, exec, cancel_workflow_rest, try_except. cbv zeta. rewrite Hr.
  erewrite execute_action; [|reflexivity|reflexivity].
  unfold _handle_cancel_workflow, get_or, with_id, bind, ret.
  cbn [dict_get String.eqb Ascii.eqb Bool.eqb]. eqb_literals. cbv iota.
  cbn [truthy]. rewrite Hk. cbn [negb].
  destruct (lookup k s) as [w|] eqn:Hw;
    [rewrite (fail_workflow_present W k _ s w Hw)
    |rewrite (fail_workflow_absent W k _ s Hw)]; split; reflexivity.
Qed.

Lemma rest_cancel_fails_the_workflow_witness :
  failed_with (PStr ("Cancelled: " ++ py_str ex_world_ok (PStr "Cancelled via REST API")))
    "w1" (exec (cancel_workflow_rest ex_world_ok "12.5" "w1" (Some []))
               ex_state_executing).
Proof.
  assert (Hk : "w1" <> "") by discriminate.
  rewrite (proj2 (rest_cancel_fails_the_workflow ex_world_ok "12.5" "w1" (Some [])
                    ex_state_executing Hk)).
  eexists. split; [apply lookup_fail_state_same|]. split; reflexivity.
Defined.

(** ** The record of a new workflow *)

(** [_start_incident_workflow] always returns the id it drew, and at the
    end of the call the record stored under that id still has the identity
    it was created with: that id, the incident id
    "inc-<time>-<first 8 characters of the id>", the failure it was
    created for, and the creation time. *)
Theorem new_workflow_keeps_its_identity (W : World) (p : FailurePayload) (s : State) :
  let id := uuid4 W (uuid_reads s) in
  result (_start_incident_workflow W p) s = Ok (Some id) /\
  exists w,
    lookup id (exec (_start_incident_workflow W p) s) = Some w /\
    workflow_id w = id /\
    incident_id w = "inc-" ++ strftime W (clock W (clock_reads s)) ++ "-"
                    ++ substring 0 8 id /\
    failure_payload w = p /\
    created_at w = clock W (S (clock_reads s)).
Proof.
  cbv zeta. split; [apply result_start_incident_workflow|].
  rewrite exec_start_incident_workflow.
  pose proof (sat_trigger_rca_analysis W any_kind (uuid4 W (uuid_reads s))
                eq_refl (created_state W p s)) as H.
  pose proof (lookup_created_state W p s) as Hc.
  destruct (dict_keys_same_get _ _ _ _ _ _ (sr_keys _ _ _ _ _ H) Hc) as [w Hw].
  exists w. split; [exact Hw|].
  destruct (sr_time _ _ _ _ _ H _ _ _ Hc Hw) as [Hid _].
  unfold identity_of in Hid. inversion Hid as [[H1 H2 H3 H4]].
  repeat split; reflexivity.
Qed.

(** ** The heartbeat of the supervisor *)

Lemma hoare_fail_workflow_any W k msg (P : Prop) :
  hoare (fun _ => P) (_fail_workflow W k msg) (fun _ _ => P) (fun _ _ => False).
Proof.
  apply hoare_of_run. intros s HP. rewrite fail_workflow_ok. exact HP.
Qed.

(** A round of the supervisor never raises, and it ends with the
    heartbeat set to the clock reading taken at its start, however many
    workflows it failed in between. *)
Theorem supervisor_round_sets_the_heartbeat (W : World) (s : State) :
  result (monitor_tick W) s = Ok tt /\
  last_heartbeat (exec (monitor_tick W) s) = Some (clock W (clock_reads s)).
Proof.
  assert (H : hoare (fun x => x = s) (monitor_tick W)
                (fun _ s' => last_heartbeat s' = Some (clock W (clock_reads s)))
                (fun _ _ => False)).
  { unfold monitor_tick.
    eapply hoare_try with (E' := fun _ _ => False); [|intros; apply hoare_false].
    eapply hoare_bind with (R := fun t _ => t = clock W (clock_reads s)).
    { intros x ->. reflexivity. }
    intros t. apply hoare_get_state. intros s0 ->.
    eapply hoare_bind with (R := fun _ _ => True).
    - eapply hoare_pre with (P' := fun _ => True); [|auto].
      apply hoare_for_each. intros kw _.
      eapply hoare_bind with (R := fun _ _ => True).
      + intros x _. exact I.
      + intros w. destruct (_ >? _).
        * apply hoare_fail_workflow_any.
        * apply hoare_ret. auto.
    - intros u x _. reflexivity. }
  pose proof (hoare_run _ _ _ _ s H eq_refl) as Hr.
  destruct (result (monitor_tick W) s) as [[]|e]; [|contradiction].
  split; [reflexivity | exact Hr].
Qed.

(** ** What the rest of a run keeps of a record *)

Section Frame.
Variable W : World.
Variable k : string.
Variable c : list string * list string * list string *
             list (string * A2AClient) * Services * option TCPSite.
Variable phi : WorkflowState -> Prop.
Hypothesis keeps_status : forall w x, phi w -> phi (with_status x w).
Hypothesis keeps_updated_at : forall w t, phi w -> phi (with_updated_at t w).
Hypothesis keeps_error_message : forall w m, phi w -> phi (with_error_message m w).
Hypothesis keeps_execution_result : forall w v, phi w -> phi (with_execution_result v w).
Hypothesis keeps_approval_response : forall w v, phi w -> phi (with_approval_response v w).
Hypothesis keeps_remediation_action :
  forall w v, phi w -> phi (with_remediation_action v w).

(** Workflow [k] is in the store and its record satisfies [phi]. *)
Local Abbreviation inv := (tracked k c phi anything anything anything).

Lemma frame_read {A} (m : M A) : sat (read_rel any_kind) m -> keeps inv m.
Proof.
  intros Hm. eapply keeps_sat; [exact Hm|].
  intros s s' (Hc & Hw & _) H. split; [rewrite (rr_config _ _ _ H); exact Hc|].
  unfold lookup in *. rewrite (rr_store _ _ _ H). split; [exact Hw|]. repeat split.
Qed.

Lemma frame_assign f : (forall w, phi w -> phi (f w)) -> keeps inv (assign k f).
Proof. intros H. apply (tr_assign k c phi phi). exact H. Qed.

Lemma frame_touch : keeps inv (touch_updated_at W k).
Proof. apply (tr_touch_updated_at W k c phi phi). exact keeps_updated_at. Qed.

Lemma frame_enter x : keeps inv (enter_stage W k x).
Proof.
  apply (tr_enter_stage W k c phi phi anything anything).
  - intros w t H. apply keeps_updated_at, keeps_status. exact H.
  - intros; exact I.
Qed.

Ltac frame_leaf :=
  match goal with
  | |- keeps _ (contains _) => apply frame_read; apply sat_contains
  | |- keeps _ (obj _) => apply frame_read; apply sat_obj
  | |- keeps _ (create_cleanup_task _) => apply frame_read; apply sat_create_cleanup_task
  | |- keeps _ (_log_mcp_event _ _ _) =>
      apply frame_read; apply sat_log; reflexivity
  | |- keeps _ (_a2a_call _ _ _ _ _ _) =>
      apply frame_read; apply sat_a2a_call; reflexivity
  | |- keeps _ (complete_workflow _ _) => unfold complete_workflow; apply keeps_ret
  | |- keeps _ (enter_stage _ _ _) => apply frame_enter
  | |- keeps _ (touch_updated_at _ _) => apply frame_touch
  | |- keeps _ (assign _ _) => apply frame_assign; intros; auto
  end.

Lemma frame_fail msg : keeps inv (_fail_workflow W k msg).
Proof. unfold _fail_workflow. keeps_struct; frame_leaf. Qed.

Lemma frame_complete r : keeps inv (_complete_workflow W k r).
Proof. unfold _complete_workflow. keeps_struct; frame_leaf. Qed.

Lemma frame_handle_execution v : keeps inv (_handle_execution_complete W k v).
Proof.
  unfold _handle_execution_complete.
  keeps_struct; first [apply frame_complete | apply frame_fail | frame_leaf].
Qed.

Lemma frame_trigger_execution : keeps inv (_trigger_remediation_execution W k).
Proof.
  unfold _trigger_remediation_execution.
  keeps_struct; first [apply frame_handle_execution | apply frame_fail | frame_leaf].
Qed.

Lemma frame_handle_approval v : keeps inv (_handle_approval_received W k v).
Proof.
  unfold _handle_approval_received.
  keeps_struct;
    first [apply frame_trigger_execution | apply frame_complete | apply frame_fail
          | frame_leaf].
Qed.

Lemma frame_trigger_approval : keeps inv (_trigger_approval_request W k).
Proof.
  unfold _trigger_approval_request.
  keeps_struct; first [apply frame_handle_approval | apply frame_fail | frame_leaf].
Qed.

Lemma frame_handle_proposal v : keeps inv (_handle_remediation_proposed W k v).
Proof.
  unfold _handle_remediation_proposed.
  keeps_struct; first [apply frame_trigger_approval | apply frame_fail | frame_leaf].
Qed.

Lemma frame_trigger_proposal : keeps inv (_trigger_remediation_proposal W k).
Proof.
  unfold _trigger_remediation_proposal.
  keeps_struct; first [apply frame_handle_proposal | apply frame_fail | frame_leaf].
Qed.
End Frame.

(** ** What a result handler leaves in the record *)

Lemma tracked_exactly k s w :
  lookup k s = Some w ->
  tracked k (config s) (fun w' => w' = w) (fun T => T = transitions s)
          (fun L => L = events s) (fun n => n = a2a_calls s) s.
Proof.
  intros Hw. split; [reflexivity|]. split; [eauto|]. repeat split.
Qed.

Section Recorded.
Variable W : World.
Variable k : string.
Variable c : list string * list string * list string *
             list (string * A2AClient) * Services * option TCPSite.

Local Abbreviation keeping phi := (tracked k c phi anything anything anything).

(** [_fail_workflow] on a stored workflow. *)
Lemma fail_stored msg phi (tau tau' : list Transition -> Prop)
      (eps eps' : list Event -> Prop) nu (E : Exn -> State -> Prop) :
  (forall w T, phi w -> tau T -> tau' (T ++ [(k, status w, "failed")])%list) ->
  (forall L t d, eps L -> eps' (L ++ [mkEvent t "workflow_failed" d])%list) ->
  hoare (tracked k c phi tau eps nu) (_fail_workflow W k msg)
        (fun _ => tracked k c (fun w => status w = "failed" /\ error_message w = msg)
                          tau' eps' nu) E.
Proof.
  intros Ht He. unfold _fail_workflow.
  eapply hoare_try with (E' := fun _ _ => False); [|intros; apply hoare_false].
  t_keep W.
  eapply hoare_bind;
    [apply (tr_enter_stage W k c phi (fun w => status w = "failed") tau tau');
     [intros; reflexivity | exact Ht]|].
  intros u.
  eapply hoare_bind;
    [apply (tr_assign k c (fun w => status w = "failed")
              (fun w => status w = "failed" /\ error_message w = msg));
     intros ? H; split; [exact H | reflexivity]|].
  intros u0. t_keep W.
  eapply hoare_bind; [apply (tr_log W k c _ _ eps eps'); intros; apply He; assumption|].
  intros u1. apply tr_create_cleanup_task.
Qed.

Lemma analysis_is_recorded d phi (E : Exn -> State -> Prop) :
  hoare (keeping phi) (_handle_analysis_complete W k (PDict d))
        (fun _ => keeping (fun w => analysis_result w = PDict d)) E.
Proof.
  apply hoare_total with
    (E' := fun _ => keeping (fun w => analysis_result w = PDict d));
    [intros s; eexists; apply try_fail_ok|].
  unfold _handle_analysis_complete.
  eapply hoare_try with
    (E' := fun _ => keeping (fun w => analysis_result w = PDict d)).
  - t_keep W.
    eapply hoare_bind;
      [apply (tr_assign k c phi (fun w => analysis_result w = PDict d));
       intros; reflexivity|].
    intros u. cbn [py_get]. repeat t_keep W.
    apply frame_trigger_proposal; intros; assumption.
  - intros e. apply frame_fail; intros; assumption.
Qed.

Lemma proposal_is_recorded d phi (E : Exn -> State -> Prop) :
  hoare (keeping phi) (_handle_remediation_proposed W k (PDict d))
        (fun _ => keeping (fun w => remediation_action w = PDict d)) E.
Proof.
  apply hoare_total with
    (E' := fun _ => keeping (fun w => remediation_action w = PDict d));
    [intros s; eexists; apply try_fail_ok|].
  unfold _handle_remediation_proposed.
  eapply hoare_try with
    (E' := fun _ => keeping (fun w => remediation_action w = PDict d)).
  - t_keep W.
    eapply hoare_bind;
      [apply (tr_assign k c phi (fun w => remediation_action w = PDict d));
       intros; reflexivity|].
    intros u. cbn [py_get]. repeat t_keep W.
    apply frame_trigger_approval; intros; assumption.
  - intros e. apply frame_fail; intros; assumption.
Qed.

Lemma approval_is_recorded d phi (E : Exn -> State -> Prop) :
  hoare (keeping phi) (_handle_approval_received W k (PDict d))
        (fun _ => keeping (fun w => approval_response w = PDict d)) E.
Proof.
  apply hoare_total with
    (E' := fun _ => keeping (fun w => approval_response w = PDict d));
    [intros s; eexists; apply try_fail_ok|].
  unfold _handle_approval_received.
  eapply hoare_try with
    (E' := fun _ => keeping (fun w => approval_response w = PDict d)).
  - t_keep W.
    eapply hoare_bind;
      [apply (tr_assign k c phi (fun w => approval_response w = PDict d));
       intros; reflexivity|].
    intros u. cbn [py_get]. repeat t_keep W.
    match goal with |- hoare _ (if ?b then _ else _) _ _ => destruct b end.
    + apply frame_trigger_execution; intros; assumption.
    + repeat t_keep W. apply frame_complete; intros; assumption.
  - intros e. apply frame_fail; intros; assumption.
Qed.
End Recorded.

(** ** C1: what an analysis result does *)

(** The audit event [_handle_analysis_complete] writes. *)
Definition analysis_logged (k : string) (d : Dict) (t : Z) : Event :=
  mkEvent t "analysis_complete"
    (PDict [("workflow_id", PStr k);
            ("classification", get_or d "classification" PNone);
            ("confidence_score", get_or d "confidence_score" PNone)]).

Section AnalysisHandled.
Variable W : World.
Variable k : string.
Variable s : State.
Variable w : WorkflowState.
Variable d : Dict.
Hypothesis Hw : lookup k s = Some w.

Definition analysis_in_trail (L : list Event) : Prop :=
  exists t rest, L = (events s ++ analysis_logged k d t :: rest)%list.

Lemma analysis_in_trail_closed L l :
  analysis_in_trail L -> Forall (fun e => any_kind (ev_kind e) = true) l ->
  analysis_in_trail (L ++ l)%list.
Proof.
  intros [t [rest ->]] _. exists t, (rest ++ l)%list.
  now rewrite <- app_assoc.
Qed.

Ltac analysis_prefix :=
  unfold _handle_analysis_complete;
  eapply hoare_try with (E' := fun _ _ => False); [|intros; apply hoare_false];
  eapply hoare_pre with
    (P' := tracked k (config s) (fun w' => status w' = status w)
             (fun T => T = transitions s) (fun L => L = events s) anything);
  [|intros ? ->; split; [reflexivity|]; split; [exists w; auto|]; repeat split];
  t_keep W; t_keep W; t_keep W; cbn [py_get]; t_keep W; t_keep W;
  eapply hoare_bind;
  [ apply (tr_log W k (config s) _ _ (fun L => L = events s) analysis_in_trail);
    intros ? ?t ->; exists t, []; reflexivity
  | intros ?u ].

Lemma analysis_then_proposal :
  remediation_agents s <> [] ->
  hoare (fun x => x = s) (_handle_analysis_complete W k (PDict d))
        (fun _ => moved k (config s) analysis_in_trail (status w) "proposing"
                        (transitions s))
        (fun _ _ => False).
Proof.
  intros Ha. analysis_prefix.
  apply (next_trigger_proposal W k (config s) analysis_in_trail any_kind
           analysis_in_trail_closed (status w) (transitions s) anything
           (fun _ _ => False) Ha).
  reflexivity.
Qed.

Lemma analysis_then_failure :
  remediation_agents s = [] ->
  hoare (fun x => x = s) (_handle_analysis_complete W k (PDict d))
        (fun _ => tracked k (config s)
                    (fun w' => status w' = "failed" /\
                               error_message w' =
                               PStr "No remediation agents available")
                    (fun T => T = (transitions s ++ [(k, status w, "failed")])%list)
                    analysis_in_trail anything)
        (fun _ _ => False).
Proof.
  intros Ha. analysis_prefix.
  unfold _trigger_remediation_proposal.
  eapply hoare_try with (E' := fun _ _ => False); [|intros; apply hoare_false].
  apply hoare_get_state. intros s0 Hs0.
  eapply hoare_pre; [|intros ? ->; exact Hs0].
  assert (Hs : remediation_agents s0 = remediation_agents s).
  { destruct Hs0 as (Hc & _). unfold config in Hc. congruence. }
  rewrite Hs, Ha.
  apply fail_stored.
  - intros w' T Hst ->. now rewrite Hst.
  - intros L t x [t0 [rest ->]]. exists t0, (rest ++ [mkEvent t "workflow_failed" x])%list.
    now rewrite <- app_assoc.
Qed.

Lemma analysis_stays_recorded :
  hoare (fun x => x = s) (_handle_analysis_complete W k (PDict d))
        (fun _ => tracked k (config s) (fun w' => analysis_result w' = PDict d)
                          anything anything anything)
        (fun _ _ => False).
Proof.
  eapply hoare_pre;
    [apply (analysis_is_recorded W k (config s) d anything)|].
  intros ? ->. split; [reflexivity|]. split; [exists w; split; [exact Hw | exact I]|].
  repeat split.
Qed.
End AnalysisHandled.

(** C1, as the code has it.  The handler of an analysis result reads the
    classification only to log it.  For a workflow in the store and any
    analysis payload that is a JSON object, whatever its classification:
    the payload is in the record at the end of the call; an
    [analysis_complete] event with the classification and the confidence
    score of the payload is written; when remediation agents are known the
    workflow moves to Proposing; and when none is known it is Failed with
    the message "No remediation agents available". *)
Theorem analysis_result_always_leads_to_proposal
        (W : World) (s : State) (k : string) (w : WorkflowState) (d : Dict) :
  lookup k s = Some w ->
  let s' := exec (_handle_analysis_complete W k (PDict d)) s in
  (exists w', lookup k s' = Some w' /\ analysis_result w' = PDict d) /\
  (exists t rest, events s' = (events s ++ analysis_logged k d t :: rest)%list) /\
  (remediation_agents s <> [] ->
   exists rest,
     transitions s' = (transitions s ++ (k, status w, "proposing") :: rest)%list) /\
  (remediation_agents s = [] ->
   failed_with (PStr "No remediation agents available") k s' /\
   transitions s' = (transitions s ++ [(k, status w, "failed")])%list).
Proof.
  intros Hw. cbv zeta.
  destruct (hoare_exec _ _ _ (analysis_stays_recorded W k s w d Hw))
    as (_ & Hrec & _).
  split; [exact Hrec|].
  destruct (remediation_agents s) as [|a l] eqn:Ha.
  - destruct (hoare_exec _ _ _ (analysis_then_failure W k s w d Hw Ha))
      as (_ & [w' [Hw' [Hst Hmsg]]] & Ht & He & _).
    split; [exact He|]. split; [congruence|]. intros _.
    split; [exists w'; auto | exact Ht].
  - assert (Hne : remediation_agents s <> []) by (rewrite Ha; discriminate).
    destruct (hoare_exec _ _ _ (analysis_then_proposal W k s w d Hw Hne))
      as (_ & _ & Ht & He & _).
    split; [exact He|]. split; [intros _; exact Ht | discriminate].
Qed.

Lemma analysis_result_always_leads_to_proposal_witness :
  (exists w',
      lookup "w1" (exec (_handle_analysis_complete ex_world_ok "w1"
                           (PDict [("classification", PStr "no_action")]))
                        ex_state_analyzing) = Some w' /\
      analysis_result w' = PDict [("classification", PStr "no_action")]) /\
  exists rest,
    transitions (exec (_handle_analysis_complete ex_world_ok "w1"
                         (PDict [("classification", PStr "no_action")]))
                      ex_state_analyzing) =
    (("w1", "analyzing", "proposing") :: rest)%list.
Proof.
  assert (Ha : remediation_agents ex_state_analyzing <> []) by discriminate.
  destruct (analysis_result_always_leads_to_proposal ex_world_ok ex_state_analyzing
              "w1" (ex_workflow "w1" "analyzing" 0 0)
              [("classification", PStr "no_action")] eq_refl)
    as (H1 & _ & H3 & _).
  split; [exact H1 | exact (H3 Ha)].
Defined.

(** ** C5: what the fallback of a stage leaves behind *)

Section FallbackRecorded.
Variable W : World.
Variable k : string.
Variable s : State.
Variable w : WorkflowState.
Hypothesis Hw : lookup k s = Some w.

(** The record of the workflow holds the fallback payload of the stage as
    the result of the stage. *)
Definition substituted (st : Stage) : State -> Prop :=
  tracked k (config s) (fun w' => stage_result st w' = fallback_payload st w)
          anything anything anything.

Ltac fb_weaken :=
  intros ? ?H; eapply tracked_weaken; [| | | |exact H];
  [ intros; exact I | intros; exact I | intros; exact I | intros; exact I ].

Lemma fallback_records st msg :
  stage_agents st s <> [] -> readable st w ->
  a2a_call_raises W s (collaborator st) (stage_skill st s) (call_timeout st) msg ->
  hoare (fun s' => s' = s) (trigger W st k) (fun _ => substituted st)
        (fun _ _ => False).
Proof.
  intros Hagents Hread Hfail. destruct st.
  - apply (fallback_analyze W k s w Hw msg _ _ Hagents Hread Hfail).
    unfold substituted. cbn [stage_result fallback_payload].
    eapply hoare_pre;
      [apply (analysis_is_recorded W k (config s) _ anything) | fb_weaken].
  - apply (fallback_propose W k s w Hw msg _ _ Hagents Hread Hfail).
    unfold substituted. cbn [stage_result fallback_payload].
    eapply hoare_pre;
      [apply (proposal_is_recorded W k (config s) _ anything) | fb_weaken].
  - apply (fallback_approve W k s w Hw msg _ _ Hagents Hfail).
    unfold substituted. cbn [stage_result fallback_payload].
    eapply hoare_pre;
      [apply (approval_is_recorded W k (config s) _ anything) | fb_weaken].
  - apply (fallback_execute W k s w Hw msg _ _ Hagents Hfail).
    unfold substituted. cbn [stage_result fallback_payload].
    eapply hoare_conseq with
      (P' := tracked k (config s) anything anything anything anything)
      (E' := fun _ _ => False);
      [ apply (execution_complete_stored W k (config s) _ anything anything
                 anything anything);
        intros; exact I
      | fb_weaken
      | intros ? ? H; eapply tracked_weaken; [| | | |exact H];
        [ intros ? [_ Hx]; exact Hx | auto | auto | auto ]
      | intros ? ? [] ].
Qed.
End FallbackRecorded.

(** C5, as the code has it.  Take a workflow in the store and one of the
    four stages that call a remote agent, with the agents of the stage and
    of the following stage known and with what the stage reads by [.get]
    from the record being a dictionary.  When the call of the stage
    raises, [msg] being the text of the [RuntimeError] that leaves
    [_a2a_call], then: the following status is not [failed]; the mock
    payload of the stage is in the record as the result of the stage;
    among the audit events the run adds exactly one is of the fallback
    kind of the stage, and it is the fallback event of the stage with the
    workflow id and the error text [msg]; and the workflow enters the
    stage and then the stage that follows it.  The fallback events are of
    type [rca_a2a_failed_mock_fallback],
    [remediation_a2a_failed_mock_fallback] with stage [propose] or
    [execute], and [approval_a2a_failed_mock_fallback]. *)
Theorem failed_call_falls_back_once
        (W : World) (st : Stage) (s : State) (k : string) (w : WorkflowState)
        (msg : string) :
  lookup k s = Some w ->
  stage_agents st s <> [] ->
  next_agents_known st s ->
  readable st w ->
  a2a_call_raises W s (collaborator st) (stage_skill st s) (call_timeout st) msg ->
  let s' := exec (trigger W st k) s in
  next_status st <> "failed" /\
  (exists w', lookup k s' = Some w' /\
              stage_result st w' = fallback_payload st w) /\
  exists new rest,
    events s' = (events s ++ new)%list /\
    logged_once st k msg new /\
    transitions s' =
    (transitions s ++ (k, status w, stage_status st)
       :: (k, stage_status st, next_status st) :: rest)%list.
Proof.
  intros Hw Hagents Hnext Hread Hfail. cbv zeta.
  split; [destruct st; discriminate|].
  destruct (hoare_exec _ _ _
              (fallback_records W k s w Hw st msg Hagents Hread Hfail))
    as (_ & Hrec & _).
  split; [exact Hrec|].
  destruct (hoare_exec _ _ _
              (fallback_moves W k s w Hw st msg Hagents Hnext Hread Hfail))
    as (_ & _ & [rest Hrest] & [new [Hnew Hone]] & _).
  exists new, rest. split; [exact Hnew|]. split; [exact Hone|].
  rewrite Hrest. unfold trace_entered. rewrite <- app_assoc. reflexivity.
Qed.

Lemma ex_call_times_out :
  a2a_call_raises ex_world_timeout ex_state_started "rca" "analyze_failure" 45
                  "A2A call failed for rca.analyze_failure: ".
Proof.
  exact (raises_remote ex_world_timeout ex_state_started "rca" "analyze_failure"
           45 (mkA2AClient true false) (mkExn "TimeoutError" "")
           eq_refl eq_refl (fun _ => eq_refl)).
Defined.

Lemma failed_call_falls_back_once_witness :
  next_status Analyze <> "failed" /\
  (exists w',
      lookup "w1" (exec (trigger ex_world_timeout Analyze "w1") ex_state_started)
      = Some w' /\
      analysis_result w' = mock_analysis) /\
  exists new rest,
    events (exec (trigger ex_world_timeout Analyze "w1") ex_state_started) =
    (events ex_state_started ++ new)%list /\
    logged_once Analyze "w1" "A2A call failed for rca.analyze_failure: " new /\
    transitions (exec (trigger ex_world_timeout Analyze "w1") ex_state_started) =
    (transitions ex_state_started ++ ("w1", "started", "analyzing")
       :: ("w1", "analyzing", "proposing") :: rest)%list.
Proof.
  assert (Ha : stage_agents Analyze ex_state_started <> []) by discriminate.
  assert (Hn : next_agents_known Analyze ex_state_started) by discriminate.
  exact (failed_call_falls_back_once ex_world_timeout Analyze ex_state_started
           "w1" (ex_workflow "w1" "started" 0 0)
           "A2A call failed for rca.analyze_failure: "
           eq_refl Ha Hn eq_refl ex_call_times_out).
Defined.
